(** * Drone swarm simulator: geodetic projection, trajectory synthesis and
      conflict detection

    A shallow embedding of the numerical core of the simulator
    ([core/coordinate_system.py], [core/collision_avoidance.py],
    [simulator/drone_simulator.py], [gui/plot_manager.py],
    [config/settings.py]) together with the properties its specification
    states about it.

    Numbers.  Python [float]s are read as real numbers: [+], [-], [*], [/],
    [math.sqrt], [math.cos] are the operations of [R], comparisons are the
    order of [R].  Rounding, overflow and NaN are outside the model.  Python
    [int]s are [Z], list positions are [nat].

    Effects.  A method of a class with state is a function from the state
    of [self] to an [Outcome]: the value returned or the exception raised,
    the state afterwards and the log records emitted.  The collision engine
    only reads its configuration; its methods are functions of the
    configuration, returning a [Result].  Its calls to [logger] and to the
    collision logger only record what was computed and are left out. *)

From Stdlib Require Import Reals Lra Lia List String Ascii ZArith Bool.
From Stdlib Require Import Sorting.Sorted Sorting.Permutation OrderedTypeEx.
Import ListNotations.

Open Scope R_scope.

(* ================================================================== *)
(** * Python values, exceptions and effects *)
(* ================================================================== *)

Inductive PyExn : Set :=
| ZeroDivisionError
| TypeError
| IndexError
| KeyError.

Inductive Result (A : Type) : Type :=
| Ok (a : A)
| Raise (e : PyExn).

Arguments Ok {A} a.
Arguments Raise {A} e.

Definition result_bind {A B : Type} (r : Result A) (k : A -> Result B)
  : Result B :=
  match r with
  | Ok a => k a
  | Raise e => Raise e
  end.

Inductive LogLevel : Set := DEBUG | INFO | WARNING | ERROR.

(** The messages of the [logger] calls the model keeps; formatted numbers
    are kept as the numbers themselves. *)
Inductive LogMessage : Type :=
| OriginNotSet               (* "Coordinate origin not set, returning (0, 0)" *)
| OriginSetTo (lat lon : R)  (* "Coordinate origin set to: ..." *)
| LongitudeFactor (k : R)    (* "Longitude conversion factor: ..." *)
| TrajectoryCalculated (drone_id : string) (points : nat) (total_time : R).

Record LogRecord : Type := mkLog { level : LogLevel; message : LogMessage }.

Record Outcome (S A : Type) : Type := mkOutcome {
  value : Result A;
  state_after : S;
  emitted : list LogRecord
}.

Arguments mkOutcome {S A} _ _ _.
Arguments value {S A} _.
Arguments state_after {S A} _.
Arguments emitted {S A} _.

(** A method: from the state of [self] to an outcome. *)
Definition M (S A : Type) : Type := S -> Outcome S A.

Definition ret {S A : Type} (a : A) : M S A :=
  fun s => mkOutcome (Ok a) s [].

Definition raise {S A : Type} (e : PyExn) : M S A :=
  fun s => mkOutcome (Raise e) s [].

Definition bind {S A B : Type} (m : M S A) (k : A -> M S B) : M S B :=
  fun s =>
    let o := m s in
    match value o with
    | Ok a =>
        let o' := k a (state_after o) in
        mkOutcome (value o') (state_after o') (emitted o ++ emitted o')
    | Raise e => mkOutcome (Raise e) (state_after o) (emitted o)
    end.

Definition get {S : Type} : M S S :=
  fun s => mkOutcome (Ok s) s [].

Definition put {S : Type} (s' : S) : M S unit :=
  fun _ => mkOutcome (Ok tt) s' [].

Definition log {S : Type} (l : LogLevel) (m : LogMessage) : M S unit :=
  fun s => mkOutcome (Ok tt) s [mkLog l m].

Definition lift {S A : Type} (r : Result A) : M S A :=
  fun s => mkOutcome r s [].

Declare Scope py_scope.
Delimit Scope py_scope with py.
Notation "x <- m ;; k" := (bind m (fun x => k))
  (at level 61, m at next level, right associativity) : py_scope.
Notation "' p <- m ;; k" := (bind m (fun x => let p := x in k))
  (at level 61, p pattern, m at next level, right associativity) : py_scope.
Notation "m ;;; k" := (bind m (fun _ => k))
  (at level 61, right associativity) : py_scope.

(** [a / b] on floats: raises [ZeroDivisionError] when [b == 0]. *)
Definition truediv (a b : R) : Result R :=
  if Req_dec_T b 0 then Raise ZeroDivisionError else Ok (a / b).

(** An arithmetic operand read from an [Optional[float]] attribute:
    arithmetic on [None] raises [TypeError]. *)
Definition float_operand (v : option R) : Result R :=
  match v with
  | Some r => Ok r
  | None => Raise TypeError
  end.

(** Comparisons of floats, as the booleans Python computes. *)
Definition Rleb (a b : R) : bool := if Rle_dec a b then true else false.
Definition Rltb (a b : R) : bool := if Rlt_dec a b then true else false.
Definition Reqb (a b : R) : bool := if Req_dec_T a b then true else false.

(** [math.radians]. *)
Definition radians (deg : R) : R := deg * PI / 180.

(** [int(x)] on a float: truncation toward zero. *)
Definition py_int (x : R) : Z :=
  if Rle_dec 0 x then Zfloor x else Zceil x.

(** [numpy.arange(start, stop, step)] for a positive [step]:
    [ceil((stop - start) / step)] values [start + i * step]. *)
Definition np_arange (start stop step : R) : list R :=
  map (fun i => start + INR i * step)
      (seq 0 (Z.to_nat (Zceil ((stop - start) / step)))).

(** [numpy.linspace(start, stop, num)] for [num > 1]: [num] values
    [start + i * (stop - start) / (num - 1)]. *)
Definition np_linspace (start stop : R) (num : nat) : list R :=
  map (fun i => start + INR i * ((stop - start) / INR (num - 1)))
      (seq 0 num).

(** [range(lo, hi)]. *)
Definition py_range (lo hi : Z) : list Z :=
  map (fun i => (lo + Z.of_nat i)%Z) (seq 0 (Z.to_nat (hi - lo))).

(** [enumerate(l, start)]. *)
Fixpoint enumerate {A : Type} (start : Z) (l : list A) : list (Z * A) :=
  match l with
  | [] => []
  | a :: l' => (start, a) :: enumerate (start + 1) l'
  end.

(** [l[-1]]. *)
Definition last_item {A : Type} (l : list A) : Result A :=
  match rev l with
  | [] => Raise IndexError
  | a :: _ => Ok a
  end.

(** [l[i]] for a Python [int] index: a negative index counts from the
    end, an index out of range raises [IndexError]. *)
Definition list_getitem {A : Type} (l : list A) (i : Z) : Result A :=
  let n := Z.of_nat (List.length l) in
  let j := if (i <? 0)%Z then (i + n)%Z else i in
  if ((0 <=? j)%Z && (j <? n)%Z)%bool then
    match nth_error l (Z.to_nat j) with
    | Some a => Ok a
    | None => Raise IndexError
    end
  else Raise IndexError.

(** The value of a [math] function that raises [ValueError] outside its
    domain. *)
Inductive MathResult (A : Type) : Type :=
| Value (a : A)
| ValueError.

Arguments Value {A} a.
Arguments ValueError {A}.

Definition math_bind {A B : Type} (r : MathResult A)
  (k : A -> MathResult B) : MathResult B :=
  match r with
  | Value a => k a
  | ValueError => ValueError
  end.

(** [math.sqrt]: a negative argument is a domain error. *)
Definition math_sqrt (x : R) : MathResult R :=
  if Rlt_dec x 0 then ValueError else Value (sqrt x).

(** [math.asin]: an argument outside [-1, 1] is a domain error. *)
Definition math_asin (x : R) : MathResult R :=
  if Rleb (-1) x && Rleb x 1 then Value (asin x) else ValueError.

(** [math.atan2 (y, x)]: the angle of the point [(x, y)], in
    (-pi, pi]; [atan2 (0, 0)] is 0.  The real numbers have one zero: what
    [atan2] returns for a negative zero is outside the model. *)
Definition math_atan2 (y x : R) : R :=
  if Rltb 0 x then atan (y / x)
  else if Rltb x 0 then
    if Rleb 0 y then atan (y / x) + PI else atan (y / x) - PI
  else if Rltb 0 y then PI / 2
  else if Rltb y 0 then - (PI / 2)
  else 0.

(** [math.degrees]. *)
Definition degrees (rad : R) : R := rad * 180 / PI.

(** [a % b] on floats for a positive [b]: the remainder has the sign of
    [b]. *)
Definition float_mod (a b : R) : R := a - b * IZR (Zfloor (a / b)).

(* ================================================================== *)
(** * config/settings.py *)
(* ================================================================== *)

Definition EARTH_RADIUS_KM : R := 6371.
Definition METERS_PER_DEGREE_LAT : R := 111111.

Record SafetyConfig : Type := mkSafetyConfig {
  safety_distance : R;
  warning_distance : R;
  critical_distance : R;
  collision_check_interval : R
}.

Definition SafetyConfig_default : SafetyConfig :=
  mkSafetyConfig 5 8 3 (1 / 10).

Record TakeoffConfig : Type := mkTakeoffConfig {
  formation_spacing : R;
  takeoff_altitude : R;
  hover_time : R;
  east_offset : R
}.

Definition TakeoffConfig_default : TakeoffConfig :=
  mkTakeoffConfig 6 10 2 50.

Inductive FlightPhase : Set :=
| TAXI | TAKEOFF | HOVER | AUTO | LOITER | LANDING.

Definition DEFAULT_CRUISE_SPEED : R := 8.

(* ================================================================== *)
(** * core/coordinate_system.py *)
(* ================================================================== *)

Module EarthCoordinateSystem.

Record state : Type := mkState {
  origin_lat : option R;
  origin_lon : option R;
  _meters_per_degree_lon : option R
}.

Definition __init__ : state := mkState None None None.

Open Scope py_scope.

Definition set_origin (lat lon : R) : M state unit :=
  let k := METERS_PER_DEGREE_LAT * cos (radians lat) in
  put (mkState (Some lat) (Some lon) (Some k)) ;;;
  log INFO (OriginSetTo lat lon) ;;;
  log INFO (LongitudeFactor k).

Definition lat_lon_to_meters (lat lon : R) : M state (R * R) :=
  self <- get ;;
  match origin_lat self, origin_lon self with
  | Some olat, Some olon =>
      let y := (lat - olat) * METERS_PER_DEGREE_LAT in
      k <- lift (float_operand (_meters_per_degree_lon self)) ;;
      let x := (lon - olon) * k in
      ret (x, y)
  | _, _ =>
      log WARNING OriginNotSet ;;;
      ret (0, 0)
  end.

Definition meters_to_lat_lon (x y : R) : M state (R * R) :=
  self <- get ;;
  match origin_lat self, origin_lon self with
  | Some olat, Some olon =>
      let lat := olat + y / METERS_PER_DEGREE_LAT in
      k <- lift (float_operand (_meters_per_degree_lon self)) ;;
      q <- lift (truediv x k) ;;
      let lon := olon + q in
      ret (lat, lon)
  | _, _ =>
      log WARNING OriginNotSet ;;;
      ret (0, 0)
  end.

Definition is_origin_set (self : state) : bool :=
  match origin_lat self, origin_lon self with
  | Some _, Some _ => true
  | _, _ => false
  end.

Definition get_origin (self : state) : option R * option R :=
  (origin_lat self, origin_lon self).

Definition get_conversion_factors (self : state) : R * option R :=
  (METERS_PER_DEGREE_LAT, _meters_per_degree_lon self).

(** Haversine distance in metres. *)
Definition calculate_distance (lat1 lon1 lat2 lon2 : R) : MathResult R :=
  let lat1_rad := radians lat1 in
  let lon1_rad := radians lon1 in
  let lat2_rad := radians lat2 in
  let lon2_rad := radians lon2 in
  let dlat := lat2_rad - lat1_rad in
  let dlon := lon2_rad - lon1_rad in
  let a := sin (dlat / 2) ^ 2
           + cos lat1_rad * cos lat2_rad * sin (dlon / 2) ^ 2 in
  math_bind (math_sqrt a) (fun root =>
  math_bind (math_asin root) (fun half =>
  let c := 2 * half in
  let distance := EARTH_RADIUS_KM * 1000 * c in
  Value distance)).

(** Initial bearing from point 1 to point 2, in degrees. *)
Definition calculate_bearing (lat1 lon1 lat2 lon2 : R) : R :=
  let lat1_rad := radians lat1 in
  let lon1_rad := radians lon1 in
  let lat2_rad := radians lat2 in
  let lon2_rad := radians lon2 in
  let dlon := lon2_rad - lon1_rad in
  let y := sin dlon * cos lat2_rad in
  let x := cos lat1_rad * sin lat2_rad
           - sin lat1_rad * cos lat2_rad * cos dlon in
  let bearing_rad := math_atan2 y x in
  let bearing_deg := degrees bearing_rad in
  let bearing_normalized := float_mod (bearing_deg + 360) 360 in
  bearing_normalized.


Close Scope py_scope.

End EarthCoordinateSystem.


(* ================================================================== *)
(** * The data passed between the components *)
(* ================================================================== *)

(** A waypoint dictionary: ['lat'], ['lon'], ['alt'], ['cmd']. *)
Record Waypoint : Type := mkWaypoint {
  wp_lat : R;
  wp_lon : R;
  wp_alt : R;
  wp_cmd : Z
}.

(** A trajectory point dictionary.  ['x'], ['y'], ['z'] and ['time'] are
    always present; the other keys are present in the points the synthesizer
    appends and absent ([None]) where the code that builds the dictionary
    leaves them out. *)
Record Sample : Type := mkSample {
  s_x : R;
  s_y : R;
  s_z : R;
  s_time : R;
  s_phase : option FlightPhase;
  s_lat : option R;
  s_lon : option R;
  s_alt : option R;
  s_waypoint_index : option Z
}.

Record LoiterDelay : Type := mkLoiterDelay {
  start_time : R;
  duration : R
}.

Inductive Severity : Set := critical | warning.

(** A conflict dictionary.  ['wait_time'], ['priority_drone'] and
    ['waiting_drone'] are added by [analyze_trajectory_conflicts]. *)
Record Conflict : Type := mkConflict {
  c_time : R;
  c_distance : R;
  c_drone1 : string;
  c_drone2 : string;
  c_position1 : Sample;
  c_position2 : Sample;
  c_waypoint1_index : Z;
  c_waypoint2_index : Z;
  c_severity : Severity;
  c_wait_time : option R;
  c_priority_drone : option string;
  c_waiting_drone : option string
}.

(** A real-time warning dictionary. *)
Record LiveWarning : Type := mkLiveWarning {
  w_drone1 : string;
  w_drone2 : string;
  w_distance : R;
  w_time : R;
  w_position : R * R * R;
  w_severity : Severity
}.

(** The entries of [self.drones] the core reads. *)
Record DroneData : Type := mkDroneData {
  waypoints : list Waypoint;
  trajectory : list Sample;
  loiter_delays : option (list LoiterDelay)
}.

(** A Python [dict] with string keys, in insertion order; keys are
    unique. *)
Definition Dict (V : Type) : Type := list (string * V).

Definition dict_keys {V : Type} (d : Dict V) : list string := map fst d.

Fixpoint dict_get {V : Type} (d : Dict V) (k : string) : option V :=
  match d with
  | [] => None
  | (k', v) :: d' => if String.eqb k' k then Some v else dict_get d' k
  end.

(** [d[k]]. *)
Definition dict_getitem {V : Type} (d : Dict V) (k : string) : Result V :=
  match dict_get d k with
  | Some v => Ok v
  | None => Raise KeyError
  end.

(** [d[k] = v]: replaces the value of an existing key in place, appends
    a new key. *)
Fixpoint dict_set {V : Type} (d : Dict V) (k : string) (v : V) : Dict V :=
  match d with
  | [] => [(k, v)]
  | (k', v') :: d' =>
      if String.eqb k' k then (k', v) :: d' else (k', v') :: dict_set d' k v
  end.


(** [sorted] on strings: stable, ascending in the order of [str]
    (lexicographic on code points). *)
Fixpoint insert_sorted (a : string) (l : list string) : list string :=
  match l with
  | [] => [a]
  | b :: l' => if String.leb a b then a :: l else b :: insert_sorted a l'
  end.

Definition sorted (l : list string) : list string :=
  fold_right insert_sorted [] l.

(** The pairs [(l[i], l[j])] visited by
    [for i in range(len(l)): for j in range(i + 1, len(l))], in order. *)
Fixpoint index_pairs {A : Type} (l : list A) : list (A * A) :=
  match l with
  | [] => []
  | a :: l' => map (pair a) l' ++ index_pairs l'
  end.

(** A loop whose body may raise, collecting the lists it produces. *)
Fixpoint result_concat_map {A B : Type} (f : A -> Result (list B))
  (l : list A) : Result (list B) :=
  match l with
  | [] => Ok []
  | a :: l' =>
      result_bind (f a) (fun bs =>
      result_bind (result_concat_map f l') (fun rest => Ok (bs ++ rest)))
  end.

Fixpoint result_map {A B : Type} (f : A -> Result B) (l : list A)
  : Result (list B) :=
  match l with
  | [] => Ok []
  | a :: l' =>
      result_bind (f a) (fun b =>
      result_bind (result_map f l') (fun rest => Ok (b :: rest)))
  end.

Definition is_empty {A : Type} (l : list A) : bool :=
  match l with
  | [] => true
  | _ :: _ => false
  end.

(* ================================================================== *)
(** * core/collision_avoidance.py *)
(* ================================================================== *)

Module CollisionAvoidanceSystem.

Definition _calculate_distance_3d (pos1 pos2 : Sample) : R :=
  sqrt ((s_x pos1 - s_x pos2) ^ 2 +
        (s_y pos1 - s_y pos2) ^ 2 +
        (s_z pos1 - s_z pos2) ^ 2).

(** The loop [for i in range(len(trajectory) - 1)] of
    [_interpolate_position], over the pairs
    [(trajectory[i], trajectory[i + 1])]. *)
Fixpoint interpolate_scan (trajectory : list Sample) (time : R)
  : option Sample :=
  match trajectory with
  | p1 :: ((p2 :: _) as rest) =>
      let t1 := s_time p1 in
      let t2 := s_time p2 in
      if Rleb t1 time && Rleb time t2 then
        if Reqb (t2 - t1) 0 then Some p1
        else
          let ratio := (time - t1) / (t2 - t1) in
          Some (mkSample (s_x p1 + ratio * (s_x p2 - s_x p1))
                         (s_y p1 + ratio * (s_y p2 - s_y p1))
                         (s_z p1 + ratio * (s_z p2 - s_z p1))
                         time None None None None None)
      else interpolate_scan rest time
  | _ => None
  end.

Definition _interpolate_position (trajectory : list Sample) (time : R)
  : option Sample :=
  match trajectory with
  | [] => None
  | first :: _ =>
      let final := last trajectory first in
      if Rleb (s_time final) time then Some final
      else if Rleb time (s_time first) then Some first
      else interpolate_scan trajectory time
  end.

(** The loop of [_find_nearest_waypoint_index]; [min_diff] is [None] for
    [float('inf')]. *)
Fixpoint nearest_scan (points : list (Z * Sample)) (time : R)
  (min_diff : option R) (nearest_idx : Z) : Z :=
  match points with
  | [] => nearest_idx
  | (i, point) :: rest =>
      match s_waypoint_index point with
      | Some w =>
          let time_diff := Rabs (s_time point - time) in
          let closer := match min_diff with
                        | None => true
                        | Some m => Rltb time_diff m
                        end in
          if closer then nearest_scan rest time (Some time_diff) w
          else nearest_scan rest time min_diff nearest_idx
      | None => nearest_scan rest time min_diff nearest_idx
      end
  end.

Definition _find_nearest_waypoint_index (trajectory : list Sample) (time : R)
  : Z :=
  match trajectory with
  | [] => 0%Z
  | _ => nearest_scan (enumerate 0 trajectory) time None 0%Z
  end.

(** The body of the sampling loop of [_find_trajectory_conflicts]: the
    conflicts appended at the instant [t]. *)
Definition conflicts_at (config : SafetyConfig)
  (drone1 : string) (traj1 : list Sample)
  (drone2 : string) (traj2 : list Sample) (t : R) : list Conflict :=
  match _interpolate_position traj1 t, _interpolate_position traj2 t with
  | Some pos1, Some pos2 =>
      let distance := _calculate_distance_3d pos1 pos2 in
      if Rltb distance (safety_distance config) then
        let waypoint1_idx := _find_nearest_waypoint_index traj1 t in
        let waypoint2_idx := _find_nearest_waypoint_index traj2 t in
        [mkConflict t distance drone1 drone2 pos1 pos2
                    waypoint1_idx waypoint2_idx
                    (if Rltb distance (critical_distance config)
                     then critical else warning)
                    None None None]
      else []
  | _, _ => []
  end.

Definition _find_trajectory_conflicts (config : SafetyConfig)
  (drone1 : string) (traj1 : list Sample)
  (drone2 : string) (traj2 : list Sample) : Result (list Conflict) :=
  result_bind (last_item traj1) (fun last1 =>
  result_bind (last_item traj2) (fun last2 =>
  let max_time := Rmax (s_time last1) (s_time last2) in
  let time_step := 5 / 10 in
  Ok (flat_map (conflicts_at config drone1 traj1 drone2 traj2)
               (np_arange 0 max_time time_step)))).

(** The loop of [_calculate_precise_wait_time] with its early return:
    [Some w] when the loop returns [w], [None] when it runs to its end. *)
Fixpoint escape_scan (config : SafetyConfig) (traj1 : list Sample)
  (conflict_time : R) (conflict_pos2 : Sample) (safety_buffer : R)
  (times : list R) : option R :=
  match times with
  | [] => None
  | t :: rest =>
      match _interpolate_position traj1 t with
      | Some pos1 =>
          let distance := _calculate_distance_3d pos1 conflict_pos2 in
          if Rltb (safety_distance config + safety_buffer) distance then
            let wait_time := t - conflict_time in
            Some (Rmax wait_time 3)
          else
            escape_scan config traj1 conflict_time conflict_pos2
                        safety_buffer rest
      | None =>
          escape_scan config traj1 conflict_time conflict_pos2
                      safety_buffer rest
      end
  end.

Definition _calculate_precise_wait_time (config : SafetyConfig)
  (traj1 traj2 : list Sample) (conflict : Conflict) : Result R :=
  let conflict_time := c_time conflict in
  let conflict_pos2 := c_position2 conflict in
  let safety_buffer := 2 in
  let check_interval := 1 / 10 in
  result_bind (last_item traj1) (fun last1 =>
  match escape_scan config traj1 conflict_time conflict_pos2 safety_buffer
          (np_arange conflict_time (s_time last1) check_interval) with
  | Some w => Ok w
  | None =>
      let completion_wait := s_time last1 - conflict_time + 5 in
      Ok (Rmax completion_wait 5)
  end).

(** The three assignments [conflict['wait_time'] = wait_time],
    [conflict['priority_drone'] = drone1] and
    [conflict['waiting_drone'] = drone2]. *)
Definition assign_remedy (conflict : Conflict) (wait_time : R)
  (drone1 drone2 : string) : Conflict :=
  mkConflict (c_time conflict) (c_distance conflict)
             (c_drone1 conflict) (c_drone2 conflict)
             (c_position1 conflict) (c_position2 conflict)
             (c_waypoint1_index conflict) (c_waypoint2_index conflict)
             (c_severity conflict)
             (Some wait_time) (Some drone1) (Some drone2).

(** The body of the pair loop of [analyze_trajectory_conflicts]: the
    conflicts it extends the result with for [(drone1, drone2)]. *)
Definition analyze_pair (config : SafetyConfig) (drones_data : Dict DroneData)
  (pair : string * string) : Result (list Conflict) :=
  let '(drone1, drone2) := pair in
  result_bind (dict_getitem drones_data drone1) (fun data1 =>
  result_bind (dict_getitem drones_data drone2) (fun data2 =>
  let trajectory1 := trajectory data1 in
  let trajectory2 := trajectory data2 in
  if is_empty trajectory1 || is_empty trajectory2 then Ok []
  else
    result_bind (_find_trajectory_conflicts config drone1 trajectory1
                                            drone2 trajectory2)
      (fun conflict_points =>
       result_map (fun conflict =>
         result_bind (_calculate_precise_wait_time config trajectory1
                                                   trajectory2 conflict)
           (fun wait_time =>
            Ok (assign_remedy conflict wait_time drone1 drone2)))
         conflict_points))).

Definition analyze_trajectory_conflicts (config : SafetyConfig)
  (drones_data : Dict DroneData) : Result (list Conflict) :=
  let drone_ids := sorted (dict_keys drones_data) in
  result_concat_map (analyze_pair config drones_data) (index_pairs drone_ids).

(** The body of the pair loop of [check_collisions].  A value of
    [positions] is [None] when it is falsy ([None] or an empty dict). *)
Definition check_pair (config : SafetyConfig)
  (positions : Dict (option Sample)) (current_time : R)
  (pair : string * string) : Result (list LiveWarning) :=
  let '(drone1, drone2) := pair in
  result_bind (dict_getitem positions drone1) (fun pos1 =>
  result_bind (dict_getitem positions drone2) (fun pos2 =>
  match pos1, pos2 with
  | Some pos1, Some pos2 =>
      let distance := _calculate_distance_3d pos1 pos2 in
      if Rltb distance (safety_distance config) then
        Ok [mkLiveWarning drone1 drone2 distance current_time
              ((s_x pos1 + s_x pos2) / 2,
               (s_y pos1 + s_y pos2) / 2,
               (s_z pos1 + s_z pos2) / 2)
              (if Rltb distance (critical_distance config)
               then critical else warning)]
      else Ok []
  | _, _ => Ok []
  end)).

(** Returns [(collision_warnings, new_loiters)]; [new_loiters] stays the
    empty dict. *)
Definition check_collisions (config : SafetyConfig)
  (positions : Dict (option Sample)) (current_time : R)
  : Result (list LiveWarning * Dict R) :=
  let drone_ids := sorted (dict_keys positions) in
  result_bind
    (result_concat_map (check_pair config positions current_time)
                       (index_pairs drone_ids))
    (fun collision_warnings => Ok (collision_warnings, [])).

End CollisionAvoidanceSystem.

(* ================================================================== *)
(** * gui/plot_manager.py *)
(* ================================================================== *)

Module Plot3DManager.

Definition phase_or_AUTO (p : Sample) : FlightPhase :=
  match s_phase p with
  | Some ph => ph
  | None => AUTO
  end.

Fixpoint interpolate_scan (trajectory : list Sample) (time : R)
  : option Sample :=
  match trajectory with
  | p1 :: ((p2 :: _) as rest) =>
      let t1 := s_time p1 in
      let t2 := s_time p2 in
      if Rleb t1 time && Rleb time t2 then
        if Reqb (t2 - t1) 0 then Some p1
        else
          let ratio := (time - t1) / (t2 - t1) in
          Some (mkSample (s_x p1 + ratio * (s_x p2 - s_x p1))
                         (s_y p1 + ratio * (s_y p2 - s_y p1))
                         (s_z p1 + ratio * (s_z p2 - s_z p1))
                         time (Some (phase_or_AUTO p1)) None None None None)
      else interpolate_scan rest time
  | _ => None
  end.

Definition _interpolate_position (trajectory : list Sample) (time : R)
  : option Sample :=
  match trajectory with
  | [] => None
  | first :: _ =>
      let final := last trajectory first in
      if Rleb (s_time final) time then Some final
      else if Rleb time (s_time first) then Some first
      else interpolate_scan trajectory time
  end.

(** The loop of [_get_flown_path], with its [break]. *)
Fixpoint _get_flown_path_from (trajectory points : list Sample)
  (current_time : R) (flown_path : list Sample) : list Sample :=
  match points with
  | [] => flown_path
  | point :: rest =>
      if Rleb (s_time point) current_time then
        _get_flown_path_from trajectory rest current_time
                             (flown_path ++ [point])
      else
        match _interpolate_position trajectory current_time with
        | Some current_pos => flown_path ++ [current_pos]
        | None => flown_path
        end
  end.

Definition _get_flown_path (trajectory : list Sample) (current_time : R)
  : list Sample :=
  _get_flown_path_from trajectory trajectory current_time [].

End Plot3DManager.

(* ================================================================== *)
(** * simulator/drone_simulator.py *)
(* ================================================================== *)

Module AdvancedDroneSimulator.

Import EarthCoordinateSystem.

(** The loop over the loiter delays in [_get_drone_position_at_time],
    with its [break]: the effective time it leaves. *)
Fixpoint effective_time_scan (delays : list LoiterDelay) (time : R) : R :=
  match delays with
  | [] => time
  | delay :: rest =>
      if Rleb (start_time delay) time then
        Rmax (start_time delay) (time - duration delay)
      else effective_time_scan rest time
  end.

Definition _get_drone_position_at_time (drones : Dict DroneData)
  (drone_id : string) (time : R) : option Sample :=
  match dict_get drones drone_id with
  | None => None
  | Some data =>
      if is_empty (trajectory data) then None
      else
        let delays := match loiter_delays data with
                      | Some l => l
                      | None => []
                      end in
        let effective_time := effective_time_scan delays time in
        CollisionAvoidanceSystem._interpolate_position
          (trajectory data) effective_time
  end.

Open Scope py_scope.

(** The body of the takeoff loop of [_calculate_realistic_trajectory]. *)
Definition takeoff_sample (takeoff_config : TakeoffConfig)
  (home_wp : Waypoint) (home_x home_y takeoff_time climb_duration : R)
  (it : Z * R) : Sample :=
  let '(i, t) := it in
  let progress := (t - takeoff_time) / climb_duration in
  let altitude := progress * takeoff_altitude takeoff_config in
  mkSample home_x home_y altitude t (Some TAKEOFF)
           (Some (wp_lat home_wp)) (Some (wp_lon home_wp)) (Some altitude)
           (Some (if (i <? 10)%Z then 0%Z else 1%Z)).

(** The body of the interpolation loop of the auto mission phase. *)
Definition interpolated_sample (wp : Waypoint) (wp_idx : Z)
  (prev_x prev_y prev_z x y z total_time flight_time : R)
  (num_segments seg : Z) : Sample :=
  let ratio := IZR seg / IZR num_segments in
  let interp_time := total_time - flight_time + (flight_time * ratio) in
  let interp_x := prev_x + ratio * (x - prev_x) in
  let interp_y := prev_y + ratio * (y - prev_y) in
  let interp_z := prev_z + ratio * (z - prev_z) in
  mkSample interp_x interp_y interp_z interp_time (Some AUTO)
           (Some (wp_lat wp)) (Some (wp_lon wp)) (Some (wp_alt wp))
           (Some (wp_idx - 1)%Z).

(** The loop [for wp_idx, wp in enumerate(waypoints[1:], start=2)]: the
    trajectory it leaves, given the trajectory, the previous position and
    the mission time on entry. *)
Fixpoint auto_mission (speed : R) (wps : list (Z * Waypoint))
  (prev : R * R * R) (total_time : R) (trajectory : list Sample)
  : M state (list Sample * R) :=
  match wps with
  | [] => ret (trajectory, total_time)
  | (wp_idx, wp) :: rest =>
      let '(prev_x, prev_y, prev_z) := prev in
      ' (x, y) <- lat_lon_to_meters (wp_lat wp) (wp_lon wp) ;;
      let z := wp_alt wp in
      let distance :=
        sqrt ((x - prev_x) ^ 2 + (y - prev_y) ^ 2 + (z - prev_z) ^ 2) in
      let flight_time := distance / speed in
      let total_time := total_time + flight_time in
      let trajectory :=
        if Rltb 10 distance then
          let num_segments := Z.max 2 (py_int (distance / 10)) in
          trajectory ++
          map (interpolated_sample wp wp_idx prev_x prev_y prev_z x y z
                                   total_time flight_time num_segments)
              (py_range 1 num_segments)
        else trajectory in
      let trajectory :=
        trajectory ++
        [mkSample x y z total_time (Some AUTO)
                  (Some (wp_lat wp)) (Some (wp_lon wp)) (Some (wp_alt wp))
                  (Some wp_idx)] in
      auto_mission speed rest (x, y, z) total_time trajectory
  end.

Definition _calculate_realistic_trajectory (takeoff_config : TakeoffConfig)
  (waypoints : list Waypoint) (drone_id : string)
  : M state (list Sample) :=
  let trajectory := [] in
  let speed := DEFAULT_CRUISE_SPEED in
  match waypoints with
  | home_wp :: ((_ :: _) as rest) =>
      (* Phase 1: ground taxi *)
      ' (home_x, home_y) <-
          lat_lon_to_meters (wp_lat home_wp) (wp_lon home_wp) ;;
      let trajectory :=
        trajectory ++
        [mkSample home_x home_y 0 0 (Some TAXI)
                  (Some (wp_lat home_wp)) (Some (wp_lon home_wp)) (Some 0)
                  (Some 0%Z)] in
      (* Phase 2: takeoff *)
      let takeoff_time := 2 in
      let climb_duration := 5 in
      let trajectory :=
        trajectory ++
        map (takeoff_sample takeoff_config home_wp home_x home_y
                            takeoff_time climb_duration)
            (enumerate 0
               (np_linspace takeoff_time (takeoff_time + climb_duration) 20)) in
      let total_time := takeoff_time + climb_duration in
      (* Phase 3: hover wait *)
      let hover_end_time := total_time + hover_time takeoff_config in
      let trajectory :=
        trajectory ++
        [mkSample home_x home_y (takeoff_altitude takeoff_config)
                  hover_end_time (Some HOVER)
                  (Some (wp_lat home_wp)) (Some (wp_lon home_wp))
                  (Some (takeoff_altitude takeoff_config))
                  (Some 1%Z)] in
      let total_time := hover_end_time in
      (* Phase 4: auto mission *)
      ' (trajectory, total_time) <-
          auto_mission speed (enumerate 2 rest)
                       (home_x, home_y, takeoff_altitude takeoff_config)
                       total_time trajectory ;;
      log DEBUG (TrajectoryCalculated drone_id (List.length trajectory)
                                      total_time) ;;;
      ret trajectory
  | _ => ret trajectory    (* len(waypoints) < 2 *)
  end.

(** [_get_current_positions], with [self.current_time] as argument. *)
Definition _get_current_positions (drones : Dict DroneData)
  (current_time : R) : Dict Sample :=
  fold_left
    (fun positions item =>
       let '(drone_id, drone_data) := item in
       if is_empty (trajectory drone_data) then positions
       else
         match _get_drone_position_at_time drones drone_id current_time with
         | Some position => dict_set positions drone_id position
         | None => positions
         end)
    drones [].



(** The loop of [reset_simulation] that clears the delays. *)
Definition reset_loiter_delays (drones : Dict DroneData) : Dict DroneData :=
  map (fun item : string * DroneData =>
         let '(drone_id, drone_data) := item in
         (drone_id,
          mkDroneData (waypoints drone_data) (trajectory drone_data)
                      (Some [])))
      drones.

(** The loop of [_generate_test_waypoints] that converts the mission
    points. *)
Fixpoint append_mission_points (mission_points : list (R * R * R))
  (waypoints : list Waypoint) : M state (list Waypoint) :=
  match mission_points with
  | [] => ret waypoints
  | (mx, my, mz) :: rest =>
      ' (mlat, mlon) <- meters_to_lat_lon mx my ;;
      append_mission_points rest (waypoints ++ [mkWaypoint mlat mlon mz 16])
  end.

Definition _generate_test_waypoints (drone_index : Z)
  (takeoff_lat takeoff_lon base_lat base_lon : R)
  : M state (list Waypoint) :=
  let waypoints := [] in
  let waypoints := waypoints ++ [mkWaypoint takeoff_lat takeoff_lon 0 179] in
  let region_offsets :=
    [(-100, -50); (100, -50); (-100, 50); (100, 50)] in
  ' (offset_x, offset_y) <- lift (list_getitem region_offsets drone_index) ;;
  ' (base_x, base_y) <- lat_lon_to_meters base_lat base_lon ;;
  let mission_points :=
    [(base_x + offset_x, base_y + offset_y, 15);
     (base_x + offset_x + 80, base_y + offset_y, 15);
     (base_x + offset_x + 80, base_y + offset_y + 80, 15);
     (base_x + offset_x, base_y + offset_y + 80, 15);
     (base_x + offset_x, base_y + offset_y, 15)] in
  append_mission_points mission_points waypoints.

Close Scope py_scope.

End AdvancedDroneSimulator.

(* ================================================================== *)
(** * Vocabulary of the specification *)
(* ================================================================== *)

(** The position of a trajectory point. *)
Definition position (s : Sample) : R * R * R := (s_x s, s_y s, s_z s).

(** The Euclidean distance of two positions. *)
Definition distance_3d (p q : R * R * R) : R :=
  let '(px, py, pz) := p in
  let '(qx, qy, qz) := q in
  sqrt ((qx - px) ^ 2 + (qy - py) ^ 2 + (qz - pz) ^ 2).

(** The states of the coordinate system the program can be in: the three
    attributes are [None] together ([__init__]) or set together
    ([set_origin]). *)
Definition coherent (self : EarthCoordinateSystem.state) : Prop :=
  EarthCoordinateSystem.origin_lat self = None
  \/ EarthCoordinateSystem.origin_lon self = None
  \/ EarthCoordinateSystem._meters_per_degree_lon self <> None.

(** The local coordinates [lat_lon_to_meters] returns in a coherent
    state. *)
Definition project (self : EarthCoordinateSystem.state) (lat lon : R)
  : R * R :=
  match EarthCoordinateSystem.origin_lat self,
        EarthCoordinateSystem.origin_lon self,
        EarthCoordinateSystem._meters_per_degree_lon self with
  | Some olat, Some olon, Some k =>
      ((lon - olon) * k, (lat - olat) * METERS_PER_DEGREE_LAT)
  | _, _, _ => (0, 0)
  end.

(** Two consecutive trajectory points: time does not decrease, and stands
    still only where the position does. *)
Definition time_step_ok (a b : Sample) : Prop :=
  s_time a <= s_time b /\ (s_time a = s_time b -> position a = position b).

(** At time [t] the priority drone is further than the safety distance
    plus the 2 m buffer from the fixed position of the waiting drone. *)
Definition escaped (config : SafetyConfig) (traj1 : list Sample)
  (conflict_pos2 : Sample) (t : R) : Prop :=
  exists pos1,
    CollisionAvoidanceSystem._interpolate_position traj1 t = Some pos1
    /\ safety_distance config + 2
       < CollisionAvoidanceSystem._calculate_distance_3d pos1 conflict_pos2.

(** The order of [str]. *)
Definition str_lt (a b : string) : Prop := String.ltb a b = true.
Definition str_le (a b : string) : Prop := String.leb a b = true.

(** The local position of a waypoint under the projection [proj]. *)
Definition waypoint_position (proj : R -> R -> R * R) (wp : Waypoint)
  : R * R * R :=
  let '(x, y) := proj (wp_lat wp) (wp_lon wp) in (x, y, wp_alt wp).

(** The trajectory points of one leg of the auto mission: the points the
    body of the loop appends for the waypoint [wp], flown from the position
    [prev] left at mission time [total_time]. *)
Definition leg_samples (proj : R -> R -> R * R) (speed : R)
  (prev : R * R * R) (total_time : R) (wp_idx : Z) (wp : Waypoint)
  : list Sample :=
  let '(prev_x, prev_y, prev_z) := prev in
  let '(x, y, z) := waypoint_position proj wp in
  let distance := distance_3d prev (x, y, z) in
  let flight_time := distance / speed in
  let total_time := total_time + flight_time in
  (if Rltb 10 distance then
     let num_segments := Z.max 2 (py_int (distance / 10)) in
     map (AdvancedDroneSimulator.interpolated_sample
            wp wp_idx prev_x prev_y prev_z x y z
            total_time flight_time num_segments)
         (py_range 1 num_segments)
   else [])
  ++ [mkSample x y z total_time (Some AUTO)
               (Some (wp_lat wp)) (Some (wp_lon wp)) (Some (wp_alt wp))
               (Some wp_idx)].

(** The points of all the legs, in order. *)
Fixpoint auto_samples (proj : R -> R -> R * R) (speed : R)
  (wps : list (Z * Waypoint)) (prev : R * R * R) (total_time : R)
  : list Sample :=
  match wps with
  | [] => []
  | (wp_idx, wp) :: rest =>
      let tgt := waypoint_position proj wp in
      leg_samples proj speed prev total_time wp_idx wp
      ++ auto_samples proj speed rest tgt
           (total_time + distance_3d prev tgt / speed)
  end.

(** The mission time at the end of the legs. *)
Fixpoint auto_end_time (proj : R -> R -> R * R) (speed : R)
  (wps : list (Z * Waypoint)) (prev : R * R * R) (total_time : R) : R :=
  match wps with
  | [] => total_time
  | (_, wp) :: rest =>
      let tgt := waypoint_position proj wp in
      auto_end_time proj speed rest tgt
        (total_time + distance_3d prev tgt / speed)
  end.

(** Where and when the [k]-th leg starts: the position reached and the
    mission time accumulated over the legs before it. *)
Fixpoint leg_start (proj : R -> R -> R * R) (speed : R)
  (prev : R * R * R) (total_time : R) (wps : list Waypoint) (k : nat)
  : (R * R * R) * R :=
  match k, wps with
  | S k', wp :: wps' =>
      let tgt := waypoint_position proj wp in
      leg_start proj speed tgt (total_time + distance_3d prev tgt / speed)
                wps' k'
  | _, _ => (prev, total_time)
  end.

(** The points of the taxi, takeoff and hover phases. *)
Definition ground_samples (takeoff_config : TakeoffConfig)
  (home_wp : Waypoint) (home_x home_y : R) : list Sample :=
  [mkSample home_x home_y 0 0 (Some TAXI)
            (Some (wp_lat home_wp)) (Some (wp_lon home_wp)) (Some 0)
            (Some 0%Z)]
  ++ map (AdvancedDroneSimulator.takeoff_sample takeoff_config home_wp
            home_x home_y 2 5)
         (enumerate 0 (np_linspace 2 (2 + 5) 20))
  ++ [mkSample home_x home_y (takeoff_altitude takeoff_config)
               (2 + 5 + hover_time takeoff_config) (Some HOVER)
               (Some (wp_lat home_wp)) (Some (wp_lon home_wp))
               (Some (takeoff_altitude takeoff_config))
               (Some 1%Z)].

(** The point at the fraction [r] of the segment from [p] to [q]. *)
Definition lerp3 (p q : R * R * R) (r : R) : R * R * R :=
  let '(px, py, pz) := p in
  let '(qx, qy, qz) := q in
  (px + r * (qx - px), py + r * (qy - py), pz + r * (qz - pz)).

(** The conflict dictionary [_find_trajectory_conflicts] builds at the
    instant [t] for the positions [pos1] and [pos2]. *)
Definition conflict_record (config : SafetyConfig)
  (drone1 : string) (traj1 : list Sample)
  (drone2 : string) (traj2 : list Sample)
  (t : R) (pos1 pos2 : Sample) : Conflict :=
  let distance := CollisionAvoidanceSystem._calculate_distance_3d pos1 pos2 in
  mkConflict t distance drone1 drone2 pos1 pos2
    (CollisionAvoidanceSystem._find_nearest_waypoint_index traj1 t)
    (CollisionAvoidanceSystem._find_nearest_waypoint_index traj2 t)
    (if Rltb distance (critical_distance config) then critical else warning)
    None None None.

(** The warning dictionary [check_collisions] builds. *)
Definition warning_record (config : SafetyConfig)
  (drone1 drone2 : string) (current_time : R) (pos1 pos2 : Sample)
  : LiveWarning :=
  let distance := CollisionAvoidanceSystem._calculate_distance_3d pos1 pos2 in
  mkLiveWarning drone1 drone2 distance current_time
    ((s_x pos1 + s_x pos2) / 2,
     (s_y pos1 + s_y pos2) / 2,
     (s_z pos1 + s_z pos2) / 2)
    (if Rltb distance (critical_distance config) then critical else warning).

(** A snapshot of positions as [check_collisions] takes it: every value
    is a position, none is falsy. *)
Definition as_snapshot (positions : Dict Sample) : Dict (option Sample) :=
  map (fun item : string * Sample => (fst item, Some (snd item))) positions.

(** The delays of a drone ([drone_data.get('loiter_delays', [])]). *)
Definition delays_of (data : DroneData) : list LoiterDelay :=
  match loiter_delays data with
  | Some l => l
  | None => []
  end.

(* ================================================================== *)
(** * Comparisons and numeric helpers *)
(* ================================================================== *)

Lemma Rleb_true (a b : R) : Rleb a b = true <-> a <= b.
Proof. unfold Rleb; destruct (Rle_dec a b); split; intros; try easy. Qed.

Lemma Rleb_false (a b : R) : Rleb a b = false <-> b < a.
Proof.
  unfold Rleb; destruct (Rle_dec a b); split; intros; try easy; lra.
Qed.

Lemma Rltb_true (a b : R) : Rltb a b = true <-> a < b.
Proof. unfold Rltb; destruct (Rlt_dec a b); split; intros; try easy. Qed.

Lemma Rltb_false (a b : R) : Rltb a b = false <-> b <= a.
Proof.
  unfold Rltb; destruct (Rlt_dec a b); split; intros; try easy; lra.
Qed.

Lemma Reqb_true (a b : R) : Reqb a b = true <-> a = b.
Proof. unfold Reqb; destruct (Req_dec_T a b); split; intros; try easy. Qed.

Lemma Reqb_false (a b : R) : Reqb a b = false <-> a <> b.
Proof. unfold Reqb; destruct (Req_dec_T a b); split; intros; try easy. Qed.

Lemma METERS_PER_DEGREE_LAT_neq_0 : METERS_PER_DEGREE_LAT <> 0.
Proof. unfold METERS_PER_DEGREE_LAT; lra. Qed.

Lemma truediv_ok (a b : R) : b <> 0 -> truediv a b = Ok (a / b).
Proof.
  intros Hb; unfold truediv.
  destruct (Req_dec_T b 0) as [E | _]; [contradiction | reflexivity].
Qed.





Lemma last_item_ok {A : Type} (l : list A) (d : A) :
  l <> [] -> last_item l = Ok (last l d).
Proof.
  intros Hne; destruct (exists_last Hne) as [l' [a ->]].
  unfold last_item; rewrite rev_app_distr, last_last; reflexivity.
Qed.

Lemma last_item_nil {A : Type} : last_item (@nil A) = Raise IndexError.
Proof. reflexivity. Qed.

(** An integer is below the ceiling of [x] exactly when it is below [x]:
    the values of [np_arange] are the [start + i * step] before [stop]. *)
Lemma lt_Zceil_iff (k : nat) (x : R) :
  (k < Z.to_nat (Zceil x))%nat <-> INR k < x.
Proof.
  pose proof (Zceil_bound x) as [Hlo Hhi].
  rewrite INR_IZR_INZ.
  split; intros H.
  - assert (Hz : (Z.of_nat k < Zceil x)%Z) by lia.
    assert (Hz' : (Z.of_nat k <= Zceil x - 1)%Z) by lia.
    apply IZR_le in Hz'; rewrite minus_IZR in Hz'; lra.
  - assert (Hz : (Z.of_nat k < Zceil x)%Z).
    { apply lt_IZR; lra. }
    lia.
Qed.

(* ================================================================== *)
(** * Properties of the geodetic projection *)
(* ================================================================== *)

Section Projection.

Import EarthCoordinateSystem.

Lemma set_origin_state (lat0 lon0 : R) (s0 : state) :
  state_after (set_origin lat0 lon0 s0)
  = mkState (Some lat0) (Some lon0)
            (Some (METERS_PER_DEGREE_LAT * cos (radians lat0))).
Proof. reflexivity. Qed.

Lemma lat_lon_to_meters_set (olat olon k lat lon : R) :
  lat_lon_to_meters lat lon (mkState (Some olat) (Some olon) (Some k))
  = mkOutcome (Ok ((lon - olon) * k, (lat - olat) * METERS_PER_DEGREE_LAT))
              (mkState (Some olat) (Some olon) (Some k)) [].
Proof. reflexivity. Qed.

Lemma meters_to_lat_lon_set (olat olon k x y : R) :
  k <> 0 ->
  meters_to_lat_lon x y (mkState (Some olat) (Some olon) (Some k))
  = mkOutcome (Ok (olat + y / METERS_PER_DEGREE_LAT, olon + x / k))
              (mkState (Some olat) (Some olon) (Some k)) [].
Proof.
  intros Hk.
  unfold meters_to_lat_lon, bind, get, lift, ret; simpl.
  rewrite (truediv_ok x k Hk); reflexivity.
Qed.


(** C8.  After [set_origin lat0 lon0] at a latitude whose cosine is not
    zero, converting any [(lat, lon)] to metres and back returns normally
    and reproduces [(lat, lon)] exactly, hence within 1e-9 degrees. *)
Theorem projection_round_trip (s0 : state) (lat0 lon0 lat lon : R) :
  cos (radians lat0) <> 0 ->
  let s := state_after (set_origin lat0 lon0 s0) in
  exists lat' lon',
    value (bind (lat_lon_to_meters lat lon)
                (fun xy => meters_to_lat_lon (fst xy) (snd xy)) s)
    = Ok (lat', lon')
    /\ (lat', lon') = (lat, lon)
    /\ Rabs (lat' - lat) <= 1 / 10 ^ 9
    /\ Rabs (lon' - lon) <= 1 / 10 ^ 9.
Proof.
  intros Hcos s; subst s; rewrite set_origin_state.
  set (k := METERS_PER_DEGREE_LAT * cos (radians lat0)).
  assert (Hk : k <> 0).
  { unfold k; apply Rmult_integral_contrapositive_currified;
      [apply METERS_PER_DEGREE_LAT_neq_0 | exact Hcos]. }
  exists lat, lon.
  unfold bind at 1; rewrite lat_lon_to_meters_set.
  cbn [value state_after fst snd].
  rewrite (meters_to_lat_lon_set _ _ _ _ _ Hk); cbn [value].
  assert (Hz : forall r, Rabs (r - r) <= 1 / 10 ^ 9).
  { intros r; replace (r - r) with 0 by ring; rewrite Rabs_R0.
    apply Rlt_le, Rdiv_lt_0_compat; [lra | apply pow_lt; lra]. }
  repeat split; try apply Hz.
  f_equal; f_equal.
  - pose proof METERS_PER_DEGREE_LAT_neq_0; field; assumption.
  - field; assumption.
Qed.

Lemma projection_round_trip_witness :
  exists lat' lon',
    value (bind (lat_lon_to_meters 24 121)
                (fun xy => meters_to_lat_lon (fst xy) (snd xy))
                (state_after (set_origin 0 0 __init__)))
    = Ok (lat', lon')
    /\ (lat', lon') = (24, 121)
    /\ Rabs (lat' - 24) <= 1 / 10 ^ 9
    /\ Rabs (lon' - 121) <= 1 / 10 ^ 9.
Proof.
  apply (projection_round_trip __init__ 0 0 24 121).
  unfold radians; replace (0 * PI / 180) with 0 by field.
  rewrite cos_0; lra.
Defined.

(** C9.  While the origin is unset (as it is from [__init__] until
    [set_origin] is called), both conversions return [(0.0, 0.0)]
    normally, emit exactly one WARNING record and leave the state of the
    coordinate system as it was. *)
Theorem unset_origin_degrades (self : state) (a b : R) :
  origin_lat self = None \/ origin_lon self = None ->
  lat_lon_to_meters a b self
    = mkOutcome (Ok (0, 0)) self [mkLog WARNING OriginNotSet]
  /\ meters_to_lat_lon a b self
    = mkOutcome (Ok (0, 0)) self [mkLog WARNING OriginNotSet].
Proof.
  intros H; destruct self as [olat olon k]; simpl in H.
  unfold lat_lon_to_meters, meters_to_lat_lon, bind, get, log, ret; simpl.
  destruct olat, olon; destruct H; try discriminate; split; reflexivity.
Qed.

Lemma unset_origin_degrades_witness :
  lat_lon_to_meters 24 121 __init__
    = mkOutcome (Ok (0, 0)) __init__ [mkLog WARNING OriginNotSet]
  /\ meters_to_lat_lon 100 200 __init__
    = mkOutcome (Ok (0, 0)) __init__ [mkLog WARNING OriginNotSet].
Proof.
  split.
  - apply (unset_origin_degrades __init__ 24 121); left; reflexivity.
  - apply (unset_origin_degrades __init__ 100 200); left; reflexivity.
Defined.



End Projection.
(* ================================================================== *)
(** * Temporal interpolation *)
(* ================================================================== *)

Section Interpolation.

Import CollisionAvoidanceSystem.

Lemma interpolate_empty (t : R) : _interpolate_position [] t = None.
Proof. reflexivity. Qed.

Lemma interpolate_after_last (first : Sample) (rest : list Sample) (t : R) :
  s_time (last (first :: rest) first) <= t ->
  _interpolate_position (first :: rest) t = Some (last (first :: rest) first).
Proof.
  intros H; unfold _interpolate_position.
  apply Rleb_true in H; rewrite H; reflexivity.
Qed.

Lemma interpolate_before_first (first : Sample) (rest : list Sample) (t : R) :
  t < s_time (last (first :: rest) first) ->
  t <= s_time first ->
  _interpolate_position (first :: rest) t = Some first.
Proof.
  intros Hl Hf; unfold _interpolate_position.
  apply Rleb_false in Hl; apply Rleb_true in Hf; rewrite Hl, Hf; reflexivity.
Qed.

Lemma interpolate_scan_cons (p1 p2 : Sample) (rest : list Sample) (t : R) :
  interpolate_scan (p1 :: p2 :: rest) t
  = if Rleb (s_time p1) t && Rleb t (s_time p2) then
      if Reqb (s_time p2 - s_time p1) 0 then Some p1
      else
        let ratio := (t - s_time p1) / (s_time p2 - s_time p1) in
        Some (mkSample (s_x p1 + ratio * (s_x p2 - s_x p1))
                       (s_y p1 + ratio * (s_y p2 - s_y p1))
                       (s_z p1 + ratio * (s_z p2 - s_z p1))
                       t None None None None None)
    else interpolate_scan (p2 :: rest) t.
Proof. reflexivity. Qed.

(** Between the first and the last time the scan finds a bracketing pair. *)
Lemma interpolate_scan_total (p : Sample) (l : list Sample) (t : R) :
  s_time p <= t -> t < s_time (last (p :: l) p) ->
  exists q, interpolate_scan (p :: l) t = Some q.
Proof.
  revert p; induction l as [| p2 l IH]; intros p Hp Hl.
  - simpl in Hl; lra.
  - rewrite interpolate_scan_cons.
    destruct (Rleb (s_time p) t && Rleb t (s_time p2)) eqn:E.
    + destruct (Reqb (s_time p2 - s_time p) 0); eexists; reflexivity.
    + apply andb_false_iff in E; destruct E as [E | E].
      * apply Rleb_false in E; lra.
      * apply Rleb_false in E; apply IH; [lra |].
        replace (last (p2 :: l) p2) with (last (p :: p2 :: l) p); [exact Hl |].
        clear; cbn [last]; destruct l; [reflexivity |].
        revert s; induction l; intros; [reflexivity |].
        cbn [last] in *; apply IHl.
Qed.

Lemma interpolate_total (trajectory : list Sample) (t : R) :
  trajectory <> [] ->
  exists p, _interpolate_position trajectory t = Some p.
Proof.
  destruct trajectory as [| first rest]; [congruence |]; intros _.
  unfold _interpolate_position.
  destruct (Rleb (s_time (last (first :: rest) first)) t) eqn:El;
    [eexists; reflexivity |].
  destruct (Rleb t (s_time first)) eqn:Ef; [eexists; reflexivity |].
  apply Rleb_false in El, Ef.
  apply interpolate_scan_total; lra.
Qed.

(** When a pair of consecutive points brackets [t] and no earlier pair
    does, the scan returns the linear interpolation of x, y and z at [t],
    a dictionary that carries the time and nothing else; when the two
    points have the same time it returns the earlier point itself. *)
Lemma interpolate_scan_bracket (pre : list Sample) (p1 p2 : Sample)
  (post : list Sample) (t : R) :
  (forall a b l1 l2, pre ++ [p1] = l1 ++ a :: b :: l2 ->
                     ~ (s_time a <= t <= s_time b)) ->
  s_time p1 <= t <= s_time p2 ->
  interpolate_scan (pre ++ p1 :: p2 :: post) t
  = if Reqb (s_time p2 - s_time p1) 0 then Some p1
    else
      let ratio := (t - s_time p1) / (s_time p2 - s_time p1) in
      Some (mkSample (s_x p1 + ratio * (s_x p2 - s_x p1))
                     (s_y p1 + ratio * (s_y p2 - s_y p1))
                     (s_z p1 + ratio * (s_z p2 - s_z p1))
                     t None None None None None).
Proof.
  intros Hpre [H1 H2].
  induction pre as [| a pre IH].
  - cbn [app]; rewrite interpolate_scan_cons.
    apply Rleb_true in H1, H2; rewrite H1, H2; reflexivity.
  - assert (Hnext : exists b l', pre ++ p1 :: p2 :: post = b :: l'
                                 /\ exists l2, pre ++ [p1] = b :: l2).
    { destruct pre as [| b pre'].
      - exists p1, (p2 :: post); split; [reflexivity | exists []; reflexivity].
      - exists b, (pre' ++ p1 :: p2 :: post); split; [reflexivity |].
        exists (pre' ++ [p1]); reflexivity. }
    destruct Hnext as [b [l' [E [l2 E2]]]].
    change ((a :: pre) ++ p1 :: p2 :: post)
      with (a :: (pre ++ p1 :: p2 :: post)).
    rewrite E, interpolate_scan_cons.
    assert (Hab : ~ (s_time a <= t <= s_time b)).
    { apply (Hpre a b [] l2); cbn [app]; rewrite E2; reflexivity. }
    destruct (Rleb (s_time a) t && Rleb t (s_time b)) eqn:Eb.
    + apply andb_true_iff in Eb; destruct Eb as [Ea Eb].
      apply Rleb_true in Ea, Eb; elim Hab; split; assumption.
    + rewrite <- E; apply IH.
      intros a' b' l1 l2' Heq.
      apply (Hpre a' b' (a :: l1) l2'); cbn [app]; rewrite Heq; reflexivity.
Qed.

End Interpolation.
(* ================================================================== *)
(** * Wait time *)
(* ================================================================== *)

Section WaitTime.

Import CollisionAvoidanceSystem.

Variable config : SafetyConfig.
Variable traj1 : list Sample.
Variable conflict_time : R.
Variable conflict_pos2 : Sample.

Local Abbreviation escaped := (escaped config traj1 conflict_pos2).

Lemma escape_scan_step (t : R) (rest : list R) :
  escape_scan config traj1 conflict_time conflict_pos2 2 (t :: rest)
  = match _interpolate_position traj1 t with
    | Some pos1 =>
        if Rltb (safety_distance config + 2)
                (_calculate_distance_3d pos1 conflict_pos2)
        then Some (Rmax (t - conflict_time) 3)
        else escape_scan config traj1 conflict_time conflict_pos2 2 rest
    | None => escape_scan config traj1 conflict_time conflict_pos2 2 rest
    end.
Proof. reflexivity. Qed.

Lemma escape_scan_skip (t : R) (rest : list R) :
  ~ escaped t ->
  escape_scan config traj1 conflict_time conflict_pos2 2 (t :: rest)
  = escape_scan config traj1 conflict_time conflict_pos2 2 rest.
Proof.
  intros Hn; rewrite escape_scan_step.
  destruct (_interpolate_position traj1 t) as [pos1 |] eqn:E; [| reflexivity].
  destruct (Rltb _ _) eqn:Ed; [| reflexivity].
  apply Rltb_true in Ed; elim Hn; exists pos1; split; [exact E | exact Ed].
Qed.

Lemma escape_scan_hit (t : R) (rest : list R) :
  escaped t ->
  escape_scan config traj1 conflict_time conflict_pos2 2 (t :: rest)
  = Some (Rmax (t - conflict_time) 3).
Proof.
  intros [pos1 [E Hd]]; rewrite escape_scan_step, E.
  apply Rltb_true in Hd; rewrite Hd; reflexivity.
Qed.

Lemma escape_scan_first (pre : list R) (t : R) (post : list R) :
  (forall u, In u pre -> ~ escaped u) ->
  escaped t ->
  escape_scan config traj1 conflict_time conflict_pos2 2 (pre ++ t :: post)
  = Some (Rmax (t - conflict_time) 3).
Proof.
  intros Hpre Ht; induction pre as [| u pre IH]; cbn [app].
  - apply escape_scan_hit; exact Ht.
  - rewrite escape_scan_skip by (apply Hpre; left; reflexivity).
    apply IH; intros v Hv; apply Hpre; right; exact Hv.
Qed.

Lemma escape_scan_none (times : list R) :
  (forall u, In u times -> ~ escaped u) ->
  escape_scan config traj1 conflict_time conflict_pos2 2 times = None.
Proof.
  induction times as [| u times IH]; intros H; [reflexivity |].
  rewrite escape_scan_skip by (apply H; left; reflexivity).
  apply IH; intros v Hv; apply H; right; exact Hv.
Qed.

End WaitTime.

Lemma np_arange_nth (start stop step : R) (k : nat) (t : R) :
  0 < step ->
  nth_error (np_arange start stop step) k = Some t
  <-> t = start + INR k * step /\ start + INR k * step < stop.
Proof.
  intros Hstep; unfold np_arange.
  set (n := Z.to_nat (Zceil ((stop - start) / step))).
  assert (Hk : (k < n)%nat <-> start + INR k * step < stop).
  { unfold n; rewrite lt_Zceil_iff; split; intros H.
    - apply (Rmult_lt_compat_r step) in H; [| exact Hstep].
      unfold Rdiv in H; rewrite Rmult_assoc, Rinv_l in H; lra.
    - apply (Rmult_lt_reg_r step); [exact Hstep |].
      unfold Rdiv; rewrite Rmult_assoc, Rinv_l; lra. }
  rewrite nth_error_map, nth_error_seq.
  destruct (k <? n)%nat eqn:E.
  - apply Nat.ltb_lt in E; cbn [option_map Nat.add]; split.
    + intros [= <-]; split; [reflexivity | apply Hk, E].
    + intros [-> _]; reflexivity.
  - apply Nat.ltb_ge in E; cbn [option_map]; split; [discriminate |].
    intros [_ H]; apply Hk in H; lia.
Qed.

Lemma np_arange_In (start stop step t : R) :
  0 < step ->
  In t (np_arange start stop step)
  <-> exists k, t = start + INR k * step /\ start + INR k * step < stop.
Proof.
  intros Hstep; split.
  - intros H; apply In_nth_error in H; destruct H as [k H].
    exists k; apply np_arange_nth in H; assumption.
  - intros [k H]; apply (np_arange_nth _ _ _ k t Hstep) in H.
    eapply nth_error_In; exact H.
Qed.

(** C1.  For a conflict at [t0] and a priority trajectory that is not
    empty, [_calculate_precise_wait_time] returns a wait time [w].  With
    the instants [t0 + k * 0.1] that lie before the last time of the
    priority trajectory: if the priority drone has escaped at the [k]-th
    instant and at none before it, then [w = max (t' - t0, 3.0)], and
    [w >= 3]; if it has escaped at none of them, then
    [w = max (last_time - t0 + 5.0, 5.0)], and [w >= 5]. *)
Theorem wait_time_spec (config : SafetyConfig) (traj1 traj2 : list Sample)
  (conflict : Conflict) :
  traj1 <> [] ->
  exists last1 w,
    last_item traj1 = Ok last1
    /\ CollisionAvoidanceSystem._calculate_precise_wait_time
         config traj1 traj2 conflict = Ok w
    /\ let t0 := c_time conflict in
       let instant (k : nat) := t0 + INR k * (1 / 10) in
       let before_end (k : nat) := instant k < s_time last1 in
       let escaped_at (k : nat) :=
         escaped config traj1 (c_position2 conflict) (instant k) in
       (forall k,
           before_end k -> escaped_at k ->
           (forall j, (j < k)%nat -> ~ escaped_at j) ->
           w = Rmax (instant k - t0) 3 /\ 3 <= w)
       /\ ((forall k, before_end k -> ~ escaped_at k) ->
           w = Rmax (s_time last1 - t0 + 5) 5 /\ 5 <= w).
Proof.
  intros Hne.
  destruct traj1 as [| first rest] eqn:Etraj; [congruence |].
  rewrite <- Etraj in *.
  set (last1 := last traj1 first).
  assert (Hlast : last_item traj1 = Ok last1)
    by (apply last_item_ok; exact Hne).
  unfold CollisionAvoidanceSystem._calculate_precise_wait_time.
  rewrite Hlast; cbn [result_bind].
  set (t0 := c_time conflict).
  set (steps := np_arange t0 (s_time last1) (1 / 10)).
  assert (Hstep : 0 < 1 / 10) by lra.
  destruct (CollisionAvoidanceSystem.escape_scan config traj1 t0
              (c_position2 conflict) 2 steps) as [w |] eqn:Escan.
  - exists last1, w; split; [reflexivity | split; [reflexivity |]].
    cbv zeta; fold t0.
    set (instant := fun k : nat => t0 + INR k * (1 / 10)); split.
    + intros k Hk Hesc Hfirst.
      change (t0 + INR k * (1 / 10)) with (instant k) in *.
      assert (Hnth : nth_error steps k = Some (instant k)).
      { apply np_arange_nth; [exact Hstep | split; [reflexivity | exact Hk]]. }
      apply nth_error_split in Hnth.
      destruct Hnth as [pre [post [Esteps Hlen]]].
      assert (Hpre : forall u, In u pre ->
                ~ escaped config traj1 (c_position2 conflict) u).
      { intros u Hu; apply In_nth_error in Hu; destruct Hu as [j Hj].
        assert (Hjk : (j < k)%nat).
        { rewrite <- Hlen; apply nth_error_Some; congruence. }
        assert (Hj' : nth_error steps j = Some u).
        { rewrite Esteps, nth_error_app1 by lia; exact Hj. }
        apply np_arange_nth in Hj'; [| exact Hstep].
        destruct Hj' as [-> _]; apply Hfirst; exact Hjk. }
      rewrite Esteps, (escape_scan_first _ _ _ _ pre (instant k) post Hpre Hesc)
        in Escan.
      injection Escan as <-; split; [reflexivity | apply Rmax_r].
    + intros Hnone.
      rewrite escape_scan_none in Escan; [discriminate |].
      intros u Hu; apply np_arange_In in Hu; [| exact Hstep].
      destruct Hu as [k [-> Hk]]; apply Hnone; exact Hk.
  - exists last1, (Rmax (s_time last1 - t0 + 5) 5).
    split; [reflexivity | split; [reflexivity |]].
    cbv zeta; fold t0.
    set (instant := fun k : nat => t0 + INR k * (1 / 10)); split.
    + intros k Hk Hesc Hfirst.
      change (t0 + INR k * (1 / 10)) with (instant k) in *.
      assert (Hnth : nth_error steps k = Some (instant k)).
      { apply np_arange_nth; [exact Hstep | split; [reflexivity | exact Hk]]. }
      apply nth_error_split in Hnth.
      destruct Hnth as [pre [post [Esteps Hlen]]].
      assert (Hpre : forall u, In u pre ->
                ~ escaped config traj1 (c_position2 conflict) u).
      { intros u Hu; apply In_nth_error in Hu; destruct Hu as [j Hj].
        assert (Hjk : (j < k)%nat).
        { rewrite <- Hlen; apply nth_error_Some; congruence. }
        assert (Hj' : nth_error steps j = Some u).
        { rewrite Esteps, nth_error_app1 by lia; exact Hj. }
        apply np_arange_nth in Hj'; [| exact Hstep].
        destruct Hj' as [-> _]; apply Hfirst; exact Hjk. }
      rewrite Esteps, (escape_scan_first _ _ _ _ pre (instant k) post Hpre Hesc)
        in Escan.
      discriminate.
    + intros _; split; [reflexivity | apply Rmax_r].
Qed.

(** Scenario 4 of the specification: the priority drone hovers 4 m from
    the waiting drone until its mission ends at t = 40 s; for a conflict at
    t = 12 s the wait time is 40 - 12 + 5 = 33 s. *)
Lemma wait_time_spec_witness :
  let hover_at (t : R) := mkSample 0 0 10 t (Some AUTO) None None None None in
  let traj1 := [hover_at 0; hover_at 40] in
  let pos2 := mkSample 4 0 10 12 None None None None None in
  let conflict := mkConflict 12 4 "Drone_1" "Drone_2" (hover_at 12) pos2
                             2 2 warning None None None in
  exists w,
    CollisionAvoidanceSystem._calculate_precise_wait_time
      SafetyConfig_default traj1 [] conflict = Ok w
    /\ w = 33.
Proof.
  intros hover_at traj1 pos2 conflict.
  destruct (wait_time_spec SafetyConfig_default traj1 [] conflict)
    as [last1 [w [Hl [Hw [_ Hnone]]]]]; [discriminate |].
  exists w; split; [exact Hw |].
  injection Hl as <-.
  destruct Hnone as [-> _].
  - intros k _ [pos1 [Hi Hd]].
    assert (Hpos : s_x pos1 = 0 /\ s_y pos1 = 0 /\ s_z pos1 = 10).
    { unfold CollisionAvoidanceSystem._interpolate_position, traj1 in Hi.
      cbn [last] in Hi.
      destruct (Rleb _ _); [injection Hi as <-; now cbn |].
      destruct (Rleb _ _); [injection Hi as <-; now cbn |].
      rewrite interpolate_scan_cons in Hi.
      destruct (_ && _); [| discriminate].
      destruct (Reqb _ _); injection Hi as <-; cbn; repeat split; ring. }
    destruct Hpos as [Hx [Hy Hz]].
    unfold CollisionAvoidanceSystem._calculate_distance_3d in Hd.
    rewrite Hx, Hy, Hz in Hd; cbn in Hd.
    replace ((0 - 4) * ((0 - 4) * 1) + (0 - 0) * ((0 - 0) * 1)
             + (10 - 10) * ((10 - 10) * 1)) with (4 * 4) in Hd by ring.
    rewrite sqrt_square in Hd; lra.
  - cbn; unfold Rmax; destruct (Rle_dec _ _); lra.
Defined.

(* ================================================================== *)
(** * Loiter delays *)
(* ================================================================== *)

Section Loiter.

Import AdvancedDroneSimulator.

Lemma effective_time_scan_first (pre : list LoiterDelay) (delay : LoiterDelay)
  (post : list LoiterDelay) (time : R) :
  (forall d, In d pre -> time < start_time d) ->
  start_time delay <= time ->
  effective_time_scan (pre ++ delay :: post) time
  = Rmax (start_time delay) (time - duration delay).
Proof.
  intros Hpre Hd; induction pre as [| d pre IH]; cbn [app effective_time_scan].
  - apply Rleb_true in Hd; rewrite Hd; reflexivity.
  - assert (E : Rleb (start_time d) time = false).
    { apply Rleb_false, Hpre; left; reflexivity. }
    rewrite E; apply IH; intros d' Hd'; apply Hpre; right; exact Hd'.
Qed.

Lemma effective_time_scan_none (delays : list LoiterDelay) (time : R) :
  (forall d, In d delays -> time < start_time d) ->
  effective_time_scan delays time = time.
Proof.
  induction delays as [| d delays IH]; intros H; cbn [effective_time_scan].
  - reflexivity.
  - assert (E : Rleb (start_time d) time = false).
    { apply Rleb_false, H; left; reflexivity. }
    rewrite E; apply IH; intros d' Hd'; apply H; right; exact Hd'.
Qed.

(** C5.  For a drone of [self.drones] with its list of loiter delays, the
    position at time [t] is the trajectory interpolated at the effective
    time: with the first delay of the list whose [start_time <= t], the
    effective time is [max (start_time, t - duration)], whatever delays
    follow it; with no such delay, it is [t]. *)
Theorem loiter_effective_time (drones : Dict DroneData) (drone_id : string)
  (data : DroneData) (t : R) :
  dict_get drones drone_id = Some data ->
  let delays := match loiter_delays data with
                | Some l => l
                | None => []
                end in
  (forall pre delay post,
      delays = pre ++ delay :: post ->
      (forall d, In d pre -> ~ start_time d <= t) ->
      start_time delay <= t ->
      _get_drone_position_at_time drones drone_id t
      = CollisionAvoidanceSystem._interpolate_position
          (trajectory data) (Rmax (start_time delay) (t - duration delay)))
  /\ ((forall d, In d delays -> ~ start_time d <= t) ->
      _get_drone_position_at_time drones drone_id t
      = CollisionAvoidanceSystem._interpolate_position (trajectory data) t).
Proof.
  intros Hget delays.
  unfold _get_drone_position_at_time; rewrite Hget; fold delays.
  split.
  - intros pre delay post E Hpre Hd.
    rewrite E, effective_time_scan_first;
      [| intros d Hin; specialize (Hpre d Hin); lra | exact Hd].
    destruct (trajectory data); reflexivity.
  - intros Hnone.
    rewrite effective_time_scan_none;
      [| intros d Hin; specialize (Hnone d Hin); lra].
    destruct (trajectory data); reflexivity.
Qed.

(** Two stored delays start before t = 20; only the first one applies:
    the effective time is max (10, 20 - 4) = 16, not 20 - 4 - 3. *)
Lemma loiter_effective_time_witness :
  let traj := [mkSample 0 0 0 0 (Some TAXI) None None None (Some 0%Z);
               mkSample 0 0 10 7 (Some TAKEOFF) None None None (Some 1%Z)] in
  let data := mkDroneData [] traj
                (Some [mkLoiterDelay 10 4; mkLoiterDelay 12 3]) in
  AdvancedDroneSimulator._get_drone_position_at_time
    [("Drone_1"%string, data)] "Drone_1" 20
  = CollisionAvoidanceSystem._interpolate_position traj (Rmax 10 (20 - 4)).
Proof.
  intros traj data.
  apply (proj1 (loiter_effective_time [("Drone_1"%string, data)] "Drone_1"
                  data 20 eq_refl)
           [] (mkLoiterDelay 10 4) [mkLoiterDelay 12 3]).
  - reflexivity.
  - intros d [].
  - cbn; lra.
Defined.

End Loiter.

(* ================================================================== *)
(** * The phase tag of an interpolated position *)
(* ================================================================== *)

(** C4, at a failing input.  Between the taxi point (t = 0, phase TAXI)
    and a takeoff point (t = 2), at t = 1:
    [CollisionAvoidanceSystem._interpolate_position] returns the linear
    interpolation with no ['phase'] key, where
    [Plot3DManager._interpolate_position] returns the same position with
    the phase of the earlier point. *)
Theorem interpolated_position_drops_phase :
  let p0 := mkSample 0 0 0 0 (Some TAXI) None None None (Some 0%Z) in
  let p1 := mkSample 0 0 10 2 (Some TAKEOFF) None None None (Some 1%Z) in
  (exists p,
      CollisionAvoidanceSystem._interpolate_position [p0; p1] 1 = Some p
      /\ position p = (0, 0, 5) /\ s_time p = 1
      /\ s_phase p = None)
  /\ (exists p,
      Plot3DManager._interpolate_position [p0; p1] 1 = Some p
      /\ position p = (0, 0, 5) /\ s_time p = 1
      /\ s_phase p = Some TAXI).
Proof.
  intros p0 p1.
  assert (E1 : Rleb 2 1 = false) by (apply Rleb_false; lra).
  assert (E2 : Rleb 1 0 = false) by (apply Rleb_false; lra).
  assert (E3 : Rleb 0 1 = true) by (apply Rleb_true; lra).
  assert (E4 : Rleb 1 2 = true) by (apply Rleb_true; lra).
  assert (E5 : Reqb (2 - 0) 0 = false) by (apply Reqb_false; lra).
  split; eexists; (split; [
    cbv [CollisionAvoidanceSystem._interpolate_position
         CollisionAvoidanceSystem.interpolate_scan
         Plot3DManager._interpolate_position
         Plot3DManager.interpolate_scan
         Plot3DManager.phase_or_AUTO last p0 p1 s_time s_phase
         s_x s_y s_z andb];
    rewrite E1, E2, E3, E4, E5; reflexivity |]);
  (repeat split); unfold position; cbn [s_x s_y s_z];
  (f_equal; [f_equal |]); field.
Qed.
(* ================================================================== *)
(** * Trajectory synthesis *)
(* ================================================================== *)

Section Synthesis.

Import EarthCoordinateSystem AdvancedDroneSimulator.

Lemma coherent_init : coherent __init__.
Proof. left; reflexivity. Qed.

Lemma coherent_set_origin (lat lon : R) (s0 : state) :
  coherent (state_after (set_origin lat lon s0)).
Proof. right; right; discriminate. Qed.

Lemma lat_lon_to_meters_coherent (self : state) (lat lon : R) :
  coherent self ->
  exists logs,
    lat_lon_to_meters lat lon self
    = mkOutcome (Ok (project self lat lon)) self logs.
Proof.
  destruct self as [[olat |] [olon |] [k |]]; intros H;
    unfold lat_lon_to_meters, project, bind, get, lift, log, ret; cbn;
    try (eexists; reflexivity).
  destruct H as [H | [H | H]]; cbn in H; congruence.
Qed.

Lemma auto_mission_run (self : state) (speed : R)
  (wps : list (Z * Waypoint)) :
  coherent self ->
  forall (prev : R * R * R) (total_time : R) (trajectory : list Sample),
  exists logs,
    auto_mission speed wps prev total_time trajectory self
    = mkOutcome
        (Ok (trajectory
             ++ auto_samples (project self) speed wps prev total_time,
             auto_end_time (project self) speed wps prev total_time))
        self logs.
Proof.
  intros Hc; induction wps as [| [wp_idx wp] rest IH];
    intros [[prev_x prev_y] prev_z] total_time trajectory.
  - exists []; cbn [auto_mission auto_samples auto_end_time].
    rewrite app_nil_r; reflexivity.
  - destruct (lat_lon_to_meters_coherent self (wp_lat wp) (wp_lon wp) Hc)
      as [logs1 E1].
    cbn [auto_mission auto_samples auto_end_time].
    unfold bind at 1; rewrite E1; cbn [value state_after emitted].
    unfold waypoint_position, leg_samples, waypoint_position.
    destruct (project self (wp_lat wp) (wp_lon wp)) as [x y] eqn:Ep.
    cbn [distance_3d].
    set (distance := sqrt ((x - prev_x) ^ 2 + (y - prev_y) ^ 2
                           + (wp_alt wp - prev_z) ^ 2)).
    match goal with
    | |- context [auto_mission speed rest ?p ?t ?tr self] =>
        destruct (IH p t tr) as [logs2 E2]; rewrite E2
    end.
    cbn [value state_after emitted].
    exists (logs1 ++ logs2); f_equal; f_equal; f_equal.
    destruct (Rltb 10 distance); rewrite <- !app_assoc; reflexivity.
Qed.

Lemma calculate_realistic_trajectory_run (self : state)
  (takeoff_config : TakeoffConfig) (home_wp wp1 : Waypoint)
  (rest : list Waypoint) (drone_id : string) :
  coherent self ->
  value (_calculate_realistic_trajectory takeoff_config
           (home_wp :: wp1 :: rest) drone_id self)
  = Ok (let '(home_x, home_y) :=
          project self (wp_lat home_wp) (wp_lon home_wp) in
        ground_samples takeoff_config home_wp home_x home_y
        ++ auto_samples (project self) DEFAULT_CRUISE_SPEED
             (enumerate 2 (wp1 :: rest))
             (home_x, home_y, takeoff_altitude takeoff_config)
             (2 + 5 + hover_time takeoff_config)).
Proof.
  intros Hc.
  destruct (lat_lon_to_meters_coherent self (wp_lat home_wp) (wp_lon home_wp)
              Hc)
    as [logs1 E1].
  unfold _calculate_realistic_trajectory.
  unfold bind at 1; rewrite E1; cbn [value state_after emitted].
  destruct (project self (wp_lat home_wp) (wp_lon home_wp)) as [home_x home_y].
  match goal with
  | |- context [auto_mission ?sp ?w ?p ?t ?tr] =>
      destruct (auto_mission_run self sp w Hc p t tr) as [logs2 E2]
  end.
  unfold bind at 1; rewrite E2; cbn [value state_after emitted].
  unfold ground_samples; cbn [app]; rewrite <- !app_assoc; reflexivity.
Qed.

Lemma calculate_realistic_trajectory_short (self : state)
  (takeoff_config : TakeoffConfig) (waypoints : list Waypoint)
  (drone_id : string) :
  (List.length waypoints < 2)%nat ->
  _calculate_realistic_trajectory takeoff_config waypoints drone_id self
  = mkOutcome (Ok []) self [].
Proof.
  destruct waypoints as [| a [| b l]]; cbn [List.length]; intros H;
    try reflexivity; lia.
Qed.

End Synthesis.
(* ================================================================== *)
(** * Time along a synthesized trajectory *)
(* ================================================================== *)

Section Monotone.

Import EarthCoordinateSystem AdvancedDroneSimulator.

Lemma time_step_lt (a b : Sample) : s_time a < s_time b -> time_step_ok a b.
Proof. intros H; split; [lra | intros E; lra]. Qed.

Lemma time_step_ok_trans (a b c : Sample) :
  time_step_ok a b -> time_step_ok b c -> time_step_ok a c.
Proof.
  intros [H1 P1] [H2 P2]; split; [lra |].
  intros E; rewrite P1, P2; [reflexivity | lra | lra].
Qed.

Lemma last_cons_app {A : Type} (p : A) (l : list A) (w d : A) :
  last (p :: l ++ [w]) d = w.
Proof.
  change (p :: l ++ [w]) with ((p :: l) ++ [w]); apply last_last.
Qed.

Lemma Sorted_app_last {A : Type} (R : A -> A -> Prop) (p : A)
  (l1 l2 : list A) :
  Sorted R (p :: l1) -> Sorted R (last (p :: l1) p :: l2) ->
  Sorted R (p :: l1 ++ l2).
Proof.
  revert p; induction l1 as [| a l1 IH]; intros p H1 H2.
  - exact H2.
  - inversion H1 as [| ? ? Hs Hh]; subst.
    inversion Hh as [| ? ? Hr]; subst.
    cbn [app]; constructor; [| constructor; exact Hr].
    apply IH; [exact Hs |].
    replace (last (a :: l1) a) with (last (p :: a :: l1) p); [exact H2 |].
    clear; cbn [last]; destruct l1 as [| b l1]; [reflexivity |].
    revert b; induction l1 as [| c l1 IHl]; intros b; [reflexivity |].
    cbn [last] in *; apply IHl.
Qed.

Lemma Sorted_cons_map_seq {A : Type} (R : A -> A -> Prop) (h : nat -> A)
  (m : nat) :
  forall (a : nat) (p : A),
    (m <> 0%nat -> R p (h a)) ->
    (forall i, (a <= i)%nat -> (S i < a + m)%nat -> R (h i) (h (S i))) ->
    Sorted R (p :: map h (seq a m)).
Proof.
  induction m as [| m IH]; intros a p Hp Hstep; cbn [seq map].
  - constructor; constructor.
  - constructor; [| constructor; apply Hp; discriminate].
    apply IH.
    + intros Hm; apply Hstep; lia.
    + intros i Hi1 Hi2; apply Hstep; lia.
Qed.

Lemma last_cons_map_seq {A : Type} (h : nat -> A) (m : nat) :
  forall (a : nat) (p d : A),
    last (p :: map h (seq a (S m))) d = h (a + m)%nat.
Proof.
  induction m as [| m IH]; intros a p d.
  - cbn; f_equal; lia.
  - change (seq a (S (S m))) with (a :: seq (S a) (S m)).
    cbn [map]; change (last (p :: h a :: ?l) d) with (last (h a :: l) d).
    rewrite IH; f_equal; lia.
Qed.

Lemma distance_3d_nonneg (p q : R * R * R) : 0 <= distance_3d p q.
Proof. destruct p as [[? ?] ?], q as [[? ?] ?]; apply sqrt_pos. Qed.

Lemma sum_squares_nonneg (a b c : R) : 0 <= a ^ 2 + b ^ 2 + c ^ 2.
Proof.
  pose proof (pow2_ge_0 a); pose proof (pow2_ge_0 b);
    pose proof (pow2_ge_0 c); lra.
Qed.

Lemma sum_squares_zero (a b c : R) :
  a ^ 2 + b ^ 2 + c ^ 2 = 0 -> a = 0 /\ b = 0 /\ c = 0.
Proof.
  pose proof (pow2_ge_0 a); pose proof (pow2_ge_0 b);
    pose proof (pow2_ge_0 c); intros Hsum.
  repeat split; apply Rsqr_0_uniq; rewrite Rsqr_pow2; lra.
Qed.

Lemma distance_3d_zero (p q : R * R * R) : distance_3d p q = 0 -> p = q.
Proof.
  destruct p as [[px py] pz], q as [[qx qy] qz]; cbn [distance_3d]; intros H.
  apply sqrt_eq_0 in H; [| apply sum_squares_nonneg].
  apply sum_squares_zero in H; destruct H as [Hx [Hy Hz]].
  f_equal; [f_equal |]; lra.
Qed.

Lemma py_range_seq (n : Z) :
  py_range 1 n = map (fun i => (1 + Z.of_nat i)%Z) (seq 0 (Z.to_nat (n - 1))).
Proof. reflexivity. Qed.

Lemma py_int_floor (x : R) : 0 <= x -> py_int x = Zfloor x.
Proof.
  intros H; unfold py_int; destruct (Rle_dec 0 x); [reflexivity | lra].
Qed.

Section Leg.

Variable proj : R -> R -> R * R.
Variable speed : R.
Hypothesis speed_pos : 0 < speed.

(** One leg, after the point [p] at which it starts. *)
Lemma leg_samples_sorted (p : Sample) (prev : R * R * R) (total_time : R)
  (wp_idx : Z) (wp : Waypoint) :
  position p = prev ->
  s_time p = total_time ->
  let tgt := waypoint_position proj wp in
  let leg := leg_samples proj speed prev total_time wp_idx wp in
  Sorted time_step_ok (p :: leg)
  /\ position (last (p :: leg) p) = tgt
  /\ s_time (last (p :: leg) p)
     = total_time + distance_3d prev tgt / speed.
Proof.
  intros Hp Ht tgt leg; subst leg tgt.
  unfold leg_samples, waypoint_position.
  destruct (proj (wp_lat wp) (wp_lon wp)) as [x y].
  destruct prev as [[prev_x prev_y] prev_z].
  set (d := distance_3d (prev_x, prev_y, prev_z) (x, y, wp_alt wp)).
  assert (Hd0 : 0 <= d) by apply distance_3d_nonneg.
  cbv zeta.
  set (W := mkSample x y (wp_alt wp) (total_time + d / speed) (Some AUTO)
                     (Some (wp_lat wp)) (Some (wp_lon wp)) (Some (wp_alt wp))
                     (Some wp_idx)).
  rewrite !last_cons_app.
  split; [| split; reflexivity].
  destruct (Rltb 10 d) eqn:E10.
  - apply Rltb_true in E10.
    set (n := Z.max 2 (py_int (d / 10))).
    assert (Hn : (2 <= n)%Z) by (unfold n; lia).
    assert (Hft : 0 < d / speed) by (apply Rdiv_lt_0_compat; lra).
    rewrite py_range_seq, map_map.
    set (h := fun i : nat => interpolated_sample _ _ _ _ _ _ _ _ _ _ _ _).
    assert (Hm : exists m, Z.to_nat (n - 1) = S m)
      by (exists (Z.to_nat (n - 2)); lia).
    destruct Hm as [m Em]; rewrite Em.
    assert (HnR : 0 < IZR n) by (apply IZR_lt; lia).
    assert (Htime : forall i, s_time (h i)
               = total_time + d / speed * (IZR (1 + Z.of_nat i) / IZR n)).
    { intros i; unfold h, interpolated_sample; cbn [s_time]; ring. }
    apply Sorted_app_last.
    + apply Sorted_cons_map_seq.
      * intros _; apply time_step_lt; rewrite Htime, Ht.
        assert (0 < IZR (1 + Z.of_nat 0) / IZR n).
        { apply Rdiv_lt_0_compat; [apply IZR_lt; lia | exact HnR]. }
        nra.
      * intros i _ _; apply time_step_lt; rewrite !Htime.
        assert (IZR (1 + Z.of_nat i) / IZR n
                < IZR (1 + Z.of_nat (S i)) / IZR n).
        { apply Rmult_lt_compat_r; [apply Rinv_0_lt_compat; exact HnR |].
          apply IZR_lt; lia. }
        nra.
    + rewrite last_cons_map_seq.
      constructor; [constructor; constructor | constructor].
      apply time_step_lt; rewrite Htime; unfold W; cbn [s_time].
      assert (IZR (1 + Z.of_nat (0 + m)) / IZR n < 1).
      { apply (Rmult_lt_reg_r (IZR n)); [exact HnR |].
        unfold Rdiv; rewrite Rmult_assoc, Rinv_l, Rmult_1_r, Rmult_1_l by lra.
        apply IZR_lt; lia. }
      nra.
  - apply Rltb_false in E10; cbn [app].
    constructor; [constructor; constructor | constructor].
    unfold W; split; cbn [s_time].
    + assert (0 <= d / speed).
      { apply Rmult_le_pos; [exact Hd0 | apply Rlt_le, Rinv_0_lt_compat; lra]. }
      lra.
    + intros E.
      assert (Hz : d / speed = 0) by lra.
      assert (Hd : d = 0).
      { apply (Rmult_eq_reg_r (/ speed));
          [unfold Rdiv in Hz; lra | apply Rinv_neq_0_compat; lra]. }
      apply distance_3d_zero in Hd; rewrite Hp; exact Hd.
Qed.

Lemma auto_samples_sorted (wps : list (Z * Waypoint)) :
  forall (p : Sample),
    Sorted time_step_ok
      (p :: auto_samples proj speed wps (position p) (s_time p)).
Proof.
  induction wps as [| [wp_idx wp] rest IH]; intros p.
  - cbn; constructor; constructor.
  - cbn [auto_samples].
    destruct (leg_samples_sorted p (position p) (s_time p) wp_idx wp
                eq_refl eq_refl) as [Hs [Hpos Htime]].
    apply Sorted_app_last; [exact Hs |].
    rewrite <- Htime, <- Hpos; apply IH.
Qed.

End Leg.

End Monotone.

Section Ground.

Import AdvancedDroneSimulator.

Lemma enumerate_map_seq {B : Type} (f : nat -> B) (n : nat) :
  forall (a : nat) (z : Z),
    enumerate z (map f (seq a n))
    = map (fun i => ((z + Z.of_nat i - Z.of_nat a)%Z, f i)) (seq a n).
Proof.
  induction n as [| n IH]; intros a z; [reflexivity |].
  cbn [seq map enumerate]; f_equal.
  - f_equal; lia.
  - rewrite IH; apply map_ext; intros i; f_equal; lia.
Qed.

Lemma StronglySorted_weaken {A : Type} (R R' : A -> A -> Prop) (l : list A) :
  (forall a b, R a b -> R' a b) -> StronglySorted R l -> StronglySorted R' l.
Proof.
  intros Himp H; induction H as [| a l Hs IH Hall]; constructor.
  - exact IH.
  - eapply Forall_impl; [| exact Hall]; intros b; apply Himp.
Qed.

(** The taxi, takeoff and hover points: 22 points from time 0, ending with
    the hover point above the home position. *)
Lemma ground_samples_sorted (takeoff_config : TakeoffConfig)
  (home_wp : Waypoint) (home_x home_y : R) :
  0 <= hover_time takeoff_config ->
  exists first rest,
    ground_samples takeoff_config home_wp home_x home_y = first :: rest
    /\ s_time first = 0
    /\ Sorted time_step_ok (first :: rest)
    /\ position (last (first :: rest) first)
       = (home_x, home_y, takeoff_altitude takeoff_config)
    /\ s_time (last (first :: rest) first)
       = 2 + 5 + hover_time takeoff_config.
Proof.
  intros Hh; unfold ground_samples, np_linspace.
  rewrite enumerate_map_seq, map_map.
  set (h := fun i : nat => takeoff_sample _ _ _ _ _ _ _).
  set (taxi := mkSample home_x home_y 0 0 _ _ _ _ _).
  set (hover := mkSample home_x home_y _ _ (Some HOVER) _ _ _ _).
  exists taxi, (map h (seq 0 20) ++ [hover]); cbn [app].
  assert (H19 : INR (20 - 1) = 19).
  { cbn [Nat.sub]; rewrite INR_IZR_INZ; reflexivity. }
  assert (Htime : forall i, s_time (h i) = 2 + INR i * (5 / 19)).
  { intros i; unfold h, takeoff_sample; cbn [s_time]; rewrite H19; field. }
  split; [reflexivity | split; [reflexivity |]].
  rewrite !last_cons_app.
  split; [| split; reflexivity].
  apply Sorted_app_last.
  - apply Sorted_cons_map_seq.
    + intros _; apply time_step_lt; rewrite Htime; cbn [taxi s_time INR]; lra.
    + intros i _ _; apply time_step_lt; rewrite !Htime, S_INR; lra.
  - rewrite (last_cons_map_seq h 19 0 taxi taxi).
    constructor; [constructor; constructor | constructor].
    assert (E19 : INR (0 + 19) = 19).
    { cbn [Nat.add]; rewrite INR_IZR_INZ; reflexivity. }
    split.
    + rewrite Htime, E19; unfold hover; cbn [s_time]; lra.
    + intros _; unfold h, takeoff_sample, hover, position;
        cbn [s_x s_y s_z]; rewrite H19, E19.
      f_equal; field.
Qed.

End Ground.

(** C7.  For a coherent coordinate system, a hover time that is not
    negative and a list of at least two waypoints, the synthesizer returns
    a trajectory that is not empty; its first point has time 0; along
    consecutive points the time never decreases and stays the same only
    where the position stays the same; hence the times are non-decreasing
    from the first point to the last. *)
Theorem trajectory_times_monotone (self : EarthCoordinateSystem.state)
  (takeoff_config : TakeoffConfig) (waypoints : list Waypoint)
  (drone_id : string) :
  coherent self ->
  0 <= hover_time takeoff_config ->
  (2 <= List.length waypoints)%nat ->
  exists first rest,
    value (AdvancedDroneSimulator._calculate_realistic_trajectory
             takeoff_config waypoints drone_id self)
    = Ok (first :: rest)
    /\ s_time first = 0
    /\ Sorted time_step_ok (first :: rest)
    /\ StronglySorted (fun a b => s_time a <= s_time b) (first :: rest).
Proof.
  intros Hc Hh Hlen.
  destruct waypoints as [| home_wp [| wp1 wps]]; cbn [List.length] in Hlen;
    try lia.
  rewrite (calculate_realistic_trajectory_run _ _ _ _ _ _ Hc).
  destruct (project self (wp_lat home_wp) (wp_lon home_wp)) as [home_x home_y].
  destruct (ground_samples_sorted takeoff_config home_wp home_x home_y Hh)
    as [first [rest [Eg [H0 [Hs [Hpos Htime]]]]]].
  rewrite Eg; cbn [app].
  eexists; eexists; split; [reflexivity | split; [exact H0 |]].
  assert (Hall : Sorted time_step_ok
            (first :: rest ++
               auto_samples (project self) DEFAULT_CRUISE_SPEED
                 (enumerate 2 (wp1 :: wps))
                 (home_x, home_y, takeoff_altitude takeoff_config)
                 (2 + 5 + hover_time takeoff_config))).
  { apply Sorted_app_last; [exact Hs |].
    rewrite <- Hpos, <- Htime; apply auto_samples_sorted.
    unfold DEFAULT_CRUISE_SPEED; lra. }
  split; [exact Hall |].
  apply (StronglySorted_weaken time_step_ok); [intros a b [H _]; exact H |].
  apply Sorted_StronglySorted; [| exact Hall].
  intros a b c; apply time_step_ok_trans.
Qed.

(** The test mission's first leg, from the default configuration with the
    origin set at (24, 121). *)
Lemma trajectory_times_monotone_witness :
  exists first rest,
    value (AdvancedDroneSimulator._calculate_realistic_trajectory
             TakeoffConfig_default
             [mkWaypoint 24 121 0 179; mkWaypoint (24 + 1 / 1000) 121 15 16]
             "Drone_1"
             (state_after (EarthCoordinateSystem.set_origin 24 121
                             EarthCoordinateSystem.__init__)))
    = Ok (first :: rest)
    /\ s_time first = 0
    /\ Sorted time_step_ok (first :: rest)
    /\ StronglySorted (fun a b => s_time a <= s_time b) (first :: rest).
Proof.
  apply trajectory_times_monotone.
  - apply coherent_set_origin.
  - cbn; lra.
  - cbn; lia.
Defined.

(* ================================================================== *)
(** * The points of the auto mission phase *)
(* ================================================================== *)

Section AutoPhase.

Import AdvancedDroneSimulator.

Variable proj : R -> R -> R * R.
Variable speed : R.

(** One leg: the interpolated points, then the waypoint itself. *)
Lemma leg_samples_shape (prev : R * R * R) (total_time : R) (wp_idx : Z)
  (wp : Waypoint) :
  let tgt := waypoint_position proj wp in
  let d := distance_3d prev tgt in
  let n := Z.max 2 (Zfloor (d / 10)) in
  exists interps,
    leg_samples proj speed prev total_time wp_idx wp
    = interps ++
      [mkSample (fst (fst tgt)) (snd (fst tgt)) (snd tgt)
                (total_time + d / speed) (Some AUTO)
                (Some (wp_lat wp)) (Some (wp_lon wp)) (Some (wp_alt wp))
                (Some wp_idx)]
    /\ (10 < d ->
        List.length interps = Z.to_nat (n - 1)
        /\ forall j, (j < List.length interps)%nat ->
             exists s,
               nth_error interps j = Some s
               /\ s_phase s = Some AUTO
               /\ s_time s
                  = total_time + d / speed * (IZR (Z.of_nat j + 1) / IZR n)
               /\ position s = lerp3 prev tgt (IZR (Z.of_nat j + 1) / IZR n))
    /\ (d <= 10 -> interps = []).
Proof.
  intros tgt d n; subst n d tgt.
  unfold leg_samples, waypoint_position.
  destruct (proj (wp_lat wp) (wp_lon wp)) as [x y].
  destruct prev as [[prev_x prev_y] prev_z].
  set (d := distance_3d (prev_x, prev_y, prev_z) (x, y, wp_alt wp)).
  cbv zeta; cbn [fst snd].
  eexists; split; [reflexivity |].
  destruct (Rltb 10 d) eqn:E10.
  - apply Rltb_true in E10; split; [intros _ | intros H; lra].
    rewrite py_int_floor by (apply Rmult_le_pos; lra).
    set (n := Z.max 2 (Zfloor (d / 10))).
    rewrite py_range_seq, map_map, length_map, length_seq.
    split; [reflexivity |].
    intros j Hj; eexists; split.
    + rewrite nth_error_map, nth_error_seq.
      apply Nat.ltb_lt in Hj; rewrite Hj; cbn [option_map Nat.add].
      reflexivity.
    + unfold interpolated_sample, position, lerp3.
      cbn [s_phase s_time s_x s_y s_z].
      replace (1 + Z.of_nat j)%Z with (Z.of_nat j + 1)%Z by lia.
      split; [reflexivity | split; [ring | reflexivity]].
  - apply Rltb_false in E10; split; [intros H; lra | intros _; reflexivity].
Qed.

(** The [k]-th leg inside the trajectory: it follows the point at which it
    starts. *)
Lemma auto_samples_leg (k : nat) :
  forall (wps : list Waypoint) (idx : Z) (prev : R * R * R) (total_time : R)
         (pre : list Sample) (p : Sample) (wp : Waypoint),
    nth_error wps k = Some wp ->
    position p = prev -> s_time p = total_time ->
    exists before prev_sample after,
      pre ++ [p] ++ auto_samples proj speed (enumerate idx wps) prev total_time
      = before ++ [prev_sample]
        ++ leg_samples proj speed
             (fst (leg_start proj speed prev total_time wps k))
             (snd (leg_start proj speed prev total_time wps k))
             (idx + Z.of_nat k) wp
        ++ after
      /\ position prev_sample = fst (leg_start proj speed prev total_time wps k)
      /\ s_time prev_sample = snd (leg_start proj speed prev total_time wps k).
Proof.
  induction k as [| k IH]; intros wps idx prev total_time pre p wp Hnth Hp Ht.
  - destruct wps as [| w wps]; [discriminate |].
    injection Hnth as ->.
    cbn [enumerate auto_samples leg_start fst snd].
    exists pre, p; eexists; split; [| split; assumption].
    replace (idx + Z.of_nat 0)%Z with idx by lia.
    rewrite <- ?app_assoc; reflexivity.
  - destruct wps as [| w wps]; [discriminate |].
    cbn [nth_error] in Hnth.
    cbn [enumerate auto_samples leg_start].
    destruct (leg_samples_shape prev total_time idx w) as [interps [El _]].
    rewrite El.
    match type of El with
    | _ = _ ++ [?W0] =>
        destruct (IH wps (idx + 1)%Z (waypoint_position proj w)
                    (total_time
                     + distance_3d prev (waypoint_position proj w) / speed)
                    (pre ++ [p] ++ interps) W0 wp Hnth)
          as [before [ps [after [E [Hps Hts]]]]]
    end.
    + unfold position; cbn [s_x s_y s_z].
      destruct (waypoint_position proj w) as [[? ?] ?]; reflexivity.
    + reflexivity.
    + exists before, ps, after; split; [| split; assumption].
      replace (idx + Z.of_nat (S k))%Z with (idx + 1 + Z.of_nat k)%Z by lia.
      rewrite <- E, <- ?app_assoc; reflexivity.
Qed.

End AutoPhase.

(** C3, as amended.  For a coherent coordinate system and the waypoint
    [wp] at position [k + 1] of the waypoint list, the trajectory holds,
    right after the point at which the leg to [wp] starts: when the length
    [d] of the leg exceeds 10 m, exactly [max (2, floor (d / 10)) - 1]
    interpolated points, the [j]-th of them at the fraction
    [(j + 1) / max (2, floor (d / 10))] of the leg in time and in position
    and tagged AUTO, and no interpolated point otherwise; then the point of
    the waypoint itself, at the end of the leg, tagged AUTO, with
    waypoint index [(k + 1) + 1]. *)
Theorem auto_phase_samples (self : EarthCoordinateSystem.state)
  (takeoff_config : TakeoffConfig) (home_wp : Waypoint)
  (rest : list Waypoint) (drone_id : string) (k : nat) (wp : Waypoint) :
  coherent self ->
  nth_error rest k = Some wp ->
  let proj := project self in
  let home := proj (wp_lat home_wp) (wp_lon home_wp) in
  let start :=
    leg_start proj DEFAULT_CRUISE_SPEED
      (fst home, snd home, takeoff_altitude takeoff_config)
      (2 + 5 + hover_time takeoff_config) rest k in
  let prev := fst start in
  let total_time := snd start in
  let tgt := waypoint_position proj wp in
  let d := distance_3d prev tgt in
  let flight_time := d / DEFAULT_CRUISE_SPEED in
  let n := Z.max 2 (Zfloor (d / 10)) in
  exists traj before prev_sample interps after,
    value (AdvancedDroneSimulator._calculate_realistic_trajectory
             takeoff_config (home_wp :: rest) drone_id self) = Ok traj
    /\ traj = before ++ [prev_sample] ++ interps
              ++ [mkSample (fst (fst tgt)) (snd (fst tgt)) (snd tgt)
                           (total_time + flight_time) (Some AUTO)
                           (Some (wp_lat wp)) (Some (wp_lon wp))
                           (Some (wp_alt wp))
                           (Some (Z.of_nat (S k) + 1)%Z)]
              ++ after
    /\ position prev_sample = prev
    /\ s_time prev_sample = total_time
    /\ (10 < d ->
        List.length interps = Z.to_nat (n - 1)
        /\ forall j, (j < List.length interps)%nat ->
             exists s,
               nth_error interps j = Some s
               /\ s_phase s = Some AUTO
               /\ s_time s
                  = total_time + flight_time * (IZR (Z.of_nat j + 1) / IZR n)
               /\ position s = lerp3 prev tgt (IZR (Z.of_nat j + 1) / IZR n))
    /\ (d <= 10 -> interps = []).
Proof.
  intros Hc Hnth proj home start prev total_time tgt d flight_time n.
  destruct rest as [| wp1 wps]; [destruct k; discriminate |].
  rewrite (calculate_realistic_trajectory_run _ _ _ _ _ _ Hc).
  fold proj; fold home.
  destruct home as [home_x home_y] eqn:Eh; cbn [fst snd] in start.
  unfold ground_samples.
  set (taxi := mkSample home_x home_y 0 0 _ _ _ _ _).
  set (hover := mkSample home_x home_y _ _ (Some HOVER) _ _ _ _).
  set (climb := map _ _).
  destruct (auto_samples_leg proj DEFAULT_CRUISE_SPEED k (wp1 :: wps) 2
              (home_x, home_y, takeoff_altitude takeoff_config)
              (2 + 5 + hover_time takeoff_config)
              ([taxi] ++ climb) hover wp Hnth eq_refl eq_refl)
    as [before [ps [after [E [Hps Hts]]]]].
  fold start in E, Hps, Hts; fold prev in E, Hps; fold total_time in E, Hts.
  destruct (leg_samples_shape proj DEFAULT_CRUISE_SPEED prev total_time
              (2 + Z.of_nat k) wp) as [interps [El [Hfar Hnear]]].
  fold tgt in El, Hfar, Hnear; fold d in El, Hfar, Hnear.
  fold flight_time in El, Hfar; fold n in Hfar.
  rewrite El in E.
  eexists; exists before, ps, interps, after.
  split; [reflexivity |].
  split.
  - replace (Z.of_nat (S k) + 1)%Z with (2 + Z.of_nat k)%Z by lia.
    rewrite <- ?app_assoc in E; rewrite <- ?app_assoc.
    exact E.
  - repeat split; try assumption; apply Hfar; assumption.
Qed.

Lemma auto_phase_samples_witness :
  let self := state_after (EarthCoordinateSystem.set_origin 24 121
                             EarthCoordinateSystem.__init__) in
  let home_wp := mkWaypoint 24 121 0 179 in
  let wp := mkWaypoint (24 + 1 / 1000) 121 15 16 in
  exists traj before prev_sample interps after w,
    value (AdvancedDroneSimulator._calculate_realistic_trajectory
             TakeoffConfig_default [home_wp; wp] "Drone_1" self) = Ok traj
    /\ traj = before ++ [prev_sample] ++ interps ++ [w] ++ after
    /\ s_time prev_sample = 2 + 5 + 2
    /\ s_waypoint_index w = Some 2%Z.
Proof.
  intros self home_wp wp.
  destruct (auto_phase_samples self TakeoffConfig_default home_wp [wp]
              "Drone_1" 0 wp (coherent_set_origin 24 121 _) eq_refl)
    as [traj [before [ps [interps [after [Hv [Ht [_ [Hs _]]]]]]]]].
  exists traj, before, ps, interps, after; eexists.
  split; [exact Hv | split; [exact Ht | split; [exact Hs | reflexivity]]].
Defined.

(** C3, counterexample to the claim as stated.  Origin at (0, 0), default
    takeoff configuration, home waypoint at the origin and one waypoint
    30 m above the hover point.  After the 22 taxi, takeoff and hover points
    the synthesizer appends two interpolated points, not
    max (2, floor (30 / 10)) = 3; both carry a waypoint index; and the
    point of the waypoint, which is at position 1 of the list, has
    waypoint index 2. *)
Lemma auto_phase_claim_counterexample :
  let self := state_after (EarthCoordinateSystem.set_origin 0 0
                             EarthCoordinateSystem.__init__) in
  let home_wp := mkWaypoint 0 0 0 179 in
  let wp := mkWaypoint 0 0 40 16 in
  let waypoints := [home_wp; wp] in
  let d := distance_3d (0, 0, takeoff_altitude TakeoffConfig_default)
                       (0, 0, wp_alt wp) in
  exists traj ground i1 i2 w,
    value (AdvancedDroneSimulator._calculate_realistic_trajectory
             TakeoffConfig_default waypoints "Drone_1" self) = Ok traj
    /\ traj = ground ++ [i1; i2; w]
    /\ List.length ground = 22%nat
    /\ 10 < d
    /\ position i1 = (0, 0, 20) /\ position i2 = (0, 0, 30)
    /\ position w = (0, 0, 40)
    /\ nth_error waypoints 1 = Some wp
    /\ List.length [i1; i2] <> Z.to_nat (Z.max 2 (Zfloor (d / 10)))
    /\ s_waypoint_index i1 <> None
    /\ s_waypoint_index i2 <> None
    /\ s_waypoint_index w <> Some 1%Z.
Proof.
  intros self home_wp wp waypoints d.
  assert (Hd : d = 30).
  { unfold d.
    cbn [distance_3d takeoff_altitude TakeoffConfig_default wp_alt wp].
    replace ((0 - 0) ^ 2 + (0 - 0) ^ 2 + (40 - 10) ^ 2) with (30 * 30) by ring.
    apply sqrt_square; lra. }
  unfold waypoints.
  rewrite (calculate_realistic_trajectory_run self TakeoffConfig_default
             home_wp wp [] "Drone_1" (coherent_set_origin 0 0 _)).
  assert (Ep : forall w0, wp_lat w0 = 0 -> wp_lon w0 = 0 ->
                          project self (wp_lat w0) (wp_lon w0) = (0, 0)).
  { intros w0 -> ->; unfold project, self; rewrite set_origin_state.
    cbn [EarthCoordinateSystem.origin_lat EarthCoordinateSystem.origin_lon
         EarthCoordinateSystem._meters_per_degree_lon].
    f_equal; ring. }
  rewrite (Ep home_wp eq_refl eq_refl).
  cbn [enumerate auto_samples].
  unfold leg_samples, waypoint_position.
  rewrite (Ep wp eq_refl eq_refl).
  fold d; rewrite Hd.
  assert (E10 : Rltb 10 30 = true) by (apply Rltb_true; lra).
  rewrite E10.
  replace (30 / 10) with (IZR 3) by field.
  rewrite py_int_floor, ZfloorZ by lra.
  change (py_range 1 (Z.max 2 3)) with [1%Z; 2%Z].
  cbn [map app].
  eexists; eexists; eexists; eexists; eexists.
  split; [reflexivity |].
  split; [reflexivity |].
  split; [reflexivity |].
  split; [lra |].
  unfold AdvancedDroneSimulator.interpolated_sample, position.
  cbn [s_x s_y s_z s_waypoint_index wp_alt wp takeoff_altitude
       TakeoffConfig_default List.length Z.max].
  change (Z.max 2 3) with 3%Z.
  repeat split; try discriminate.
  - f_equal; [f_equal |]; field.
  - f_equal; [f_equal |]; field.
Qed.

(* ================================================================== *)
(** * Dictionaries, the order of identifiers and the pair loops *)
(* ================================================================== *)

Section Pairs.

Lemma str_lt_compare (a b : string) : str_lt a b <-> String.compare a b = Lt.
Proof.
  unfold str_lt, String.ltb; destruct (String.compare a b); split; intros;
    try easy.
Qed.

Lemma str_lt_irrefl (a : string) : ~ str_lt a a.
Proof.
  rewrite str_lt_compare, String_as_OT.cmp_lt.
  intros H; apply String_as_OT.lt_not_eq in H; apply H; reflexivity.
Qed.

Lemma str_lt_trans (a b c : string) : str_lt a b -> str_lt b c -> str_lt a c.
Proof.
  rewrite !str_lt_compare, !String_as_OT.cmp_lt; apply String_as_OT.lt_trans.
Qed.

Lemma str_lt_total (a b : string) : a <> b -> str_lt a b \/ str_lt b a.
Proof.
  intros Hne; rewrite !str_lt_compare.
  destruct (String.compare a b) eqn:E.
  - apply String.compare_eq_iff in E; contradiction.
  - left; reflexivity.
  - right; rewrite String.compare_antisym, E; reflexivity.
Qed.

Lemma leb_false_lt (a b : string) : String.leb a b = false -> str_lt b a.
Proof.
  unfold String.leb; intros H; apply str_lt_compare.
  rewrite String.compare_antisym; destruct (String.compare a b);
    try discriminate; reflexivity.
Qed.

Lemma leb_true_lt (a b : string) :
  String.leb a b = true -> a <> b -> str_lt a b.
Proof.
  unfold String.leb; intros H Hne; apply str_lt_compare.
  destruct (String.compare a b) eqn:E; try discriminate; [| reflexivity].
  apply String.compare_eq_iff in E; contradiction.
Qed.

Lemma insert_sorted_In (a x : string) (l : list string) :
  In x (insert_sorted a l) <-> x = a \/ In x l.
Proof.
  induction l as [| b l IH]; cbn [insert_sorted].
  - cbn; intuition.
  - destruct (String.leb a b); cbn [In] in *; [intuition |].
    rewrite IH; intuition.
Qed.

Lemma insert_sorted_sorted (a : string) (l : list string) :
  ~ In a l -> StronglySorted str_lt l ->
  StronglySorted str_lt (insert_sorted a l).
Proof.
  intros Hnin Hs; induction Hs as [| b l Hs IH Hall]; cbn [insert_sorted].
  - constructor; constructor.
  - assert (Hab : a <> b) by (intros ->; apply Hnin; left; reflexivity).
    destruct (String.leb a b) eqn:E.
    + apply leb_true_lt in E; [| exact Hab].
      constructor; [constructor; assumption |].
      constructor; [exact E |].
      eapply Forall_impl; [| exact Hall].
      intros c Hc; eapply str_lt_trans; eassumption.
    + apply leb_false_lt in E.
      constructor; [apply IH; intros H; apply Hnin; right; exact H |].
      apply Forall_forall; intros x Hx.
      apply insert_sorted_In in Hx; destruct Hx as [-> | Hx]; [exact E |].
      rewrite Forall_forall in Hall; apply Hall; exact Hx.
Qed.

Lemma sorted_In (x : string) (l : list string) : In x (sorted l) <-> In x l.
Proof.
  induction l as [| a l IH]; cbn [sorted fold_right]; [reflexivity |].
  fold (sorted l); rewrite insert_sorted_In, IH; cbn; intuition.
Qed.

Lemma sorted_sorted (l : list string) :
  NoDup l -> StronglySorted str_lt (sorted l).
Proof.
  induction 1 as [| a l Hnin Hnd IH]; cbn [sorted fold_right].
  - constructor.
  - fold (sorted l); apply insert_sorted_sorted; [| exact IH].
    rewrite sorted_In; exact Hnin.
Qed.

(** A strictly sorted list is determined by its elements. *)
Lemma strictly_sorted_unique (l1 : list string) :
  forall l2,
    StronglySorted str_lt l1 -> StronglySorted str_lt l2 ->
    (forall x, In x l1 <-> In x l2) -> l1 = l2.
Proof.
  induction l1 as [| a l1 IH]; intros [| b l2] H1 H2 Hin.
  - reflexivity.
  - exfalso; apply (proj2 (Hin b)); left; reflexivity.
  - exfalso; apply (proj1 (Hin a)); left; reflexivity.
  - inversion H1 as [| ? ? Hs1 Ha]; inversion H2 as [| ? ? Hs2 Hb]; subst.
    rewrite Forall_forall in Ha, Hb.
    assert (Eab : a = b).
    { destruct (proj1 (Hin a) (or_introl eq_refl)) as [E | Hal2]; [auto |].
      destruct (proj2 (Hin b) (or_introl eq_refl)) as [E | Hbl1]; [auto |].
      exfalso; apply (str_lt_irrefl a).
      eapply str_lt_trans; [apply Ha; exact Hbl1 | apply Hb; exact Hal2]. }
    subst b; f_equal; apply IH; [assumption | assumption |].
    intros x; split; intros Hx.
    + destruct (proj1 (Hin x) (or_intror Hx)) as [E | H]; [| exact H].
      subst x; exfalso; apply (str_lt_irrefl a), Ha, Hx.
    + destruct (proj2 (Hin x) (or_intror Hx)) as [E | H]; [| exact H].
      subst x; exfalso; apply (str_lt_irrefl a), Hb, Hx.
Qed.

Lemma sorted_Permutation (l l' : list string) :
  NoDup l -> Permutation l l' -> sorted l = sorted l'.
Proof.
  intros Hnd Hp; apply strictly_sorted_unique.
  - apply sorted_sorted; exact Hnd.
  - apply sorted_sorted; eapply Permutation_NoDup; eassumption.
  - intros x; rewrite !sorted_In; split; intros H.
    + eapply Permutation_in; eassumption.
    + eapply Permutation_in; [apply Permutation_sym |]; eassumption.
Qed.

(** [index_pairs l] holds the pairs [(l[i], l[j])] with [i < j]. *)
Lemma index_pairs_nth {A : Type} (l : list A) (a b : A) :
  In (a, b) (index_pairs l)
  <-> exists i j, (i < j)%nat /\ nth_error l i = Some a
                  /\ nth_error l j = Some b.
Proof.
  induction l as [| h t IH]; cbn [index_pairs].
  - split; [contradiction | intros [[| i] [j [_ [H _]]]]; discriminate].
  - rewrite in_app_iff, in_map_iff, IH; split.
    + intros [[x [E Hx]] | [i [j [Hij [Hi Hj]]]]].
      * injection E as <- <-.
        apply In_nth_error in Hx; destruct Hx as [j Hj].
        exists 0%nat, (S j); repeat split; [lia | exact Hj].
      * exists (S i), (S j); repeat split; [lia | exact Hi | exact Hj].
    + intros [i [j [Hij [Hi Hj]]]].
      destruct j as [| j]; [lia |]; cbn [nth_error] in Hj.
      destruct i as [| i]; cbn [nth_error] in Hi.
      * injection Hi as <-; left; exists b; split; [reflexivity |].
        eapply nth_error_In; exact Hj.
      * right; exists i, j; repeat split; [lia | exact Hi | exact Hj].
Qed.

(** The pair loops over a strictly sorted list visit exactly the pairs
    of its elements with the smaller one first. *)
Lemma index_pairs_sorted (l : list string) (a b : string) :
  StronglySorted str_lt l ->
  In (a, b) (index_pairs l) <-> In a l /\ In b l /\ str_lt a b.
Proof.
  induction 1 as [| h t Hs IH Hall]; cbn [index_pairs].
  - cbn; intuition.
  - rewrite Forall_forall in Hall.
    rewrite in_app_iff, in_map_iff, IH; cbn [In]; split.
    + intros [[x [E Hx]] | [Ha [Hb Hab]]].
      * injection E as <- <-; auto.
      * auto.
    + intros [[-> | Ha] [[-> | Hb] Hab]].
      * exfalso; eapply str_lt_irrefl; exact Hab.
      * left; exists b; auto.
      * exfalso; apply (str_lt_irrefl a).
        eapply str_lt_trans; [exact Hab | apply Hall; exact Ha].
      * right; auto.
Qed.

Lemma dict_get_In {V : Type} (d : Dict V) (k : string) (v : V) :
  NoDup (dict_keys d) -> (dict_get d k = Some v <-> In (k, v) d).
Proof.
  induction d as [| [k' v'] d IH]; cbn [dict_keys map fst dict_get In];
    intros Hnd.
  - split; [discriminate | contradiction].
  - inversion Hnd as [| ? ? Hnin Hnd']; subst.
    destruct (String.eqb_spec k' k) as [-> | Hne].
    + split.
      * intros [= ->]; left; reflexivity.
      * intros [[= ->] | Hin]; [reflexivity |].
        exfalso; apply Hnin; unfold dict_keys.
        apply in_map_iff; exists (k, v); auto.
    + rewrite (IH Hnd'); split; [auto |].
      intros [[= -> ->] | Hin]; [contradiction | exact Hin].
Qed.

Lemma dict_get_keys {V : Type} (d : Dict V) (k : string) :
  In k (dict_keys d) <-> exists v, dict_get d k = Some v.
Proof.
  induction d as [| [k' v'] d IH]; cbn [dict_keys map fst dict_get In].
  - split; [contradiction | intros [v H]; discriminate].
  - destruct (String.eqb_spec k' k) as [-> | Hne].
    + split; [intros _; eexists; reflexivity | auto].
    + fold (dict_keys d); rewrite <- IH; intuition.
Qed.

Lemma dict_get_Permutation {V : Type} (d d' : Dict V) (k : string) :
  NoDup (dict_keys d) -> Permutation d d' -> dict_get d k = dict_get d' k.
Proof.
  intros Hnd Hp.
  assert (Hnd' : NoDup (dict_keys d')).
  { eapply Permutation_NoDup; [apply Permutation_map; exact Hp | exact Hnd]. }
  destruct (dict_get d k) as [v |] eqn:E.
  - symmetry; apply (dict_get_In d' k v Hnd').
    eapply Permutation_in; [exact Hp |]; apply (dict_get_In d k v Hnd); exact E.
  - destruct (dict_get d' k) as [v' |] eqn:E'; [| reflexivity].
    apply (dict_get_In d' k v' Hnd') in E'.
    apply (Permutation_in _ (Permutation_sym Hp)) in E'.
    apply (dict_get_In d k v' Hnd) in E'; congruence.
Qed.

Lemma result_concat_map_ext {A B : Type} (f g : A -> Result (list B))
  (l : list A) :
  (forall a, In a l -> f a = g a) ->
  result_concat_map f l = result_concat_map g l.
Proof.
  induction l as [| a l IH]; intros H; cbn [result_concat_map];
    [reflexivity |].
  rewrite (H a (or_introl eq_refl)), IH; [reflexivity |].
  intros x Hx; apply H; right; exact Hx.
Qed.

Lemma result_concat_map_total {A B : Type} (f : A -> Result (list B))
  (l : list A) :
  (forall a, In a l -> exists bs, f a = Ok bs) ->
  exists r,
    result_concat_map f l = Ok r
    /\ forall b, In b r <-> exists a bs, In a l /\ f a = Ok bs /\ In b bs.
Proof.
  induction l as [| a l IH]; intros H; cbn [result_concat_map].
  - exists []; split; [reflexivity |].
    intros b; split; [contradiction | intros [a [bs [[] _]]]].
  - destruct (H a (or_introl eq_refl)) as [bs Ea].
    destruct IH as [r [Er Hr]]; [intros x Hx; apply H; right; exact Hx |].
    rewrite Ea, Er; cbn [result_bind].
    exists (bs ++ r); split; [reflexivity |].
    intros b; rewrite in_app_iff, Hr; split.
    + intros [Hb | [a' [bs' [Ha' [Ef Hb]]]]].
      * exists a, bs; cbn; auto.
      * exists a', bs'; cbn; auto.
    + intros [a' [bs' [[<- | Ha'] [Ef Hb]]]].
      * left; congruence.
      * right; exists a', bs'; auto.
Qed.

Lemma result_map_total {A B : Type} (f : A -> Result B) (l : list A) :
  (forall a, In a l -> exists b, f a = Ok b) ->
  exists r,
    result_map f l = Ok r
    /\ forall b, In b r <-> exists a, In a l /\ f a = Ok b.
Proof.
  induction l as [| a l IH]; intros H; cbn [result_map].
  - exists []; split; [reflexivity |].
    intros b; split; [contradiction | intros [a [[] _]]].
  - destruct (H a (or_introl eq_refl)) as [b0 Ea].
    destruct IH as [r [Er Hr]]; [intros x Hx; apply H; right; exact Hx |].
    rewrite Ea, Er; cbn [result_bind].
    exists (b0 :: r); split; [reflexivity |].
    intros b; cbn [In]; rewrite Hr; split.
    + intros [<- | [a' [Ha' Ef]]].
      * exists a; auto.
      * exists a'; auto.
    + intros [a' [[<- | Ha'] Ef]].
      * left; congruence.
      * right; exists a'; auto.
Qed.

End Pairs.
(* ================================================================== *)
(** * Offline analysis and real-time check *)
(* ================================================================== *)

Section Analysis.

Import CollisionAvoidanceSystem.

Variable config : SafetyConfig.

Lemma is_empty_false {A : Type} (l : list A) : is_empty l = false <-> l <> [].
Proof. destruct l; cbn; split; intros; congruence. Qed.

Lemma last_item_nonempty {A : Type} (l : list A) (a : A) :
  last_item l = Ok a -> l <> [].
Proof. intros H ->; discriminate. Qed.

Lemma last_item_total {A : Type} (l : list A) :
  l <> [] -> exists a, last_item l = Ok a.
Proof.
  destruct l as [| d l']; [congruence |]; intros H.
  exists (last (d :: l') d); apply last_item_ok; exact H.
Qed.

Lemma conflicts_at_In (drone1 : string) (traj1 : list Sample)
  (drone2 : string) (traj2 : list Sample) (t : R) (c : Conflict) :
  In c (conflicts_at config drone1 traj1 drone2 traj2 t)
  <-> exists pos1 pos2,
        _interpolate_position traj1 t = Some pos1
        /\ _interpolate_position traj2 t = Some pos2
        /\ _calculate_distance_3d pos1 pos2 < safety_distance config
        /\ c = conflict_record config drone1 traj1 drone2 traj2 t pos1 pos2.
Proof.
  unfold conflicts_at, conflict_record.
  destruct (_interpolate_position traj1 t) as [pos1 |];
    [| split; [contradiction | intros [? [? [? _]]]; discriminate]].
  destruct (_interpolate_position traj2 t) as [pos2 |];
    [| split; [contradiction | intros [? [? [_ [? _]]]]; discriminate]].
  destruct (Rltb _ (safety_distance config)) eqn:E.
  - apply Rltb_true in E; cbn [In]; split.
    + intros [<- | []]; exists pos1, pos2; auto.
    + intros [p1 [p2 [[= <-] [[= <-] [_ ->]]]]]; left; reflexivity.
  - apply Rltb_false in E; cbn [In]; split; [contradiction |].
    intros [p1 [p2 [[= <-] [[= <-] [H _]]]]]; lra.
Qed.

Lemma find_trajectory_conflicts_run (drone1 : string) (traj1 : list Sample)
  (drone2 : string) (traj2 : list Sample) (last1 last2 : Sample) :
  last_item traj1 = Ok last1 -> last_item traj2 = Ok last2 ->
  _find_trajectory_conflicts config drone1 traj1 drone2 traj2
  = Ok (flat_map (conflicts_at config drone1 traj1 drone2 traj2)
          (np_arange 0 (Rmax (s_time last1) (s_time last2)) (5 / 10))).
Proof.
  intros E1 E2; unfold _find_trajectory_conflicts; rewrite E1, E2; reflexivity.
Qed.

Lemma precise_wait_time_total (traj1 traj2 : list Sample) (c : Conflict) :
  traj1 <> [] ->
  exists w, _calculate_precise_wait_time config traj1 traj2 c = Ok w.
Proof.
  intros H; destruct (last_item_total traj1 H) as [last1 E].
  unfold _calculate_precise_wait_time; rewrite E; cbn [result_bind].
  destruct (escape_scan _ _ _ _ _ _); eexists; reflexivity.
Qed.

(** What the body of the pair loop yields for two drones of the
    dictionary. *)
Lemma analyze_pair_In (drones_data : Dict DroneData) (a b : string)
  (data_a data_b : DroneData) :
  dict_get drones_data a = Some data_a ->
  dict_get drones_data b = Some data_b ->
  exists cs,
    analyze_pair config drones_data (a, b) = Ok cs
    /\ forall c,
         In c cs <->
         exists last_a last_b t pos_a pos_b w,
           last_item (trajectory data_a) = Ok last_a
           /\ last_item (trajectory data_b) = Ok last_b
           /\ In t (np_arange 0 (Rmax (s_time last_a) (s_time last_b)) (5 / 10))
           /\ _interpolate_position (trajectory data_a) t = Some pos_a
           /\ _interpolate_position (trajectory data_b) t = Some pos_b
           /\ _calculate_distance_3d pos_a pos_b < safety_distance config
           /\ _calculate_precise_wait_time config (trajectory data_a)
                (trajectory data_b)
                (conflict_record config a (trajectory data_a)
                                 b (trajectory data_b) t pos_a pos_b) = Ok w
           /\ c = assign_remedy
                    (conflict_record config a (trajectory data_a)
                                     b (trajectory data_b) t pos_a pos_b)
                    w a b.
Proof.
  intros Ea Eb; unfold analyze_pair, dict_getitem.
  rewrite Ea, Eb; cbn [result_bind].
  destruct (is_empty (trajectory data_a) || is_empty (trajectory data_b))
    eqn:Ee.
  - exists []; split; [reflexivity |].
    intros c; split; [contradiction |].
    intros [la [lb [t [pa [pb [w [Hla [Hlb _]]]]]]]].
    apply last_item_nonempty in Hla, Hlb.
    apply orb_true_iff in Ee; destruct Ee as [Ee | Ee];
      [destruct (trajectory data_a) | destruct (trajectory data_b)];
      try discriminate; congruence.
  - apply orb_false_iff in Ee; destruct Ee as [Ne_a Ne_b].
    apply is_empty_false in Ne_a, Ne_b.
    destruct (last_item_total _ Ne_a) as [last_a Hla].
    destruct (last_item_total _ Ne_b) as [last_b Hlb].
    rewrite (find_trajectory_conflicts_run _ _ _ _ _ _ Hla Hlb).
    cbn [result_bind].
    match goal with
    | |- context [result_map ?f ?l] =>
        destruct (result_map_total f l) as [r [Er Hr]]
    end.
    { intros c0 _.
      destruct (precise_wait_time_total (trajectory data_a)
                  (trajectory data_b) c0 Ne_a) as [w Ew].
      rewrite Ew; eexists; reflexivity. }
    exists r; split; [exact Er |].
    intros c; rewrite Hr; split.
    + intros [c0 [Hin Ec]].
      apply in_flat_map in Hin; destruct Hin as [t [Ht Hc0]].
      apply conflicts_at_In in Hc0.
      destruct Hc0 as [pa [pb [Ha [Hb [Hd ->]]]]].
      destruct (_calculate_precise_wait_time _ _ _ _) as [w |] eqn:Ew;
        [| discriminate].
      cbn [result_bind] in Ec; injection Ec as <-.
      exists last_a, last_b, t, pa, pb, w; repeat split; assumption.
    + intros [la [lb [t [pa [pb [w
               [Hla' [Hlb' [Ht [Ha [Hb [Hd [Ew ->]]]]]]]]]]]]].
      assert (la = last_a) by congruence; assert (lb = last_b) by congruence.
      subst la lb.
      eexists; split.
      * apply in_flat_map; exists t; split; [exact Ht |].
        apply conflicts_at_In; exists pa, pb; repeat split; assumption.
      * rewrite Ew; reflexivity.
Qed.

Lemma index_pairs_keys {V : Type} (d : Dict V) (a b : string) :
  NoDup (dict_keys d) ->
  In (a, b) (index_pairs (sorted (dict_keys d)))
  <-> In a (dict_keys d) /\ In b (dict_keys d) /\ str_lt a b.
Proof.
  intros Hnd; rewrite index_pairs_sorted by (apply sorted_sorted; exact Hnd).
  rewrite !sorted_In; reflexivity.
Qed.

(** The conflicts of the offline analysis. *)
Lemma analyze_trajectory_conflicts_In (drones_data : Dict DroneData) :
  NoDup (dict_keys drones_data) ->
  exists conflicts,
    analyze_trajectory_conflicts config drones_data = Ok conflicts
    /\ forall c,
         In c conflicts <->
         exists a b data_a data_b last_a last_b t pos_a pos_b w,
           dict_get drones_data a = Some data_a
           /\ dict_get drones_data b = Some data_b
           /\ str_lt a b
           /\ last_item (trajectory data_a) = Ok last_a
           /\ last_item (trajectory data_b) = Ok last_b
           /\ In t (np_arange 0 (Rmax (s_time last_a) (s_time last_b)) (5 / 10))
           /\ _interpolate_position (trajectory data_a) t = Some pos_a
           /\ _interpolate_position (trajectory data_b) t = Some pos_b
           /\ _calculate_distance_3d pos_a pos_b < safety_distance config
           /\ _calculate_precise_wait_time config (trajectory data_a)
                (trajectory data_b)
                (conflict_record config a (trajectory data_a)
                                 b (trajectory data_b) t pos_a pos_b) = Ok w
           /\ c = assign_remedy
                    (conflict_record config a (trajectory data_a)
                                     b (trajectory data_b) t pos_a pos_b)
                    w a b.
Proof.
  intros Hnd; unfold analyze_trajectory_conflicts.
  match goal with
  | |- context [result_concat_map ?f ?l] =>
      destruct (result_concat_map_total f l) as [r [Er Hr]]
  end.
  { intros [a b] Hin; apply (index_pairs_keys drones_data a b Hnd) in Hin.
    destruct Hin as [Ha [Hb _]].
    apply dict_get_keys in Ha, Hb; destruct Ha as [da Ea], Hb as [db Eb].
    destruct (analyze_pair_In drones_data a b da db Ea Eb) as [cs [E _]].
    exists cs; exact E. }
  exists r; split; [exact Er |].
  intros c; rewrite Hr; split.
  - intros [[a b] [cs [Hin [Ep Hc]]]].
    apply (index_pairs_keys drones_data a b Hnd) in Hin.
    destruct Hin as [Ha [Hb Hab]].
    apply dict_get_keys in Ha, Hb; destruct Ha as [da Ea], Hb as [db Eb].
    destruct (analyze_pair_In drones_data a b da db Ea Eb) as [cs' [E Hcs]].
    assert (cs' = cs) by congruence; subst cs'.
    apply Hcs in Hc.
    destruct Hc as [la [lb [t [pa [pb [w H]]]]]].
    exists a, b, da, db, la, lb, t, pa, pb, w; tauto.
  - intros [a [b [da [db [la [lb [t [pa [pb [w [Ea [Eb [Hab H]]]]]]]]]]]]].
    destruct (analyze_pair_In drones_data a b da db Ea Eb) as [cs [E Hcs]].
    exists (a, b), cs; split; [| split; [exact E |]].
    + apply (index_pairs_keys drones_data a b Hnd); repeat split.
      * apply dict_get_keys; eexists; exact Ea.
      * apply dict_get_keys; eexists; exact Eb.
      * exact Hab.
    + apply Hcs; exists la, lb, t, pa, pb, w; exact H.
Qed.

(** The warnings of the real-time check. *)
Lemma check_collisions_In (positions : Dict (option Sample))
  (current_time : R) :
  NoDup (dict_keys positions) ->
  exists warnings,
    check_collisions config positions current_time = Ok (warnings, [])
    /\ forall w,
         In w warnings <->
         exists a b pos_a pos_b,
           dict_get positions a = Some (Some pos_a)
           /\ dict_get positions b = Some (Some pos_b)
           /\ str_lt a b
           /\ _calculate_distance_3d pos_a pos_b < safety_distance config
           /\ w = warning_record config a b current_time pos_a pos_b.
Proof.
  intros Hnd; unfold check_collisions.
  assert (Hpair : forall a b oa ob,
            dict_get positions a = Some oa -> dict_get positions b = Some ob ->
            exists ws,
              check_pair config positions current_time (a, b) = Ok ws
              /\ forall w,
                   In w ws <->
                   exists pos_a pos_b,
                     oa = Some pos_a /\ ob = Some pos_b
                     /\ _calculate_distance_3d pos_a pos_b
                        < safety_distance config
                     /\ w = warning_record config a b current_time pos_a pos_b).
  { intros a b oa ob Ea Eb; unfold check_pair, dict_getitem.
    rewrite Ea, Eb; cbn [result_bind].
    destruct oa as [pa |], ob as [pb |];
      try (exists []; split; [reflexivity |];
           intros w; split; [contradiction |];
           intros [? [? [? [? _]]]]; discriminate).
    destruct (Rltb _ (safety_distance config)) eqn:E.
    - apply Rltb_true in E; eexists; split; [reflexivity |].
      intros w; cbn [In]; split.
      + intros [<- | []]; exists pa, pb; auto.
      + intros [p1 [p2 [[= <-] [[= <-] [_ ->]]]]]; left; reflexivity.
    - apply Rltb_false in E; exists []; split; [reflexivity |].
      intros w; split; [contradiction |].
      intros [p1 [p2 [[= <-] [[= <-] [H _]]]]]; lra. }
  match goal with
  | |- context [result_concat_map ?f ?l] =>
      destruct (result_concat_map_total f l) as [r [Er Hr]]
  end.
  { intros [a b] Hin; apply (index_pairs_keys positions a b Hnd) in Hin.
    destruct Hin as [Ha [Hb _]].
    apply dict_get_keys in Ha, Hb; destruct Ha as [oa Ea], Hb as [ob Eb].
    destruct (Hpair a b oa ob Ea Eb) as [ws [E _]]; exists ws; exact E. }
  rewrite Er; cbn [result_bind].
  exists r; split; [reflexivity |].
  intros w; rewrite Hr; split.
  - intros [[a b] [ws [Hin [Ep Hw]]]].
    apply (index_pairs_keys positions a b Hnd) in Hin.
    destruct Hin as [Ha [Hb Hab]].
    apply dict_get_keys in Ha, Hb; destruct Ha as [oa Ea], Hb as [ob Eb].
    destruct (Hpair a b oa ob Ea Eb) as [ws' [E Hws]].
    assert (ws' = ws) by congruence; subst ws'.
    apply Hws in Hw; destruct Hw as [pa [pb [-> [-> [Hd ->]]]]].
    exists a, b, pa, pb; auto.
  - intros [a [b [pa [pb [Ea [Eb [Hab [Hd ->]]]]]]]].
    destruct (Hpair a b _ _ Ea Eb) as [ws [E Hws]].
    exists (a, b), ws; split; [| split; [exact E |]].
    + apply (index_pairs_keys positions a b Hnd); repeat split.
      * apply dict_get_keys; eexists; exact Ea.
      * apply dict_get_keys; eexists; exact Eb.
      * exact Hab.
    + apply Hws; exists pa, pb; auto.
Qed.

End Analysis.

(** C2.  With unique identifiers, both checks return normally, and for
    every pair of agents [a], [b] with [a] the smaller identifier:

    - offline, at every instant [t] of the 0.5 s sampling of
      [0, max of the two last times) with interpolated positions [pos_a]
      and [pos_b] at distance [d]: a conflict of [a] and [b] at [t] is
      emitted iff [d < safety_distance]; an emitted one records [d], with
      severity critical iff [d < critical_distance] and warning
      otherwise;
    - in real time, for the current positions [pos_a] and [pos_b] at
      distance [d]: a warning of [a] and [b] is emitted iff
      [d < safety_distance]; an emitted one records [d], with severity
      critical iff [d < critical_distance] and warning otherwise. *)
Theorem conflict_emission_and_severity (config : SafetyConfig)
  (drones_data : Dict DroneData) (positions : Dict (option Sample))
  (current_time : R) :
  NoDup (dict_keys drones_data) ->
  NoDup (dict_keys positions) ->
  (exists conflicts,
      CollisionAvoidanceSystem.analyze_trajectory_conflicts config drones_data
      = Ok conflicts
      /\ forall a b data_a data_b last_a last_b t pos_a pos_b,
           dict_get drones_data a = Some data_a ->
           dict_get drones_data b = Some data_b ->
           str_lt a b ->
           last_item (trajectory data_a) = Ok last_a ->
           last_item (trajectory data_b) = Ok last_b ->
           In t (np_arange 0 (Rmax (s_time last_a) (s_time last_b)) (5 / 10)) ->
           CollisionAvoidanceSystem._interpolate_position
             (trajectory data_a) t = Some pos_a ->
           CollisionAvoidanceSystem._interpolate_position
             (trajectory data_b) t = Some pos_b ->
           let d :=
             CollisionAvoidanceSystem._calculate_distance_3d pos_a pos_b in
           ((exists c, In c conflicts /\ c_drone1 c = a /\ c_drone2 c = b
                       /\ c_time c = t)
            <-> d < safety_distance config)
           /\ (forall c,
                  In c conflicts -> c_drone1 c = a -> c_drone2 c = b ->
                  c_time c = t ->
                  c_distance c = d
                  /\ (c_severity c = critical <-> d < critical_distance config)
                  /\ (c_severity c = warning
                      <-> ~ d < critical_distance config)))
  /\ (exists warnings,
        CollisionAvoidanceSystem.check_collisions config positions current_time
        = Ok (warnings, [])
        /\ forall a b pos_a pos_b,
             dict_get positions a = Some (Some pos_a) ->
             dict_get positions b = Some (Some pos_b) ->
             str_lt a b ->
             let d :=
               CollisionAvoidanceSystem._calculate_distance_3d pos_a pos_b in
             ((exists w, In w warnings /\ w_drone1 w = a /\ w_drone2 w = b)
              <-> d < safety_distance config)
             /\ (forall w,
                    In w warnings -> w_drone1 w = a -> w_drone2 w = b ->
                    w_distance w = d
                    /\ (w_severity w = critical
                        <-> d < critical_distance config)
                    /\ (w_severity w = warning
                        <-> ~ d < critical_distance config))).
Proof.
  intros Hnd1 Hnd2.
  assert (Hsev : forall d0,
            ((if Rltb d0 (critical_distance config) then critical else warning)
             = critical <-> d0 < critical_distance config)
            /\ ((if Rltb d0 (critical_distance config) then critical
                 else warning)
                = warning <-> ~ d0 < critical_distance config)).
  { intros d0; destruct (Rltb d0 (critical_distance config)) eqn:E.
    - apply Rltb_true in E; split; split; intros; try easy; contradiction.
    - apply Rltb_false in E; split; split; intros; try easy; lra. }
  split.
  - destruct (analyze_trajectory_conflicts_In config drones_data Hnd1)
      as [conflicts [E Hin]].
    exists conflicts; split; [exact E |].
    intros a b data_a data_b last_a last_b t pos_a pos_b
           Ea Eb Hab Hla Hlb Ht Hpa Hpb d.
    assert (Hsame : forall c,
              In c conflicts -> c_drone1 c = a -> c_drone2 c = b ->
              c_time c = t ->
              d < safety_distance config
              /\ c_distance c = d
              /\ c_severity c
                 = (if Rltb d (critical_distance config)
                    then critical else warning)).
    { intros c Hc H1 H2 H3; apply Hin in Hc.
      destruct Hc as [a' [b' [da [db [la [lb [t' [pa [pb [w
                       [Ea' [Eb' [_ [_ [_ [_
                       [Hpa' [Hpb' [Hd [_ ->]]]]]]]]]]]]]]]]]]]].
      cbn in H1, H2, H3; subst a' b' t'.
      assert (da = data_a) by congruence; assert (db = data_b) by congruence.
      subst da db.
      assert (pa = pos_a) by congruence; assert (pb = pos_b) by congruence.
      subst pa pb; cbn; auto. }
    split; [split |].
    + intros [c [Hc [H1 [H2 H3]]]]; apply (Hsame c Hc H1 H2 H3).
    + intros Hd.
      destruct (precise_wait_time_total config (trajectory data_a)
                  (trajectory data_b)
                  (conflict_record config a (trajectory data_a)
                                   b (trajectory data_b) t pos_a pos_b)
                  (last_item_nonempty _ _ Hla)) as [w Ew].
      eexists; split; [| split; [| split]];
        [ apply Hin; exists a, b, data_a, data_b, last_a, last_b, t,
                            pos_a, pos_b, w;
          repeat split; try eassumption; reflexivity
        | reflexivity | reflexivity | reflexivity ].
    + intros c Hc H1 H2 H3.
      destruct (Hsame c Hc H1 H2 H3) as [_ [Hdist Hs]].
      split; [exact Hdist |]; rewrite Hs; apply Hsev.
  - destruct (check_collisions_In config positions current_time Hnd2)
      as [warnings [E Hin]].
    exists warnings; split; [exact E |].
    intros a b pos_a pos_b Ea Eb Hab d.
    assert (Hsame : forall w,
              In w warnings -> w_drone1 w = a -> w_drone2 w = b ->
              d < safety_distance config
              /\ w_distance w = d
              /\ w_severity w
                 = (if Rltb d (critical_distance config)
                    then critical else warning)).
    { intros w Hw H1 H2; apply Hin in Hw.
      destruct Hw as [a' [b' [pa [pb [Ea' [Eb' [_ [Hd ->]]]]]]]].
      cbn in H1, H2; subst a' b'.
      assert (pa = pos_a) by congruence; assert (pb = pos_b) by congruence.
      subst pa pb; cbn; auto. }
    split; [split |].
    + intros [w [Hw [H1 H2]]]; apply (Hsame w Hw H1 H2).
    + intros Hd; eexists; split; [| split];
        [ apply Hin; exists a, b, pos_a, pos_b;
          repeat split; try eassumption; reflexivity
        | reflexivity | reflexivity ].
    + intros w Hw H1 H2.
      destruct (Hsame w Hw H1 H2) as [_ [Hdist Hs]].
      split; [exact Hdist |]; rewrite Hs; apply Hsev.
Qed.

(** Scenario 2 of the specification, in real time: two drones 4 m apart
    with safety distance 5 and critical distance 3 give one warning of
    severity "warning". *)
Lemma conflict_emission_and_severity_witness :
  let pos1 := mkSample 0 0 10 12 None None None None None in
  let pos2 := mkSample 4 0 10 12 None None None None None in
  let positions := [("Drone_1"%string, Some pos1);
                    ("Drone_2"%string, Some pos2)] in
  exists warnings w,
    CollisionAvoidanceSystem.check_collisions SafetyConfig_default
      positions 12 = Ok (warnings, [])
    /\ In w warnings
    /\ w_drone1 w = "Drone_1"%string /\ w_drone2 w = "Drone_2"%string
    /\ w_distance w = 4 /\ w_severity w = warning.
Proof.
  intros pos1 pos2 positions.
  assert (Hd : CollisionAvoidanceSystem._calculate_distance_3d pos1 pos2 = 4).
  { unfold CollisionAvoidanceSystem._calculate_distance_3d.
    cbn [s_x s_y s_z pos1 pos2].
    replace ((0 - 4) ^ 2 + (0 - 0) ^ 2 + (10 - 10) ^ 2) with (4 * 4) by ring.
    apply sqrt_square; lra. }
  assert (Hnd : NoDup (dict_keys positions)).
  { repeat constructor; cbn; intuition discriminate. }
  destruct (conflict_emission_and_severity SafetyConfig_default [] positions 12
              (NoDup_nil _) Hnd) as [_ [warnings [E H]]].
  destruct (H "Drone_1"%string "Drone_2"%string pos1 pos2
              eq_refl eq_refl eq_refl) as [[_ Hex] Hall].
  rewrite Hd in Hex, Hall.
  destruct Hex as [w [Hw [H1 H2]]]; [cbn; lra |].
  destruct (Hall w Hw H1 H2) as [Hdist [_ Hsev]].
  exists warnings, w; repeat split; try assumption.
  apply Hsev; cbn; lra.
Defined.

(** C6.  With unique identifiers, for every two distinct agents the pair
    loop visits exactly one of the two orders, the one with the smaller
    identifier first; every conflict the offline analysis returns names
    the first, smaller, identifier of its pair as the priority drone and
    the other as the waiting drone; and both the pairs visited and the
    conflicts returned are the same for every order of the input
    dictionary. *)
Theorem priority_roles_deterministic (config : SafetyConfig)
  (drones_data drones_data' : Dict DroneData) :
  NoDup (dict_keys drones_data) ->
  Permutation drones_data drones_data' ->
  let roles := index_pairs (sorted (dict_keys drones_data)) in
  (forall a b,
      In a (dict_keys drones_data) -> In b (dict_keys drones_data) ->
      a <> b ->
      (str_lt a b /\ In (a, b) roles /\ ~ In (b, a) roles)
      \/ (str_lt b a /\ In (b, a) roles /\ ~ In (a, b) roles))
  /\ (exists conflicts,
        CollisionAvoidanceSystem.analyze_trajectory_conflicts
          config drones_data = Ok conflicts
        /\ (forall c,
               In c conflicts ->
               In (c_drone1 c, c_drone2 c) roles
               /\ str_lt (c_drone1 c) (c_drone2 c)
               /\ c_priority_drone c = Some (c_drone1 c)
               /\ c_waiting_drone c = Some (c_drone2 c))
        /\ CollisionAvoidanceSystem.analyze_trajectory_conflicts
             config drones_data' = Ok conflicts)
  /\ index_pairs (sorted (dict_keys drones_data')) = roles.
Proof.
  intros Hnd Hp roles.
  assert (Hkeys : sorted (dict_keys drones_data)
                  = sorted (dict_keys drones_data')).
  { apply sorted_Permutation; [exact Hnd |].
    apply Permutation_map; exact Hp. }
  split; [| split].
  - intros a b Ha Hb Hne.
    assert (Hno : forall x y, str_lt x y -> ~ In (y, x) roles).
    { intros x y Hxy Hin.
      apply (index_pairs_keys drones_data y x Hnd) in Hin.
      destruct Hin as [_ [_ Hyx]].
      apply (str_lt_irrefl x); eapply str_lt_trans; eassumption. }
    destruct (str_lt_total a b Hne) as [Hab | Hba]; [left | right];
      (split; [assumption | split; [| apply Hno; assumption]]);
      apply (index_pairs_keys drones_data _ _ Hnd); auto.
  - destruct (analyze_trajectory_conflicts_In config drones_data Hnd)
      as [conflicts [E Hin]].
    exists conflicts; split; [exact E | split].
    + intros c Hc; apply Hin in Hc.
      destruct Hc as [a [b [da [db [la [lb [t [pa [pb [w
                       [Ea [Eb [Hab [_ [_ [_ [_ [_ [_ [_ ->]]]]]]]]]]]]]]]]]]]].
      cbn [CollisionAvoidanceSystem.assign_remedy
           conflict_record c_drone1 c_drone2 c_priority_drone
           c_waiting_drone].
      repeat split; try assumption.
      apply (index_pairs_keys drones_data a b Hnd); repeat split;
        [apply dict_get_keys; eexists; exact Ea
        | apply dict_get_keys; eexists; exact Eb | exact Hab].
    + rewrite <- E.
      unfold CollisionAvoidanceSystem.analyze_trajectory_conflicts.
      rewrite <- Hkeys; apply result_concat_map_ext.
      intros [a b] _.
      unfold CollisionAvoidanceSystem.analyze_pair, dict_getitem.
      rewrite <- !(dict_get_Permutation drones_data drones_data' _ Hnd Hp).
      reflexivity.
  - unfold roles; rewrite Hkeys; reflexivity.
Qed.

(** "Drone_10" sorts between "Drone_1" and "Drone_2": with the drones
    given as 2, 10, 1 the pairs are visited as (1, 10), (1, 2), (10, 2),
    and the same pairs are visited when they are given as 1, 2, 10. *)
Lemma priority_roles_deterministic_witness :
  let d (id : string) := (id, mkDroneData [] [] None) in
  let d1 := d "Drone_1"%string in
  let d2 := d "Drone_2"%string in
  let d10 := d "Drone_10"%string in
  index_pairs (sorted (dict_keys [d1; d2; d10]))
  = index_pairs (sorted (dict_keys [d2; d10; d1]))
  /\ index_pairs (sorted (dict_keys [d2; d10; d1]))
     = [("Drone_1", "Drone_10"); ("Drone_1", "Drone_2");
        ("Drone_10", "Drone_2")]%string.
Proof.
  intros d d1 d2 d10; split; [| reflexivity].
  apply (priority_roles_deterministic SafetyConfig_default
           [d2; d10; d1] [d1; d2; d10]).
  - repeat constructor; cbn; intuition discriminate.
  - apply Permutation_sym, (perm_trans (perm_swap _ _ _)).
    apply perm_skip, perm_swap.
Defined.

(* ================================================================== *)
(** * Running a sequence of calls *)
(* ================================================================== *)

Lemma bind_run {S A B : Type} (m : M S A) (k : A -> M S B) (s s1 s2 : S)
  (a : A) (v : Result B) (logs1 logs2 : list LogRecord) :
  m s = mkOutcome (Ok a) s1 logs1 ->
  k a s1 = mkOutcome v s2 logs2 ->
  bind m k s = mkOutcome v s2 (logs1 ++ logs2).
Proof. intros E1 E2; unfold bind; rewrite E1; cbn; rewrite E2; reflexivity. Qed.

(* ================================================================== *)
(** * Further properties of the geodetic projection *)
(* ================================================================== *)

Section ProjectionMore.

Import EarthCoordinateSystem.

(** After [set_origin] at a latitude whose cosine is not zero, converting
    local metres to latitude and longitude and back reproduces the metres,
    leaves the state as it is and logs nothing. *)
Theorem meters_round_trip (s0 : state) (lat0 lon0 x y : R) :
  cos (radians lat0) <> 0 ->
  let s := state_after (set_origin lat0 lon0 s0) in
  bind (meters_to_lat_lon x y)
       (fun ll => lat_lon_to_meters (fst ll) (snd ll)) s
  = mkOutcome (Ok (x, y)) s [].
Proof.
  intros Hcos s; subst s; rewrite set_origin_state.
  set (k := METERS_PER_DEGREE_LAT * cos (radians lat0)).
  assert (Hk : k <> 0).
  { unfold k; apply Rmult_integral_contrapositive_currified;
      [apply METERS_PER_DEGREE_LAT_neq_0 | exact Hcos]. }
  unfold bind at 1; rewrite (meters_to_lat_lon_set _ _ _ _ _ Hk).
  cbn [value state_after emitted fst snd]; rewrite lat_lon_to_meters_set.
  cbn [value state_after emitted app].
  f_equal; f_equal; f_equal.
  - field; exact Hk.
  - pose proof METERS_PER_DEGREE_LAT_neq_0; field; assumption.
Qed.

Lemma meters_round_trip_witness :
  bind (meters_to_lat_lon 80 (-50))
       (fun ll => lat_lon_to_meters (fst ll) (snd ll))
       (state_after (set_origin 0 121 __init__))
  = mkOutcome (Ok (80, -50)) (state_after (set_origin 0 121 __init__)) [].
Proof.
  apply (meters_round_trip __init__ 0 121 80 (-50)).
  unfold radians; replace (0 * PI / 180) with 0 by field.
  rewrite cos_0; lra.
Defined.

(** After [set_origin lat0 lon0], whatever the latitude: the origin itself
    has local coordinates (0, 0), and the local offset between two points
    is 111111 m per degree of latitude northwards and
    111111 * cos (lat0) m per degree of longitude eastwards. *)
Theorem local_offsets (s0 : state) (lat0 lon0 lat1 lon1 lat2 lon2 : R) :
  let s := state_after (set_origin lat0 lon0 s0) in
  exists x1 y1 x2 y2,
    value (lat_lon_to_meters lat0 lon0 s) = Ok (0, 0)
    /\ value (lat_lon_to_meters lat1 lon1 s) = Ok (x1, y1)
    /\ value (lat_lon_to_meters lat2 lon2 s) = Ok (x2, y2)
    /\ x2 - x1 = (lon2 - lon1) * (111111 * cos (radians lat0))
    /\ y2 - y1 = (lat2 - lat1) * 111111.
Proof.
  intros s; subst s; rewrite set_origin_state, !lat_lon_to_meters_set.
  cbn [value]; do 4 eexists.
  split; [f_equal; f_equal; ring |].
  split; [reflexivity | split; [reflexivity |]].
  unfold METERS_PER_DEGREE_LAT; split; ring.
Qed.

End ProjectionMore.

(* ================================================================== *)
(** * Great-circle distance, bearing and destination *)
(* ================================================================== *)

Section Geodesy.

Import EarthCoordinateSystem.

Lemma math_sqrt_value (x : R) : 0 <= x -> math_sqrt x = Value (sqrt x).
Proof.
  intros H; unfold math_sqrt; destruct (Rlt_dec x 0); [lra | reflexivity].
Qed.

Lemma math_asin_value (x : R) : -1 <= x <= 1 -> math_asin x = Value (asin x).
Proof.
  intros [H1 H2]; unfold math_asin.
  apply Rleb_true in H1, H2; rewrite H1, H2; reflexivity.
Qed.

Lemma pow2_opp (x : R) : (- x) ^ 2 = x ^ 2.
Proof. ring. Qed.

Lemma asin_nonneg (x : R) : 0 <= x <= 1 -> 0 <= asin x.
Proof.
  intros Hx; destruct (Rle_or_lt 0 (asin x)) as [H | H]; [exact H |].
  exfalso; pose proof (asin_bound x) as [Hlo _]; pose proof PI_RGT_0.
  assert (Hs : sin (asin x) < 0) by (apply sin_lt_0_var; lra).
  rewrite sin_asin in Hs; lra.
Qed.

(** The haversine term. *)
Lemma haversine_symmetric (p1 l1 p2 l2 : R) :
  sin ((p2 - p1) / 2) ^ 2 + cos p1 * cos p2 * sin ((l2 - l1) / 2) ^ 2
  = sin ((p1 - p2) / 2) ^ 2 + cos p2 * cos p1 * sin ((l1 - l2) / 2) ^ 2.
Proof.
  replace ((p1 - p2) / 2) with (- ((p2 - p1) / 2)) by field.
  replace ((l1 - l2) / 2) with (- ((l2 - l1) / 2)) by field.
  rewrite !sin_neg, !pow2_opp; ring.
Qed.

(** The great-circle distance from A to B is the distance from B to A:
    the same value, or the same domain error. *)
Theorem calculate_distance_symmetric (lat1 lon1 lat2 lon2 : R) :
  calculate_distance lat1 lon1 lat2 lon2
  = calculate_distance lat2 lon2 lat1 lon1.
Proof.
  unfold calculate_distance; cbv zeta.
  rewrite (haversine_symmetric (radians lat1) (radians lon1)
                               (radians lat2) (radians lon2)).
  reflexivity.
Qed.

Lemma sin_half_sq (x : R) : sin (x / 2) ^ 2 = (1 - cos x) / 2.
Proof.
  replace x with (2 * (x / 2)) at 2 by field.
  rewrite cos_2a_sin; field.
Qed.

Lemma radians_valid_lat (lat : R) :
  -90 <= lat <= 90 -> - (PI / 2) <= radians lat <= PI / 2.
Proof.
  intros [H1 H2]; pose proof PI_RGT_0; unfold radians; split; nra.
Qed.


(** For latitudes in [-90, 90] the haversine term lies in [0, 1]. *)
Lemma haversine_range (p1 l1 p2 l2 : R) :
  0 <= cos p1 -> 0 <= cos p2 ->
  0 <= sin ((p2 - p1) / 2) ^ 2 + cos p1 * cos p2 * sin ((l2 - l1) / 2) ^ 2
  <= 1.
Proof.
  intros Hc1 Hc2.
  assert (Hs := pow2_ge_0 (sin ((p2 - p1) / 2))).
  assert (Ht := pow2_ge_0 (sin ((l2 - l1) / 2))).
  assert (Ht1 : sin ((l2 - l1) / 2) ^ 2 <= 1).
  { rewrite sin_half_sq; pose proof (COS_bound (l2 - l1)); lra. }
  assert (Hcc : 0 <= cos p1 * cos p2) by (apply Rmult_le_pos; assumption).
  split; [nra |].
  rewrite (sin_half_sq (p2 - p1)), cos_minus.
  assert (Hsum := COS_bound (p2 + p1)); rewrite cos_plus in Hsum.
  nra.
Qed.

(** For two points with latitudes in [-90, 90], [calculate_distance]
    returns a distance between 0 and half the circumference of the
    sphere of radius 6371 km; the distance of a point to itself is 0. *)
Theorem calculate_distance_range (lat1 lon1 lat2 lon2 : R) :
  -90 <= lat1 <= 90 -> -90 <= lat2 <= 90 ->
  (exists d,
      calculate_distance lat1 lon1 lat2 lon2 = Value d
      /\ 0 <= d <= PI * (EARTH_RADIUS_KM * 1000))
  /\ calculate_distance lat1 lon1 lat1 lon1 = Value 0.
Proof.
  intros H1 H2.
  assert (Hc1 : 0 <= cos (radians lat1)).
  { apply cos_ge_0; apply radians_valid_lat; exact H1. }
  assert (Hc2 : 0 <= cos (radians lat2)).
  { apply cos_ge_0; apply radians_valid_lat; exact H2. }
  split.
  - unfold calculate_distance; cbv zeta.
    set (a := sin _ ^ 2 + _).
    assert (Ha : 0 <= a <= 1) by (apply haversine_range; assumption).
    rewrite math_sqrt_value by lra; cbn [math_bind].
    assert (Hr : 0 <= sqrt a <= 1).
    { split; [apply sqrt_pos |].
      rewrite <- sqrt_1; apply sqrt_le_1_alt; lra. }
    rewrite math_asin_value by lra; cbn [math_bind].
    eexists; split; [reflexivity |].
    assert (Hlo : 0 <= asin (sqrt a)) by (apply asin_nonneg; exact Hr).
    pose proof (asin_bound (sqrt a)) as [_ Hhi].
    unfold EARTH_RADIUS_KM; pose proof PI_RGT_0; split; nra.
  - unfold calculate_distance; cbv zeta.
    replace (radians lat1 - radians lat1) with 0 by ring.
    replace (radians lon1 - radians lon1) with 0 by ring.
    replace (0 / 2) with 0 by field.
    rewrite sin_0.
    replace (0 ^ 2 + cos (radians lat1) * cos (radians lat1) * 0 ^ 2)
      with 0 by ring.
    rewrite math_sqrt_value, sqrt_0 by lra; cbn [math_bind].
    rewrite math_asin_value, asin_0 by lra; cbn [math_bind].
    f_equal; ring.
Qed.

Lemma calculate_distance_range_witness :
  (exists d,
      calculate_distance 24 121 (24 + 1 / 1000) (121 + 1 / 1000) = Value d
      /\ 0 <= d <= PI * (EARTH_RADIUS_KM * 1000))
  /\ calculate_distance 24 121 24 121 = Value 0.
Proof.
  apply calculate_distance_range; lra.
Defined.

End Geodesy.

Section Bearing.

Import EarthCoordinateSystem.

Lemma float_mod_range (a b : R) : 0 < b -> 0 <= float_mod a b < b.
Proof.
  intros Hb; unfold float_mod.
  pose proof (Zfloor_bound (a / b)) as [Hlo Hhi].
  assert (Ha : a = b * (a / b)) by (field; lra).
  split; nra.
Qed.

Lemma float_mod_plus (a b : R) : 0 <= a < b -> float_mod (a + b) b = a.
Proof.
  intros [H0 Hb]; unfold float_mod.
  assert (Hq : (a + b) / b = a / b + 1) by (field; lra).
  assert (Hab : 0 <= a / b < 1).
  { split.
    - apply Rmult_le_pos; [lra | apply Rlt_le, Rinv_0_lt_compat; lra].
    - apply (Rmult_lt_reg_r b); [lra |].
      unfold Rdiv; rewrite Rmult_assoc, Rinv_l; lra. }
  rewrite (Zfloor_eq 1 ((a + b) / b)) by (rewrite Hq; lra).
  ring.
Qed.


Lemma radians_degrees (rad : R) : radians (degrees rad) = rad.
Proof. unfold degrees, radians; field; apply PI_neq0. Qed.

Lemma radians_0 : radians 0 = 0.
Proof. unfold radians; field. Qed.

Lemma math_atan2_range (y x : R) : - PI < math_atan2 y x <= PI.
Proof.
  pose proof PI_RGT_0; unfold math_atan2.
  destruct (Rltb 0 x) eqn:E1.
  - pose proof (atan_bound (y / x)); lra.
  - apply Rltb_false in E1.
    destruct (Rltb x 0) eqn:E2.
    + apply Rltb_true in E2.
      assert (Hix : / x < 0) by (apply Rinv_lt_0_compat; exact E2).
      pose proof (atan_bound (y / x)).
      destruct (Rleb 0 y) eqn:E3.
      * apply Rleb_true in E3.
        assert (Hq : y / x <= 0) by (unfold Rdiv; nra).
        assert (atan (y / x) <= 0).
        { rewrite <- atan_0; destruct Hq as [Hq | ->];
            [apply Rlt_le, atan_increasing; exact Hq | lra]. }
        lra.
      * apply Rleb_false in E3.
        assert (Hq : 0 < y / x) by (unfold Rdiv; nra).
        assert (0 < atan (y / x)).
        { rewrite <- atan_0; apply atan_increasing; exact Hq. }
        lra.
    + destruct (Rltb 0 y); [lra |].
      destruct (Rltb y 0); lra.
Qed.

(** The bearing is normalised: it lies in [0, 360), and it is the angle
    [atan2 (y, x)] in degrees, plus 360 when that angle is negative. *)
Theorem calculate_bearing_range (lat1 lon1 lat2 lon2 : R) :
  let dlon := radians lon2 - radians lon1 in
  let y := sin dlon * cos (radians lat2) in
  let x := cos (radians lat1) * sin (radians lat2)
           - sin (radians lat1) * cos (radians lat2) * cos dlon in
  let angle := degrees (math_atan2 y x) in
  let b := calculate_bearing lat1 lon1 lat2 lon2 in
  0 <= b < 360
  /\ -180 < angle <= 180
  /\ (0 <= angle -> b = angle)
  /\ (angle < 0 -> b = angle + 360).
Proof.
  intros dlon y x angle b.
  assert (Hb : b = float_mod (angle + 360) 360) by reflexivity.
  assert (Hangle : -180 < angle <= 180).
  { unfold angle, degrees; pose proof (math_atan2_range y x) as [H1 H2].
    pose proof PI_RGT_0 as Hpi.
    split.
    - apply (Rmult_lt_reg_r PI); [exact Hpi |].
      unfold Rdiv; rewrite Rmult_assoc, Rinv_l by lra; lra.
    - apply (Rmult_le_reg_r PI); [exact Hpi |].
      unfold Rdiv; rewrite Rmult_assoc, Rinv_l by lra; lra. }
  split; [rewrite Hb; apply float_mod_range; lra |].
  split; [exact Hangle |].
  split; intros Hs; rewrite Hb.
  - apply float_mod_plus; lra.
  - replace (angle + 360) with ((angle + 360 - 360) + 360) by ring.
    unfold float_mod.
    rewrite (Zfloor_eq 0 ((angle + 360 - 360 + 360) / 360)) by lra.
    ring.
Qed.

Lemma math_atan2_0_pos (x : R) : 0 <= x -> math_atan2 0 x = 0.
Proof.
  intros Hx; unfold math_atan2.
  destruct (Rltb 0 x) eqn:E1.
  - unfold Rdiv; rewrite Rmult_0_l; apply atan_0.
  - apply Rltb_false in E1.
    assert (E2 : Rltb x 0 = false) by (apply Rltb_false; lra).
    assert (E3 : Rltb 0 0 = false) by (apply Rltb_false; lra).
    rewrite E2, E3; reflexivity.
Qed.

Lemma math_atan2_0_neg (x : R) : x < 0 -> math_atan2 0 x = PI.
Proof.
  intros Hx; unfold math_atan2.
  assert (E1 : Rltb 0 x = false) by (apply Rltb_false; lra).
  assert (E2 : Rltb x 0 = true) by (apply Rltb_true; lra).
  assert (E3 : Rleb 0 0 = true) by (apply Rleb_true; lra).
  rewrite E1, E2, E3; unfold Rdiv; rewrite Rmult_0_l, atan_0; ring.
Qed.

Lemma math_atan2_pos_0 (y : R) : 0 < y -> math_atan2 y 0 = PI / 2.
Proof.
  intros Hy; unfold math_atan2.
  assert (E1 : Rltb 0 0 = false) by (apply Rltb_false; lra).
  assert (E2 : Rltb 0 y = true) by (apply Rltb_true; lra).
  rewrite E1, E2; reflexivity.
Qed.

Lemma math_atan2_neg_0 (y : R) : y < 0 -> math_atan2 y 0 = - (PI / 2).
Proof.
  intros Hy; unfold math_atan2.
  assert (E1 : Rltb 0 0 = false) by (apply Rltb_false; lra).
  assert (E2 : Rltb 0 y = false) by (apply Rltb_false; lra).
  assert (E3 : Rltb y 0 = true) by (apply Rltb_true; lra).
  rewrite E1, E2, E3; reflexivity.
Qed.

Lemma radians_lt_PI (deg : R) : 0 < deg < 180 -> 0 < radians deg < PI.
Proof.
  intros [H1 H2]; pose proof PI_RGT_0; unfold radians; split; nra.
Qed.

Lemma radians_minus (a b : R) : radians a - radians b = radians (a - b).
Proof. unfold radians; field. Qed.

(** The cardinal directions: along a meridian the bearing is 0 to the
    north and 180 to the south; along the equator it is 90 to the east and
    270 to the west. *)
Theorem calculate_bearing_cardinal (lat1 lat2 lon1 lon2 : R) :
  (0 < lat2 - lat1 < 180 -> calculate_bearing lat1 lon1 lat2 lon1 = 0)
  /\ (0 < lat1 - lat2 < 180 -> calculate_bearing lat1 lon1 lat2 lon1 = 180)
  /\ (0 < lon2 - lon1 < 180 -> calculate_bearing 0 lon1 0 lon2 = 90)
  /\ (0 < lon1 - lon2 < 180 -> calculate_bearing 0 lon1 0 lon2 = 270).
Proof.
  pose proof PI_RGT_0 as Hpi.
  assert (Hmer : forall a b,
            cos (radians a) * sin (radians b)
            - sin (radians a) * cos (radians b) * cos (radians lon1 - radians lon1)
            = sin (radians (b - a))).
  { intros a b; replace (radians lon1 - radians lon1) with 0 by ring.
    rewrite cos_0, <- radians_minus, sin_minus; ring. }
  assert (Hy0 : forall b,
            sin (radians lon1 - radians lon1) * cos (radians b) = 0).
  { intros b; replace (radians lon1 - radians lon1) with 0 by ring.
    rewrite sin_0; ring. }
  assert (Heq : forall a b,
            sin (radians b - radians a) * cos (radians 0) = sin (radians (b - a))
            /\ cos (radians 0) * sin (radians 0)
               - sin (radians 0) * cos (radians 0) * cos (radians b - radians a)
               = 0).
  { intros a b; rewrite radians_0, cos_0, sin_0, radians_minus; split; ring. }
  repeat split; intros H; unfold calculate_bearing; cbv zeta.
  - rewrite Hy0, Hmer, math_atan2_0_pos
      by (apply Rlt_le, sin_gt_0; apply radians_lt_PI; exact H).
    replace (degrees 0) with 0 by (unfold degrees; field; lra).
    apply float_mod_plus; lra.
  - rewrite Hy0, Hmer.
    replace (lat2 - lat1) with (- (lat1 - lat2)) by ring.
    replace (radians (- (lat1 - lat2))) with (- radians (lat1 - lat2))
      by (unfold radians; field).
    rewrite sin_neg, math_atan2_0_neg.
    + replace (degrees PI) with 180 by (unfold degrees; field; lra).
      apply float_mod_plus; lra.
    + pose proof (sin_gt_0 (radians (lat1 - lat2))) as Hs.
      destruct (radians_lt_PI (lat1 - lat2) H) as [Ha Hb].
      specialize (Hs Ha Hb); lra.
  - destruct (Heq lon1 lon2) as [-> ->].
    rewrite math_atan2_pos_0
      by (apply sin_gt_0; apply radians_lt_PI; exact H).
    replace (degrees (PI / 2)) with 90 by (unfold degrees; field; lra).
    apply float_mod_plus; lra.
  - destruct (Heq lon1 lon2) as [-> ->].
    replace (lon2 - lon1) with (- (lon1 - lon2)) by ring.
    replace (radians (- (lon1 - lon2))) with (- radians (lon1 - lon2))
      by (unfold radians; field).
    rewrite sin_neg, math_atan2_neg_0.
    + replace (degrees (- (PI / 2))) with (-90) by (unfold degrees; field; lra).
      replace (-90 + 360) with 270 by ring.
      unfold float_mod; rewrite (Zfloor_eq 0 (270 / 360)) by lra; ring.
    + pose proof (sin_gt_0 (radians (lon1 - lon2))) as Hs.
      destruct (radians_lt_PI (lon1 - lon2) H) as [Ha Hb].
      specialize (Hs Ha Hb); lra.
Qed.

Lemma calculate_bearing_cardinal_witness :
  calculate_bearing 24 121 25 121 = 0
  /\ calculate_bearing 24 121 23 121 = 180
  /\ calculate_bearing 0 121 0 122 = 90
  /\ calculate_bearing 0 121 0 120 = 270.
Proof.
  destruct (calculate_bearing_cardinal 24 25 121 122) as [Hn _].
  destruct (calculate_bearing_cardinal 24 23 121 122) as [_ [Hs [He _]]].
  destruct (calculate_bearing_cardinal 24 23 121 120) as [_ [_ [_ Hw]]].
  repeat split; [apply Hn | apply Hs | apply He | apply Hw]; lra.
Defined.

End Bearing.

Section Destination.

Import EarthCoordinateSystem.





End Destination.

(* ================================================================== *)
(** * Further properties of the collision engine *)
(* ================================================================== *)

Section Distance.

Import CollisionAvoidanceSystem.

Lemma distance_3d_position (p q : Sample) :
  _calculate_distance_3d p q = distance_3d (position q) (position p).
Proof. reflexivity. Qed.

Lemma cauchy_schwarz_3 (a b c x y z : R) :
  (a * x + b * y + c * z) * (a * x + b * y + c * z)
  <= (a * a + b * b + c * c) * (x * x + y * y + z * z).
Proof.
  pose proof (Rle_0_sqr (a * y - b * x)) as H1.
  pose proof (Rle_0_sqr (a * z - c * x)) as H2.
  pose proof (Rle_0_sqr (b * z - c * y)) as H3.
  unfold Rsqr in *; nra.
Qed.

Lemma norm_triangle (a b c x y z : R) :
  sqrt ((a + x) ^ 2 + (b + y) ^ 2 + (c + z) ^ 2)
  <= sqrt (a ^ 2 + b ^ 2 + c ^ 2) + sqrt (x ^ 2 + y ^ 2 + z ^ 2).
Proof.
  set (U := a ^ 2 + b ^ 2 + c ^ 2); set (V := x ^ 2 + y ^ 2 + z ^ 2).
  assert (HU : 0 <= U) by apply sum_squares_nonneg.
  assert (HV : 0 <= V) by apply sum_squares_nonneg.
  pose proof (sqrt_pos U) as HA; pose proof (sqrt_pos V) as HB.
  assert (HAA : sqrt U * sqrt U = U) by (apply sqrt_sqrt; exact HU).
  assert (HBB : sqrt V * sqrt V = V) by (apply sqrt_sqrt; exact HV).
  assert (Hdot : a * x + b * y + c * z <= sqrt U * sqrt V).
  { destruct (Rle_or_lt (a * x + b * y + c * z) 0) as [Hn | Hp];
      [pose proof (Rmult_le_pos _ _ HA HB); lra |].
    pose proof (cauchy_schwarz_3 a b c x y z) as Hcs.
    assert (Hsq : (a * x + b * y + c * z) * (a * x + b * y + c * z)
                  <= (sqrt U * sqrt V) * (sqrt U * sqrt V)).
    { replace ((sqrt U * sqrt V) * (sqrt U * sqrt V))
        with ((sqrt U * sqrt U) * (sqrt V * sqrt V)) by ring.
      rewrite HAA, HBB; unfold U, V; cbn [pow]; nra. }
    pose proof (Rmult_le_pos _ _ HA HB).
    nra. }
  rewrite <- (sqrt_square (sqrt U + sqrt V)) by lra.
  apply sqrt_le_1_alt.
  unfold U, V in *; cbn [pow] in *; nra.
Qed.

(** The 3D distance is a metric on positions: it is not negative, it does
    not depend on the order of the two positions, it is 0 exactly between
    equal positions, and it satisfies the triangle inequality. *)
Theorem calculate_distance_3d_metric (p q r : Sample) :
  0 <= _calculate_distance_3d p q
  /\ _calculate_distance_3d p q = _calculate_distance_3d q p
  /\ (_calculate_distance_3d p q = 0 <-> position p = position q)
  /\ _calculate_distance_3d p r
     <= _calculate_distance_3d p q + _calculate_distance_3d q r.
Proof.
  split; [apply sqrt_pos |].
  split; [unfold _calculate_distance_3d; f_equal; ring |].
  split.
  - rewrite distance_3d_position; split.
    + intros H; symmetry; apply distance_3d_zero; exact H.
    + intros ->; unfold position, distance_3d.
      replace ((s_x q - s_x q) ^ 2 + (s_y q - s_y q) ^ 2
               + (s_z q - s_z q) ^ 2) with 0 by ring.
      apply sqrt_0.
  - unfold _calculate_distance_3d.
    replace (s_x p - s_x r) with ((s_x p - s_x q) + (s_x q - s_x r)) by ring.
    replace (s_y p - s_y r) with ((s_y p - s_y q) + (s_y q - s_y r)) by ring.
    replace (s_z p - s_z r) with ((s_z p - s_z q) + (s_z q - s_z r)) by ring.
    apply norm_triangle.
Qed.

End Distance.

Section NearestWaypoint.

Import CollisionAvoidanceSystem.

Variable time : R.

Lemma nearest_scan_spec (l : list Sample) :
  forall (z : Z) (min_diff : option R) (nearest_idx : Z),
    let r := nearest_scan (enumerate z l) time min_diff nearest_idx in
    (r = nearest_idx
     /\ forall s w, In s l -> s_waypoint_index s = Some w ->
          match min_diff with
          | Some m => m <= Rabs (s_time s - time)
          | None => False
          end)
    \/ (exists pre s post,
          l = pre ++ s :: post
          /\ s_waypoint_index s = Some r
          /\ match min_diff with
             | Some m => Rabs (s_time s - time) < m
             | None => True
             end
          /\ (forall s' w, In s' pre -> s_waypoint_index s' = Some w ->
                Rabs (s_time s - time) < Rabs (s_time s' - time))
          /\ (forall s' w, In s' post -> s_waypoint_index s' = Some w ->
                Rabs (s_time s - time) <= Rabs (s_time s' - time))).
Proof.
  induction l as [| p l IH]; intros z min_diff nearest_idx; cbv zeta.
  - left; split; [reflexivity | intros s w []].
  - cbn [enumerate nearest_scan].
    destruct (s_waypoint_index p) as [wp |] eqn:Ep.
    + set (diff := Rabs (s_time p - time)).
      assert (Hstep :
        forall (Hc : match min_diff with
                     | Some m => diff < m
                     | None => True
                     end),
          let r := nearest_scan (enumerate (z + 1) l) time (Some diff) wp in
          exists pre s post,
            p :: l = pre ++ s :: post
            /\ s_waypoint_index s = Some r
            /\ match min_diff with
               | Some m => Rabs (s_time s - time) < m
               | None => True
               end
            /\ (forall s' w, In s' pre -> s_waypoint_index s' = Some w ->
                  Rabs (s_time s - time) < Rabs (s_time s' - time))
            /\ (forall s' w, In s' post -> s_waypoint_index s' = Some w ->
                  Rabs (s_time s - time) <= Rabs (s_time s' - time))).
      { intros Hc r.
        destruct (IH (z + 1)%Z (Some diff) wp)
          as [[Er Hall] | [pre [s [post [El [Es [Hlt [Hpre Hpost]]]]]]]];
          fold r in Er || fold r in Es.
        - exists [], p, l; split; [reflexivity |].
          rewrite Er; split; [exact Ep |].
          split; [exact Hc | split; [intros s' w [] |]].
          intros s' w Hin Hs'; apply (Hall s' w Hin Hs').
        - exists (p :: pre), s, post; split; [rewrite El; reflexivity |].
          split; [exact Es |].
          split; [destruct min_diff; [lra | exact I] |].
          split; [| exact Hpost].
          intros s' w [<- | Hin] Hs'; [exact Hlt | apply (Hpre s' w Hin Hs')]. }
      destruct min_diff as [m |].
      * destruct (Rltb diff m) eqn:E.
        -- apply Rltb_true in E; right; apply (Hstep E).
        -- apply Rltb_false in E.
           destruct (IH (z + 1)%Z (Some m) nearest_idx)
             as [[Er Hall] | [pre [s [post [El [Es [Hlt [Hpre Hpost]]]]]]]].
           ++ left; split; [exact Er |].
              intros s w [<- | Hin] Hs; [exact E | apply (Hall s w Hin Hs)].
           ++ right; exists (p :: pre), s, post.
              split; [rewrite El; reflexivity |].
              split; [exact Es | split; [exact Hlt | split; [| exact Hpost]]].
              intros s' w [<- | Hin] Hs';
                [fold diff; lra | apply (Hpre s' w Hin Hs')].
      * right; apply (Hstep I).
    + destruct (IH (z + 1)%Z min_diff nearest_idx)
        as [[Er Hall] | [pre [s [post [El [Es [Hlt [Hpre Hpost]]]]]]]].
      * left; split; [exact Er |].
        intros s w [<- | Hin] Hs; [congruence | apply (Hall s w Hin Hs)].
      * right; exists (p :: pre), s, post.
        split; [rewrite El; reflexivity |].
        split; [exact Es | split; [exact Hlt | split; [| exact Hpost]]].
        intros s' w [<- | Hin] Hs'; [congruence | apply (Hpre s' w Hin Hs')].
Qed.

(** [_find_nearest_waypoint_index] returns the waypoint index of the first
    point of the trajectory, among those that carry one, whose time is
    closest to the query time; it returns 0 when no point carries one. *)
Theorem find_nearest_waypoint_index_spec (trajectory : list Sample) :
  let r := _find_nearest_waypoint_index trajectory time in
  ((forall s, In s trajectory -> s_waypoint_index s = None) -> r = 0%Z)
  /\ ((exists s w, In s trajectory /\ s_waypoint_index s = Some w) ->
      exists pre s post,
        trajectory = pre ++ s :: post
        /\ s_waypoint_index s = Some r
        /\ (forall s' w, In s' pre -> s_waypoint_index s' = Some w ->
              Rabs (s_time s - time) < Rabs (s_time s' - time))
        /\ (forall s' w, In s' post -> s_waypoint_index s' = Some w ->
              Rabs (s_time s - time) <= Rabs (s_time s' - time))).
Proof.
  intros r.
  assert (Hr : r = nearest_scan (enumerate 0 trajectory) time None 0%Z).
  { unfold r, _find_nearest_waypoint_index; destruct trajectory; reflexivity. }
  destruct (nearest_scan_spec trajectory 0%Z None 0%Z)
    as [[Er Hall] | [pre [s [post [El [Es [_ [Hpre Hpost]]]]]]]];
    rewrite <- Hr in *.
  - split; [intros _; exact Er |].
    intros [s [w [Hin Hs]]]; destruct (Hall s w Hin Hs).
  - split.
    + intros Hnone; rewrite (Hnone s) in Es; [discriminate |].
      rewrite El; apply in_elt.
    + intros _; exists pre, s, post; auto.
Qed.

End NearestWaypoint.

Section InterpolationMore.

Import CollisionAvoidanceSystem.

Lemma last_In {A : Type} (l : list A) (d : A) : l <> [] -> In (last l d) l.
Proof.
  intros H; destruct (exists_last H) as [l' [a ->]].
  rewrite last_last; apply in_elt.
Qed.

Lemma lerp_between (a b r lo hi : R) :
  0 <= r <= 1 -> lo <= a <= hi -> lo <= b <= hi ->
  lo <= a + r * (b - a) <= hi.
Proof. intros Hr Ha Hb; split; nra. Qed.

Lemma bracket_ratio (t1 t2 t : R) :
  t1 <= t <= t2 -> t2 - t1 <> 0 -> 0 <= (t - t1) / (t2 - t1) <= 1.
Proof.
  intros [H1 H2] Hne.
  assert (Hpos : 0 < t2 - t1) by lra.
  split.
  - apply Rmult_le_pos; [lra | apply Rlt_le, Rinv_0_lt_compat; exact Hpos].
  - apply (Rmult_le_reg_r (t2 - t1)); [exact Hpos |].
    unfold Rdiv; rewrite Rmult_assoc, Rinv_l; lra.
Qed.

(** What the scan returns, when it returns: a point of the trajectory, or
    a point between two consecutive points that bracket the time. *)
Lemma interpolate_scan_inv (l : list Sample) (t : R) (p : Sample) :
  interpolate_scan l t = Some p ->
  In p l
  \/ exists p1 p2 r,
       In p1 l /\ In p2 l /\ 0 <= r <= 1
       /\ s_time p1 <= t <= s_time p2
       /\ p = mkSample (s_x p1 + r * (s_x p2 - s_x p1))
                       (s_y p1 + r * (s_y p2 - s_y p1))
                       (s_z p1 + r * (s_z p2 - s_z p1))
                       t None None None None None.
Proof.
  induction l as [| p1 l IH]; [discriminate |].
  destruct l as [| p2 l]; [discriminate |].
  rewrite interpolate_scan_cons.
  destruct (Rleb (s_time p1) t && Rleb t (s_time p2)) eqn:E.
  - apply andb_true_iff in E; destruct E as [E1 E2].
    apply Rleb_true in E1, E2.
    destruct (Reqb (s_time p2 - s_time p1) 0) eqn:Ez.
    + intros [= <-]; left; left; reflexivity.
    + apply Reqb_false in Ez; intros [= <-]; right.
      exists p1, p2, ((t - s_time p1) / (s_time p2 - s_time p1)).
      split; [left; reflexivity |].
      split; [right; left; reflexivity |].
      split; [apply bracket_ratio; [split; assumption | exact Ez] |].
      split; [split; assumption | reflexivity].
  - intros H; destruct (IH H) as [Hin | [q1 [q2 [r [H1 [H2 Hr]]]]]].
    + left; right; exact Hin.
    + right; exists q1, q2, r; split; [right; exact H1 |].
      split; [right; exact H2 | exact Hr].
Qed.

(** An interpolated position never leaves the bounding box of the
    trajectory: bounds that hold for the coordinates of every point hold
    for the coordinates of every position [_interpolate_position]
    returns. *)
Theorem interpolate_position_bounded (trajectory : list Sample) (t : R)
  (p : Sample) (xlo xhi ylo yhi zlo zhi : R) :
  (forall s, In s trajectory ->
     xlo <= s_x s <= xhi /\ ylo <= s_y s <= yhi /\ zlo <= s_z s <= zhi) ->
  _interpolate_position trajectory t = Some p ->
  xlo <= s_x p <= xhi /\ ylo <= s_y p <= yhi /\ zlo <= s_z p <= zhi.
Proof.
  intros Hall Hp.
  assert (Hcases :
    In p trajectory
    \/ exists p1 p2 r,
         In p1 trajectory /\ In p2 trajectory /\ 0 <= r <= 1
         /\ s_time p1 <= t <= s_time p2
         /\ p = mkSample (s_x p1 + r * (s_x p2 - s_x p1))
                         (s_y p1 + r * (s_y p2 - s_y p1))
                         (s_z p1 + r * (s_z p2 - s_z p1))
                         t None None None None None).
  { destruct trajectory as [| first rest]; [discriminate |].
    unfold _interpolate_position in Hp.
    destruct (Rleb _ t).
    - injection Hp as <-; left.
      exact (last_In (first :: rest) first ltac:(discriminate)).
    - destruct (Rleb t _).
      + injection Hp as <-; left; left; reflexivity.
      + apply interpolate_scan_inv; exact Hp. }
  destruct Hcases as [Hin | [p1 [p2 [r [H1 [H2 [Hr [_ ->]]]]]]]].
  - apply Hall; exact Hin.
  - destruct (Hall p1 H1) as [Hx1 [Hy1 Hz1]].
    destruct (Hall p2 H2) as [Hx2 [Hy2 Hz2]].
    cbn [s_x s_y s_z]; split; [| split]; apply lerp_between; assumption.
Qed.

Lemma interpolate_position_bounded_witness :
  let traj := [mkSample 0 0 0 0 (Some TAXI) None None None (Some 0%Z);
               mkSample 0 0 10 7 (Some TAKEOFF) None None None (Some 1%Z)] in
  exists p,
    _interpolate_position traj 3 = Some p
    /\ 0 <= s_x p <= 0 /\ 0 <= s_y p <= 0 /\ 0 <= s_z p <= 10.
Proof.
  intros traj.
  destruct (interpolate_total traj 3 ltac:(discriminate)) as [p E].
  exists p; split; [exact E |].
  apply (interpolate_position_bounded traj 3 p 0 0 0 0 0 10); [| exact E].
  intros s [<- | [<- | []]]; cbn; lra.
Defined.

Lemma interpolate_scan_at_sample (s : Sample) (l : list Sample) :
  forall p1,
    StronglySorted time_step_ok (p1 :: l) ->
    In s l -> s_time p1 < s_time s ->
    exists p,
      interpolate_scan (p1 :: l) (s_time s) = Some p
      /\ position p = position s /\ s_time p = s_time s.
Proof.
  induction l as [| p2 l IH]; intros p1 Hs Hin Hlt; [destruct Hin |].
  inversion Hs as [| ? ? Hs' Hall]; subst.
  rewrite interpolate_scan_cons.
  destruct (Rleb (s_time p1) (s_time s) && Rleb (s_time s) (s_time p2)) eqn:E.
  - apply andb_true_iff in E; destruct E as [_ E2]; apply Rleb_true in E2.
    assert (Hp2 : s_time p2 = s_time s /\ position p2 = position s).
    { destruct Hin as [<- | Hin]; [split; reflexivity |].
      inversion Hs' as [| ? ? _ Hall2]; subst.
      rewrite Forall_forall in Hall2; destruct (Hall2 s Hin) as [Hle Hpos].
      assert (Heq : s_time p2 = s_time s) by lra.
      split; [exact Heq | apply Hpos; exact Heq]. }
    destruct Hp2 as [Ht Hpos].
    assert (Ez : Reqb (s_time p2 - s_time p1) 0 = false)
      by (apply Reqb_false; lra).
    rewrite Ez; eexists; split; [reflexivity |].
    split; [| reflexivity].
    rewrite <- Hpos; unfold position; cbn [s_x s_y s_z].
    rewrite <- Ht.
    replace ((s_time p2 - s_time p1) / (s_time p2 - s_time p1)) with 1
      by (field; lra).
    f_equal; [f_equal |]; ring.
  - apply andb_false_iff in E; destruct E as [E | E]; apply Rleb_false in E;
      [lra |].
    apply IH; [exact Hs' | | exact E].
    destruct Hin as [<- | Hin]; [lra | exact Hin].
Qed.

(** Along a trajectory whose times never decrease and stand still only
    where the position does, the position at the time of a sample is the
    position of that sample. *)
Theorem interpolate_position_at_sample (trajectory : list Sample)
  (s : Sample) :
  StronglySorted time_step_ok trajectory ->
  In s trajectory ->
  exists p,
    _interpolate_position trajectory (s_time s) = Some p
    /\ position p = position s /\ s_time p = s_time s.
Proof.
  intros Hs Hin.
  destruct trajectory as [| first rest]; [destruct Hin |].
  assert (Hfirst : forall x, In x (first :: rest) ->
            s_time first <= s_time x
            /\ (s_time first = s_time x -> position first = position x)).
  { intros x [<- | Hx]; [split; [lra | reflexivity] |].
    inversion Hs as [| ? ? _ Hall]; subst.
    rewrite Forall_forall in Hall; apply Hall; exact Hx. }
  assert (Hlast : forall l a x,
            StronglySorted time_step_ok (a :: l) -> In x (a :: l) ->
            s_time x <= s_time (last (a :: l) a)
            /\ (s_time x = s_time (last (a :: l) a) ->
                position x = position (last (a :: l) a))).
  { clear; induction l as [| b l IH]; intros a x Hs Hx.
    - destruct Hx as [<- | []]; cbn; split; [lra | reflexivity].
    - inversion Hs as [| ? ? Hs' Hall]; subst.
      rewrite Forall_forall in Hall.
      assert (El : last (a :: b :: l) a = last (b :: l) b).
      { clear; cbn [last]; destruct l as [| c l]; [reflexivity |].
        revert c; induction l as [| d l IHl]; intros c; [reflexivity |].
        cbn [last] in *; apply IHl. }
      rewrite El.
      destruct Hx as [<- | Hx]; [| apply IH; assumption].
      assert (Hin : In (last (b :: l) b) (b :: l))
        by (apply last_In; discriminate).
      apply Hall; exact Hin. }
  unfold _interpolate_position.
  destruct (Rleb (s_time (last (first :: rest) first)) (s_time s)) eqn:El.
  - apply Rleb_true in El.
    destruct (Hlast rest first s Hs Hin) as [Hle Hpos].
    assert (Heq : s_time s = s_time (last (first :: rest) first)) by lra.
    eexists; split; [reflexivity |].
    split; [symmetry; apply Hpos; exact Heq | symmetry; exact Heq].
  - apply Rleb_false in El.
    destruct (Rleb (s_time s) (s_time first)) eqn:Ef.
    + apply Rleb_true in Ef.
      destruct (Hfirst s Hin) as [Hle Hpos].
      assert (Heq : s_time first = s_time s) by lra.
      eexists; split; [reflexivity |].
      split; [apply Hpos; exact Heq | exact Heq].
    + apply Rleb_false in Ef.
      apply interpolate_scan_at_sample; [exact Hs | | exact Ef].
      destruct Hin as [<- | Hin]; [lra | exact Hin].
Qed.

Lemma interpolate_position_at_sample_witness :
  let p0 := mkSample 0 0 0 0 (Some TAXI) None None None (Some 0%Z) in
  let p1 := mkSample 0 0 10 7 (Some TAKEOFF) None None None (Some 1%Z) in
  exists p,
    _interpolate_position [p0; p1] (s_time p1) = Some p
    /\ position p = position p1 /\ s_time p = s_time p1.
Proof.
  intros p0 p1.
  apply interpolate_position_at_sample; [| right; left; reflexivity].
  repeat constructor; cbn; try lra.
Defined.

Lemma interpolate_scan_agree (l : list Sample) (t : R) :
  match interpolate_scan l t, Plot3DManager.interpolate_scan l t with
  | None, None => True
  | Some p, Some q =>
      position p = position q /\ s_time p = s_time q
      /\ (p = q
          \/ (s_phase p = None
              /\ exists a, In a l
                           /\ s_phase q = Some (Plot3DManager.phase_or_AUTO a)))
  | _, _ => False
  end.
Proof.
  induction l as [| p1 l IH]; [exact I |].
  destruct l as [| p2 l]; [exact I |].
  rewrite interpolate_scan_cons.
  change (Plot3DManager.interpolate_scan (p1 :: p2 :: l) t)
    with (if Rleb (s_time p1) t && Rleb t (s_time p2) then
            if Reqb (s_time p2 - s_time p1) 0 then Some p1
            else
              let ratio := (t - s_time p1) / (s_time p2 - s_time p1) in
              Some (mkSample (s_x p1 + ratio * (s_x p2 - s_x p1))
                             (s_y p1 + ratio * (s_y p2 - s_y p1))
                             (s_z p1 + ratio * (s_z p2 - s_z p1))
                             t (Some (Plot3DManager.phase_or_AUTO p1))
                             None None None None)
          else Plot3DManager.interpolate_scan (p2 :: l) t).
  destruct (Rleb (s_time p1) t && Rleb t (s_time p2)).
  - destruct (Reqb (s_time p2 - s_time p1) 0).
    + repeat split; left; reflexivity.
    + cbv zeta; repeat split; right; split; [reflexivity |].
      exists p1; split; [left; reflexivity | reflexivity].
  - destruct (interpolate_scan (p2 :: l) t) as [p |],
             (Plot3DManager.interpolate_scan (p2 :: l) t) as [q |];
      try exact IH.
    destruct IH as [Hpos [Ht [Heq | [Hph [a [Ha Hq]]]]]];
      (split; [exact Hpos | split; [exact Ht |]]); [left; exact Heq |].
    right; split; [exact Hph |]; exists a; split; [right; exact Ha | exact Hq].
Qed.

(** The two copies of [_interpolate_position] return a position together
    or not at all; the positions have the same coordinates and time; they
    are the same trajectory point, or the copy of the collision engine
    carries no phase where the copy of the plot manager carries the phase
    of a trajectory point, AUTO when that point has none. *)
Theorem interpolate_position_copies_agree (trajectory : list Sample)
  (t : R) :
  match _interpolate_position trajectory t,
        Plot3DManager._interpolate_position trajectory t with
  | None, None => True
  | Some p, Some q =>
      position p = position q /\ s_time p = s_time q
      /\ (p = q
          \/ (s_phase p = None
              /\ exists a, In a trajectory
                           /\ s_phase q = Some (Plot3DManager.phase_or_AUTO a)))
  | _, _ => False
  end.
Proof.
  destruct trajectory as [| first rest]; [exact I |].
  unfold _interpolate_position, Plot3DManager._interpolate_position.
  destruct (Rleb _ t); [repeat split; left; reflexivity |].
  destruct (Rleb t _); [repeat split; left; reflexivity |].
  apply interpolate_scan_agree.
Qed.

End InterpolationMore.

Section AnalysisMore.

Import CollisionAvoidanceSystem.

Variable config : SafetyConfig.







End AnalysisMore.



(* ================================================================== *)
(** * Further properties of the simulator *)
(* ================================================================== *)

Section Positions.

Import AdvancedDroneSimulator.

Lemma dict_set_fresh {V : Type} (d : Dict V) (k : string) (v : V) :
  ~ In k (dict_keys d) -> dict_set d k v = d ++ [(k, v)].
Proof.
  induction d as [| [k' v'] d IH]; cbn [dict_set dict_keys map fst In app];
    intros H; [reflexivity |].
  destruct (String.eqb_spec k' k) as [-> | Hne]; [elim H; left; reflexivity |].
  rewrite IH; [reflexivity | intros Hin; apply H; right; exact Hin].
Qed.

Lemma dict_get_app_fresh {V : Type} (d : Dict V) (k : string) (v : V)
  (k0 : string) :
  dict_get (d ++ [(k, v)]) k0
  = match dict_get d k0 with
    | Some v0 => Some v0
    | None => if String.eqb k k0 then Some v else None
    end.
Proof.
  induction d as [| [k' v'] d IH]; cbn [app dict_get]; [reflexivity |].
  destruct (String.eqb k' k0); [reflexivity | exact IH].
Qed.

Lemma get_drone_position_of (drones : Dict DroneData) (drone_id : string)
  (data : DroneData) (t : R) :
  dict_get drones drone_id = Some data ->
  _get_drone_position_at_time drones drone_id t
  = CollisionAvoidanceSystem._interpolate_position
      (trajectory data) (effective_time_scan (delays_of data) t).
Proof.
  intros E; unfold _get_drone_position_at_time; rewrite E.
  destruct (trajectory data); reflexivity.
Qed.

(** The loop of [_get_current_positions] over the remaining drones. *)
Lemma current_positions_fold (drones : Dict DroneData) (t : R)
  (items : Dict DroneData) :
  forall acc : Dict Sample,
    NoDup (dict_keys acc ++ dict_keys items) ->
    (forall k p, dict_get acc k = Some p ->
                 _get_drone_position_at_time drones k t = Some p) ->
    (forall k data, In (k, data) items -> dict_get drones k = Some data) ->
    let positions :=
      fold_left
        (fun positions item =>
           let '(drone_id, drone_data) := item in
           if is_empty (trajectory drone_data) then positions
           else
             match _get_drone_position_at_time drones drone_id t with
             | Some position => dict_set positions drone_id position
             | None => positions
             end)
        items acc in
    NoDup (dict_keys positions)
    /\ (forall k p, dict_get positions k = Some p ->
                    _get_drone_position_at_time drones k t = Some p)
    /\ (forall k, In k (dict_keys positions) <->
                  In k (dict_keys acc)
                  \/ exists data, In (k, data) items /\ trajectory data <> []).
Proof.
  induction items as [| [id data] items IH]; intros acc Hnd Hacc Hitems;
    cbv zeta; cbn [fold_left].
  - cbn [dict_keys map] in Hnd; rewrite app_nil_r in Hnd.
    split; [exact Hnd | split; [exact Hacc |]].
    intros k; split; [auto | intros [H | [d [[] _]]]; exact H].
  - assert (Hid : dict_get drones id = Some data)
      by (apply Hitems; left; reflexivity).
    assert (Hnd' : NoDup (dict_keys acc ++ dict_keys items)).
    { cbn [dict_keys map fst] in Hnd; apply NoDup_remove_1 in Hnd; exact Hnd. }
    assert (Hfresh : ~ In id (dict_keys acc)).
    { cbn [dict_keys map fst] in Hnd; apply NoDup_remove_2 in Hnd.
      intros H; apply Hnd, in_or_app; left; exact H. }
    assert (Hfresh' : ~ In id (dict_keys items)).
    { cbn [dict_keys map fst] in Hnd; apply NoDup_remove_2 in Hnd.
      intros H; apply Hnd, in_or_app; right; exact H. }
    assert (Hrest : forall k d, In (k, d) items -> dict_get drones k = Some d)
      by (intros k d H; apply Hitems; right; exact H).
    destruct (is_empty (trajectory data)) eqn:Ee.
    + destruct (IH acc Hnd' Hacc Hrest) as [H1 [H2 H3]].
      split; [exact H1 | split; [exact H2 |]].
      intros k; rewrite H3; split.
      * intros [H | [d [Hin Hne]]]; [left; exact H |].
        right; exists d; split; [right; exact Hin | exact Hne].
      * intros [H | [d [[[= <- <-] | Hin] Hne]]]; [left; exact H | |].
        -- destruct (trajectory data); [congruence | discriminate].
        -- right; exists d; auto.
    + apply is_empty_false in Ee.
      rewrite (get_drone_position_of drones id data t Hid).
      destruct (interpolate_total (trajectory data)
                  (effective_time_scan (delays_of data) t) Ee) as [p Ep].
      rewrite Ep, (dict_set_fresh acc id p Hfresh).
      destruct (IH (acc ++ [(id, p)])) as [H1 [H2 H3]].
      * unfold dict_keys in *; rewrite map_app, <- app_assoc; exact Hnd.
      * intros k q; rewrite dict_get_app_fresh.
        destruct (dict_get acc k) as [v0 |] eqn:Ek;
          [intros [= <-]; apply Hacc; exact Ek |].
        destruct (String.eqb_spec id k) as [<- | Hne]; [| discriminate].
        intros [= <-].
        rewrite (get_drone_position_of drones id data t Hid); exact Ep.
      * exact Hrest.
      * split; [exact H1 | split; [exact H2 |]].
        intros k; rewrite H3; unfold dict_keys; rewrite map_app, in_app_iff.
        cbn [map fst In]; split.
        -- intros [[H | [<- | []]] | [d [Hin Hne]]].
           ++ left; exact H.
           ++ right; exists data; split; [left; reflexivity | exact Ee].
           ++ right; exists d; split; [right; exact Hin | exact Hne].
        -- intros [H | [d [[[= <- <-] | Hin] Hne]]].
           ++ left; left; exact H.
           ++ left; right; left; reflexivity.
           ++ right; exists d; auto.
Qed.

(** The snapshot [_get_current_positions] builds from drones with unique
    identifiers: it has an entry exactly for the drones whose trajectory is
    not empty; the entry of a drone is its position at the current time
    with its loiter delays applied; and [check_collisions] on it returns
    normally. *)
Theorem current_positions_spec (config : SafetyConfig)
  (drones : Dict DroneData) (t : R) :
  NoDup (dict_keys drones) ->
  let positions := _get_current_positions drones t in
  NoDup (dict_keys positions)
  /\ (forall k, In k (dict_keys positions) <->
                exists data, dict_get drones k = Some data
                             /\ trajectory data <> [])
  /\ (forall k p, dict_get positions k = Some p <->
                  _get_drone_position_at_time drones k t = Some p)
  /\ exists warnings,
       CollisionAvoidanceSystem.check_collisions
         config (as_snapshot positions) t = Ok (warnings, []).
Proof.
  intros Hnd positions; unfold _get_current_positions in positions.
  assert (Hacc : forall k p, dict_get (@nil (string * Sample)) k = Some p ->
                   _get_drone_position_at_time drones k t = Some p)
    by (intros k p; discriminate).
  assert (Hitems : forall k data, In (k, data) drones ->
                     dict_get drones k = Some data)
    by (intros k data Hin; apply dict_get_In; assumption).
  destruct (current_positions_fold drones t drones [] Hnd Hacc Hitems)
    as [H1 [H2 H3]].
  fold positions in H1, H2, H3.
  assert (Hkeys : forall k, In k (dict_keys positions) <->
                    exists data, dict_get drones k = Some data
                                 /\ trajectory data <> []).
  { intros k; rewrite H3; split.
    - intros [[] | [d [Hin Hne]]]; exists d; split; [| exact Hne].
      apply dict_get_In; assumption.
    - intros [d [Hd Hne]]; right; exists d; split; [| exact Hne].
      apply dict_get_In in Hd; assumption. }
  split; [exact H1 | split; [exact Hkeys | split]].
  - intros k p; split; [apply H2 |].
    intros Hp; unfold _get_drone_position_at_time in Hp.
    destruct (dict_get drones k) as [d |] eqn:Ed; [| discriminate].
    destruct (is_empty (trajectory d)) eqn:Ee; [discriminate |].
    apply is_empty_false in Ee.
    assert (Hk : In k (dict_keys positions))
      by (apply Hkeys; exists d; auto).
    apply dict_get_keys in Hk; destruct Hk as [q Eq].
    pose proof (H2 k q Eq) as Hq.
    unfold _get_drone_position_at_time in Hq; rewrite Ed in Hq.
    destruct (is_empty (trajectory d)); [discriminate |].
    congruence.
  - destruct (check_collisions_In config (as_snapshot positions) t)
      as [warnings [E _]]; [| exists warnings; exact E].
    unfold as_snapshot, dict_keys; rewrite map_map; cbn [fst].
    exact H1.
Qed.

Lemma current_positions_spec_witness :
  let traj := [mkSample 0 0 0 0 (Some TAXI) None None None (Some 0%Z);
               mkSample 0 0 10 7 (Some TAKEOFF) None None None (Some 1%Z)] in
  let drones := [("Drone_1"%string, mkDroneData [] traj (Some []));
                 ("Drone_2"%string, mkDroneData [] [] (Some []))] in
  In "Drone_1"%string (dict_keys (_get_current_positions drones 3))
  /\ ~ In "Drone_2"%string (dict_keys (_get_current_positions drones 3)).
Proof.
  intros traj drones.
  destruct (current_positions_spec SafetyConfig_default drones 3)
    as [_ [Hkeys _]].
  - repeat constructor; cbn; intuition discriminate.
  - split.
    + apply Hkeys; eexists; split; [reflexivity | discriminate].
    + intros H; apply Hkeys in H; destruct H as [d [[= <-] Hne]].
      apply Hne; reflexivity.
Defined.

End Positions.

Section MaxTime.

Import AdvancedDroneSimulator.



End MaxTime.

Section LoiterMore.

Import AdvancedDroneSimulator.

(** A loiter delay holds the drone in place and then shifts its
    trajectory: with the first delay of the list that has started by [t],
    of a duration that is not negative, the drone is at its position of
    the start time until the duration has passed, and at its position of
    [t - duration] afterwards. *)
Theorem loiter_holds_position (drones : Dict DroneData) (drone_id : string)
  (data : DroneData) (t : R) (pre : list LoiterDelay) (delay : LoiterDelay)
  (post : list LoiterDelay) :
  dict_get drones drone_id = Some data ->
  delays_of data = pre ++ delay :: post ->
  (forall d, In d pre -> t < start_time d) ->
  start_time delay <= t ->
  0 <= duration delay ->
  (t <= start_time delay + duration delay ->
   _get_drone_position_at_time drones drone_id t
   = CollisionAvoidanceSystem._interpolate_position
       (trajectory data) (start_time delay))
  /\ (start_time delay + duration delay <= t ->
      _get_drone_position_at_time drones drone_id t
      = CollisionAvoidanceSystem._interpolate_position
          (trajectory data) (t - duration delay)).
Proof.
  intros Hget Hdelays Hpre Hstart Hdur.
  rewrite (get_drone_position_of drones drone_id data t Hget), Hdelays.
  rewrite (effective_time_scan_first pre delay post t Hpre Hstart).
  split; intros H; f_equal.
  - apply Rmax_left; lra.
  - apply Rmax_right; lra.
Qed.

Lemma loiter_holds_position_witness :
  let traj := [mkSample 0 0 0 0 (Some TAXI) None None None (Some 0%Z);
               mkSample 0 0 10 7 (Some TAKEOFF) None None None (Some 1%Z)] in
  let data := mkDroneData [] traj (Some [mkLoiterDelay 3 4]) in
  _get_drone_position_at_time [("Drone_1"%string, data)] "Drone_1" 5
  = CollisionAvoidanceSystem._interpolate_position traj 3.
Proof.
  intros traj data.
  apply (proj1 (loiter_holds_position [("Drone_1"%string, data)] "Drone_1"
                  data 5 [] (mkLoiterDelay 3 4) [] eq_refl eq_refl
                  (fun d (H : In d []) => match H with end)
                  ltac:(cbn; lra) ltac:(cbn; lra))).
  cbn; lra.
Defined.

Lemma dict_get_map {V W : Type} (f : V -> W) (d : Dict V) (k : string) :
  dict_get (map (fun item : string * V => let '(id, v) := item in (id, f v)) d)
           k
  = option_map f (dict_get d k).
Proof.
  induction d as [| [k' v] d IH]; cbn [map dict_get]; [reflexivity |].
  destruct (String.eqb k' k); [reflexivity | exact IH].
Qed.

(** After the reset loop every drone keeps its waypoints and trajectory
    and has no delay, so that its position at [t] is its trajectory
    interpolated at [t] itself. *)
Theorem reset_clears_loiter (drones : Dict DroneData) (drone_id : string)
  (t : R) :
  dict_keys (reset_loiter_delays drones) = dict_keys drones
  /\ dict_get (reset_loiter_delays drones) drone_id
     = option_map (fun data => mkDroneData (waypoints data) (trajectory data)
                                           (Some []))
                  (dict_get drones drone_id)
  /\ _get_drone_position_at_time (reset_loiter_delays drones) drone_id t
     = match dict_get drones drone_id with
       | Some data =>
           CollisionAvoidanceSystem._interpolate_position (trajectory data) t
       | None => None
       end.
Proof.
  assert (Hget : dict_get (reset_loiter_delays drones) drone_id
                 = option_map
                     (fun data => mkDroneData (waypoints data)
                                              (trajectory data) (Some []))
                     (dict_get drones drone_id)).
  { unfold reset_loiter_delays.
    apply (dict_get_map (fun data => mkDroneData (waypoints data)
                                                 (trajectory data) (Some []))). }
  split; [| split; [exact Hget |]].
  - unfold reset_loiter_delays, dict_keys; rewrite map_map.
    apply map_ext; intros [id d]; reflexivity.
  - unfold _get_drone_position_at_time; rewrite Hget.
    destruct (dict_get drones drone_id) as [data |]; [| reflexivity].
    cbn [option_map trajectory loiter_delays effective_time_scan].
    destruct (trajectory data); reflexivity.
Qed.

End LoiterMore.

(* ================================================================== *)
(** * The test mission and the synthesized trajectory *)
(* ================================================================== *)

Section TestMission.

Import EarthCoordinateSystem AdvancedDroneSimulator.

Lemma project_set (olat olon k lat lon : R) :
  project (mkState (Some olat) (Some olon) (Some k)) lat lon
  = ((lon - olon) * k, (lat - olat) * METERS_PER_DEGREE_LAT).
Proof. reflexivity. Qed.

Lemma waypoint_position_back (olat olon k x y z : R) (cmd : Z) :
  k <> 0 ->
  waypoint_position (project (mkState (Some olat) (Some olon) (Some k)))
    (mkWaypoint (olat + y / METERS_PER_DEGREE_LAT) (olon + x / k) z cmd)
  = (x, y, z).
Proof.
  intros Hk; unfold waypoint_position; cbn [wp_lat wp_lon wp_alt].
  rewrite project_set; pose proof METERS_PER_DEGREE_LAT_neq_0.
  repeat f_equal; field; assumption.
Qed.

Lemma append_mission_points_run (olat olon k : R)
  (mission_points : list (R * R * R)) :
  k <> 0 ->
  forall waypoints,
    append_mission_points mission_points waypoints
      (mkState (Some olat) (Some olon) (Some k))
    = mkOutcome
        (Ok (waypoints
             ++ map (fun p : R * R * R =>
                       let '(mx, my, mz) := p in
                       mkWaypoint (olat + my / METERS_PER_DEGREE_LAT)
                                  (olon + mx / k) mz 16)
                    mission_points))
        (mkState (Some olat) (Some olon) (Some k)) [].
Proof.
  intros Hk; induction mission_points as [| [[mx my] mz] rest IH];
    intros waypoints; cbn [append_mission_points map].
  - rewrite app_nil_r; reflexivity.
  - erewrite bind_run;
      [| apply (meters_to_lat_lon_set _ _ _ _ _ Hk) | apply IH].
    rewrite <- app_assoc; reflexivity.
Qed.

(** The test mission of a drone.  After [set_origin] at a latitude whose
    cosine is not zero and for a drone index from 0 to 3,
    [_generate_test_waypoints] returns the home waypoint followed by five
    navigation waypoints, leaves the coordinate system as it is and logs
    nothing; converted back to local coordinates the five waypoints are
    the corners of an 80 m square at 15 m altitude, starting and ending
    at the base point shifted by the offset of the drone's region. *)
Theorem generate_test_waypoints_square (s0 : state)
  (lat0 lon0 : R) (drone_index : Z)
  (takeoff_lat takeoff_lon base_lat base_lon : R) :
  cos (radians lat0) <> 0 ->
  (0 <= drone_index < 4)%Z ->
  let s := state_after (set_origin lat0 lon0 s0) in
  let base := project s base_lat base_lon in
  exists ox oy w1 w2 w3 w4 w5,
    nth_error [(-100, -50); (100, -50); (-100, 50); (100, 50)]
              (Z.to_nat drone_index) = Some (ox, oy)
    /\ _generate_test_waypoints drone_index takeoff_lat takeoff_lon
                                base_lat base_lon s
       = mkOutcome (Ok [mkWaypoint takeoff_lat takeoff_lon 0 179;
                        w1; w2; w3; w4; w5]) s []
    /\ map (waypoint_position (project s)) [w1; w2; w3; w4; w5]
       = [(fst base + ox, snd base + oy, 15);
          (fst base + ox + 80, snd base + oy, 15);
          (fst base + ox + 80, snd base + oy + 80, 15);
          (fst base + ox, snd base + oy + 80, 15);
          (fst base + ox, snd base + oy, 15)]
    /\ Forall (fun w => wp_cmd w = 16%Z) [w1; w2; w3; w4; w5].
Proof.
  intros Hcos Hidx s base; subst base s; rewrite set_origin_state.
  set (k := METERS_PER_DEGREE_LAT * cos (radians lat0)).
  assert (Hk : k <> 0).
  { unfold k; apply Rmult_integral_contrapositive_currified;
      [apply METERS_PER_DEGREE_LAT_neq_0 | exact Hcos]. }
  rewrite project_set; cbn [fst snd].
  assert (Hcase : (drone_index = 0 \/ drone_index = 1 \/ drone_index = 2
                   \/ drone_index = 3)%Z) by lia.
  assert (Hrun : forall ox oy,
            list_getitem [(-100, -50); (100, -50); (-100, 50); (100, 50)]
                         drone_index = Ok (ox, oy) ->
            exists w1 w2 w3 w4 w5,
              _generate_test_waypoints drone_index takeoff_lat takeoff_lon
                base_lat base_lon (mkState (Some lat0) (Some lon0) (Some k))
              = mkOutcome (Ok [mkWaypoint takeoff_lat takeoff_lon 0 179;
                               w1; w2; w3; w4; w5])
                          (mkState (Some lat0) (Some lon0) (Some k)) []
              /\ map (waypoint_position
                        (project (mkState (Some lat0) (Some lon0) (Some k))))
                     [w1; w2; w3; w4; w5]
                 = [((base_lon - lon0) * k + ox,
                     (base_lat - lat0) * METERS_PER_DEGREE_LAT + oy, 15);
                    ((base_lon - lon0) * k + ox + 80,
                     (base_lat - lat0) * METERS_PER_DEGREE_LAT + oy, 15);
                    ((base_lon - lon0) * k + ox + 80,
                     (base_lat - lat0) * METERS_PER_DEGREE_LAT + oy + 80, 15);
                    ((base_lon - lon0) * k + ox,
                     (base_lat - lat0) * METERS_PER_DEGREE_LAT + oy + 80, 15);
                    ((base_lon - lon0) * k + ox,
                     (base_lat - lat0) * METERS_PER_DEGREE_LAT + oy, 15)]
              /\ Forall (fun w => wp_cmd w = 16%Z) [w1; w2; w3; w4; w5]).
  { intros ox oy Eg.
    unfold _generate_test_waypoints; cbv zeta.
    do 5 eexists; split; [| split].
    - erewrite bind_run;
        [| unfold lift; rewrite Eg; reflexivity
         | cbv beta iota; erewrite bind_run;
           [| apply lat_lon_to_meters_set
            | cbv beta iota; apply (append_mission_points_run _ _ _ _ Hk)];
           reflexivity ].
      cbn [app map]; reflexivity.
    - cbn [map]; rewrite !(waypoint_position_back _ _ _ _ _ _ _ Hk).
      reflexivity.
    - repeat constructor. }
  destruct Hcase as [-> | [-> | [-> | ->]]];
    [ destruct (Hrun (-100) (-50) eq_refl) as [w1 [w2 [w3 [w4 [w5 H]]]]];
      exists (-100), (-50), w1, w2, w3, w4, w5
    | destruct (Hrun 100 (-50) eq_refl) as [w1 [w2 [w3 [w4 [w5 H]]]]];
      exists 100, (-50), w1, w2, w3, w4, w5
    | destruct (Hrun (-100) 50 eq_refl) as [w1 [w2 [w3 [w4 [w5 H]]]]];
      exists (-100), 50, w1, w2, w3, w4, w5
    | destruct (Hrun 100 50 eq_refl) as [w1 [w2 [w3 [w4 [w5 H]]]]];
      exists 100, 50, w1, w2, w3, w4, w5 ];
    (split; [reflexivity | exact H]).
Qed.

Lemma generate_test_waypoints_square_witness :
  let s := state_after (set_origin 0 121 __init__) in
  exists w1 w2 w3 w4 w5,
    value (_generate_test_waypoints 3 0 121 0 121 s)
    = Ok [mkWaypoint 0 121 0 179; w1; w2; w3; w4; w5]
    /\ waypoint_position (project s) w1 = waypoint_position (project s) w5.
Proof.
  intros s.
  destruct (generate_test_waypoints_square __init__ 0 121 3 0 121 0 121)
    as [ox [oy [w1 [w2 [w3 [w4 [w5 [_ [E [Hmap _]]]]]]]]]].
  - rewrite radians_0, cos_0; lra.
  - lia.
  - exists w1, w2, w3, w4, w5; fold s in E, Hmap; split.
    + rewrite E; reflexivity.
    + cbn [map] in Hmap; congruence.
Defined.

(** The region table has four entries: an index from -4 to -1 counts from
    its end, any other index outside 0..3 raises [IndexError] before the
    coordinate system is used. *)
Theorem generate_test_waypoints_index (self : state) (drone_index : Z)
  (takeoff_lat takeoff_lon base_lat base_lon : R) :
  ((drone_index < -4 \/ 4 <= drone_index)%Z ->
   _generate_test_waypoints drone_index takeoff_lat takeoff_lon
                            base_lat base_lon self
   = mkOutcome (Raise IndexError) self [])
  /\ ((-4 <= drone_index < 0)%Z ->
      _generate_test_waypoints drone_index takeoff_lat takeoff_lon
                               base_lat base_lon self
      = _generate_test_waypoints (drone_index + 4) takeoff_lat takeoff_lon
                                 base_lat base_lon self).
Proof.
  split; intros H; unfold _generate_test_waypoints.
  - assert (E : list_getitem [(-100, -50); (100, -50); (-100, 50); (100, 50)]
                  drone_index = Raise IndexError).
    { unfold list_getitem; cbn [List.length Z.of_nat Pos.of_succ_nat Pos.succ].
      destruct (drone_index <? 0)%Z eqn:En.
      - apply Z.ltb_lt in En.
        assert (E0 : (0 <=? drone_index + 4)%Z = false)
          by (apply Z.leb_gt; lia).
        rewrite E0; reflexivity.
      - apply Z.ltb_ge in En.
        assert (E0 : (drone_index <? 4)%Z = false) by (apply Z.ltb_ge; lia).
        rewrite E0, andb_false_r; reflexivity. }
    unfold bind at 1, lift at 1; rewrite E; reflexivity.
  - assert (E : list_getitem [(-100, -50); (100, -50); (-100, 50); (100, 50)]
                  drone_index
                = list_getitem [(-100, -50); (100, -50); (-100, 50); (100, 50)]
                    (drone_index + 4)).
    { assert (Hc : (drone_index = -4 \/ drone_index = -3
                    \/ drone_index = -2 \/ drone_index = -1)%Z) by lia.
      destruct Hc as [-> | [-> | [-> | ->]]]; reflexivity. }
    rewrite E; reflexivity.
Qed.

End TestMission.

Section SynthesisMore.

Import EarthCoordinateSystem AdvancedDroneSimulator.

Lemma calculate_realistic_trajectory_outcome (self : state)
  (takeoff_config : TakeoffConfig) (home_wp wp1 : Waypoint)
  (rest : list Waypoint) (drone_id : string) :
  coherent self ->
  exists logs,
    _calculate_realistic_trajectory takeoff_config
      (home_wp :: wp1 :: rest) drone_id self
    = mkOutcome
        (Ok (ground_samples takeoff_config home_wp
               (fst (project self (wp_lat home_wp) (wp_lon home_wp)))
               (snd (project self (wp_lat home_wp) (wp_lon home_wp)))
             ++ auto_samples (project self) DEFAULT_CRUISE_SPEED
                  (enumerate 2 (wp1 :: rest))
                  (waypoint_position (project self)
                     (mkWaypoint (wp_lat home_wp) (wp_lon home_wp)
                                 (takeoff_altitude takeoff_config) 0))
                  (2 + 5 + hover_time takeoff_config)))
        self logs.
Proof.
  intros Hc.
  destruct (lat_lon_to_meters_coherent self (wp_lat home_wp) (wp_lon home_wp)
              Hc)
    as [logs1 E1].
  unfold _calculate_realistic_trajectory, waypoint_position.
  cbn [wp_lat wp_lon wp_alt]; cbv zeta.
  destruct (project self (wp_lat home_wp) (wp_lon home_wp)) as [home_x home_y].
  cbn [fst snd].
  destruct (auto_mission_run self DEFAULT_CRUISE_SPEED
              (enumerate 2 (wp1 :: rest)) Hc
              (home_x, home_y, takeoff_altitude takeoff_config)
              (2 + 5 + hover_time takeoff_config)
              (ground_samples takeoff_config home_wp home_x home_y))
    as [logs2 E2].
  eexists.
  erewrite bind_run; [| exact E1 | cbv beta iota].
  2: { erewrite bind_run; [| exact E2 | cbv beta iota].
       2: { unfold bind, log, ret; cbn [value state_after emitted].
            reflexivity. }
       reflexivity. }
  reflexivity.
Qed.

Lemma ground_samples_length (takeoff_config : TakeoffConfig)
  (home_wp : Waypoint) (home_x home_y : R) :
  List.length (ground_samples takeoff_config home_wp home_x home_y) = 22%nat.
Proof. reflexivity. Qed.

Lemma leg_samples_last (proj : R -> R -> R * R) (speed : R)
  (prev : R * R * R) (total_time : R) (wp_idx : Z) (wp : Waypoint) :
  exists interps,
    leg_samples proj speed prev total_time wp_idx wp
    = interps
      ++ [mkSample (fst (fst (waypoint_position proj wp)))
                   (snd (fst (waypoint_position proj wp)))
                   (snd (waypoint_position proj wp))
                   (total_time
                    + distance_3d prev (waypoint_position proj wp) / speed)
                   (Some AUTO)
                   (Some (wp_lat wp)) (Some (wp_lon wp)) (Some (wp_alt wp))
                   (Some wp_idx)].
Proof.
  unfold leg_samples.
  destruct prev as [[prev_x prev_y] prev_z].
  destruct (waypoint_position proj wp) as [[x y] z]; cbn [fst snd].
  eexists; reflexivity.
Qed.

Lemma auto_samples_length (proj : R -> R -> R * R) (speed : R)
  (wps : list Waypoint) :
  forall (idx : Z) (prev : R * R * R) (total_time : R),
    (List.length wps
     <= List.length
          (auto_samples proj speed (enumerate idx wps) prev total_time))%nat.
Proof.
  induction wps as [| wp rest IH]; intros idx prev total_time;
    cbn [enumerate auto_samples List.length]; [lia |].
  destruct (leg_samples_last proj speed prev total_time idx wp) as [pre ->].
  rewrite !length_app; cbn [List.length].
  specialize (IH (idx + 1)%Z (waypoint_position proj wp)
                 (total_time
                  + distance_3d prev (waypoint_position proj wp) / speed)).
  lia.
Qed.

Lemma auto_samples_last (proj : R -> R -> R * R) (speed : R)
  (mid : list Waypoint) (last_wp : Waypoint) :
  forall (idx : Z) (prev : R * R * R) (total_time : R),
  exists before,
    auto_samples proj speed (enumerate idx (mid ++ [last_wp])) prev total_time
    = before
      ++ [mkSample (fst (fst (waypoint_position proj last_wp)))
                   (snd (fst (waypoint_position proj last_wp)))
                   (snd (waypoint_position proj last_wp))
                   (auto_end_time proj speed
                      (enumerate idx (mid ++ [last_wp])) prev total_time)
                   (Some AUTO)
                   (Some (wp_lat last_wp)) (Some (wp_lon last_wp))
                   (Some (wp_alt last_wp))
                   (Some (idx + Z.of_nat (List.length mid))%Z)].
Proof.
  induction mid as [| wp mid IH]; intros idx prev total_time;
    cbn [app enumerate auto_samples auto_end_time List.length].
  - destruct (leg_samples_last proj speed prev total_time idx last_wp)
      as [pre ->].
    exists pre; rewrite app_nil_r, Z.add_0_r; reflexivity.
  - destruct (IH (idx + 1)%Z (waypoint_position proj wp)
                 (total_time
                  + distance_3d prev (waypoint_position proj wp) / speed))
      as [before ->].
    eexists; rewrite app_assoc; do 4 f_equal; lia.
Qed.

Lemma auto_end_time_ge (proj : R -> R -> R * R) (speed : R)
  (wps : list (Z * Waypoint)) :
  0 < speed ->
  forall (prev : R * R * R) (total_time : R),
    total_time <= auto_end_time proj speed wps prev total_time.
Proof.
  intros Hs; induction wps as [| [idx wp] rest IH]; intros prev total_time;
    cbn [auto_end_time]; [lra |].
  eapply Rle_trans; [| apply IH].
  pose proof (distance_3d_nonneg prev (waypoint_position proj wp)).
  assert (0 <= distance_3d prev (waypoint_position proj wp) / speed).
  { apply Rmult_le_pos; [assumption |].
    left; apply Rinv_0_lt_compat; exact Hs. }
  lra.
Qed.

(** The synthesizer never fails and never changes the coordinate system.
    In a state [__init__] or [set_origin] leaves,
    [_calculate_realistic_trajectory] returns a trajectory with the state
    as it was; the trajectory is empty exactly when there are fewer than
    two waypoints, and otherwise holds the 22 points of the ground phases
    and at least one point for every waypoint after the first. *)
Theorem synthesizer_outcome (self : state) (takeoff_config : TakeoffConfig)
  (waypoints : list Waypoint) (drone_id : string) :
  coherent self ->
  exists trajectory logs,
    _calculate_realistic_trajectory takeoff_config waypoints drone_id self
    = mkOutcome (Ok trajectory) self logs
    /\ (trajectory = [] <-> (List.length waypoints < 2)%nat)
    /\ ((2 <= List.length waypoints)%nat ->
        (21 + List.length waypoints <= List.length trajectory)%nat).
Proof.
  intros Hc.
  destruct waypoints as [| home_wp [| wp1 rest]].
  - exists [], []; repeat split; cbn [List.length]; intros; try lia.
  - exists [], []; repeat split; cbn [List.length]; intros; try lia.
  - destruct (calculate_realistic_trajectory_outcome self takeoff_config
                home_wp wp1 rest drone_id Hc) as [logs E].
    eexists; exists logs; split; [exact E |].
    pose proof (auto_samples_length (project self) DEFAULT_CRUISE_SPEED
                  (wp1 :: rest) 2
                  (waypoint_position (project self)
                     (mkWaypoint (wp_lat home_wp) (wp_lon home_wp)
                                 (takeoff_altitude takeoff_config) 0))
                  (2 + 5 + hover_time takeoff_config)) as Hlen.
    cbn [List.length] in Hlen |- *.
    split; [split |].
    + intros E0; apply (f_equal (@List.length Sample)) in E0.
      rewrite length_app, ground_samples_length in E0.
      cbn [List.length] in E0; lia.
    + lia.
    + intros _; rewrite length_app, ground_samples_length; lia.
Qed.

Lemma synthesizer_outcome_witness :
  exists trajectory logs,
    _calculate_realistic_trajectory TakeoffConfig_default
      [mkWaypoint 0 0 0 179; mkWaypoint 0 0 15 16] "Drone_1" __init__
    = mkOutcome (Ok trajectory) __init__ logs
    /\ (23 <= List.length trajectory)%nat.
Proof.
  destruct (synthesizer_outcome __init__ TakeoffConfig_default
              [mkWaypoint 0 0 0 179; mkWaypoint 0 0 15 16] "Drone_1"
              coherent_init)
    as [trajectory [logs [E [_ H]]]].
  exists trajectory, logs; split; [exact E |].
  apply H; cbn; lia.
Defined.

(** Where a synthesized trajectory ends.  For a mission of at least two
    waypoints the last trajectory point is the last waypoint: its local
    position, its latitude, longitude and altitude, the phase AUTO and
    the waypoint index [len(waypoints)]; its time is not before the end of
    the hover phase. *)
Theorem trajectory_ends_at_last_waypoint (self : state)
  (takeoff_config : TakeoffConfig) (home_wp : Waypoint)
  (mid : list Waypoint) (last_wp : Waypoint) (drone_id : string) :
  coherent self ->
  let waypoints := home_wp :: mid ++ [last_wp] in
  exists trajectory final,
    value (_calculate_realistic_trajectory takeoff_config waypoints
             drone_id self) = Ok trajectory
    /\ last_item trajectory = Ok final
    /\ position final = waypoint_position (project self) last_wp
    /\ s_phase final = Some AUTO
    /\ s_waypoint_index final = Some (Z.of_nat (List.length waypoints))
    /\ s_lat final = Some (wp_lat last_wp)
    /\ s_lon final = Some (wp_lon last_wp)
    /\ s_alt final = Some (wp_alt last_wp)
    /\ 2 + 5 + hover_time takeoff_config <= s_time final.
Proof.
  intros Hc waypoints; subst waypoints.
  assert (Hshape : exists wp1 rest, mid ++ [last_wp] = wp1 :: rest).
  { destruct mid as [| a l]; cbn [app]; eauto. }
  destruct Hshape as [wp1 [rest Hshape]].
  destruct (calculate_realistic_trajectory_outcome self takeoff_config
              home_wp wp1 rest drone_id Hc) as [logs E].
  rewrite Hshape, E; cbn [value]; rewrite <- Hshape.
  set (prev := waypoint_position _ _).
  destruct (auto_samples_last (project self) DEFAULT_CRUISE_SPEED mid last_wp
              2 prev (2 + 5 + hover_time takeoff_config)) as [before ->].
  eexists; eexists; split; [reflexivity |].
  split.
  { unfold last_item; rewrite app_assoc, rev_app_distr; reflexivity. }
  cbn [position s_x s_y s_z s_phase s_waypoint_index s_lat s_lon s_alt
       s_time].
  repeat split.
  - destruct (waypoint_position (project self) last_wp) as [[x y] z].
    reflexivity.
  - f_equal; cbn [List.length]; rewrite length_app; cbn [List.length]; lia.
  - apply auto_end_time_ge; unfold DEFAULT_CRUISE_SPEED; lra.
Qed.

Lemma trajectory_ends_at_last_waypoint_witness :
  exists trajectory final,
    value (_calculate_realistic_trajectory TakeoffConfig_default
             [mkWaypoint 0 0 0 179; mkWaypoint 0 0 15 16;
              mkWaypoint 0 0 20 16] "Drone_1" __init__) = Ok trajectory
    /\ last_item trajectory = Ok final
    /\ position final = (0, 0, 20)
    /\ s_waypoint_index final = Some 3%Z.
Proof.
  destruct (trajectory_ends_at_last_waypoint __init__ TakeoffConfig_default
              (mkWaypoint 0 0 0 179) [mkWaypoint 0 0 15 16]
              (mkWaypoint 0 0 20 16) "Drone_1" coherent_init)
    as [trajectory [final [E [El [Hp [_ [Hi _]]]]]]].
  exists trajectory, final; repeat split; assumption.
Defined.

End SynthesisMore.

Section GroundPhases.

Import EarthCoordinateSystem AdvancedDroneSimulator.

Lemma ground_samples_nth (takeoff_config : TakeoffConfig)
  (home_wp : Waypoint) (home_x home_y : R) (i : nat) :
  (i < 20)%nat ->
  nth_error (ground_samples takeoff_config home_wp home_x home_y) (S i)
  = Some (takeoff_sample takeoff_config home_wp home_x home_y 2 5
            (Z.of_nat i, 2 + INR i * ((2 + 5 - 2) / INR (20 - 1)))).
Proof.
  intros Hi; unfold ground_samples, np_linspace.
  rewrite enumerate_map_seq, map_map.
  cbn [app nth_error].
  rewrite nth_error_app1 by (rewrite length_map, length_seq; exact Hi).
  rewrite nth_error_map, nth_error_seq.
  destruct (Nat.ltb_spec i 20) as [_ | Hge]; [| lia].
  cbn [option_map Nat.add]; do 3 f_equal; lia.
Qed.

(** The ground phases of a synthesized trajectory.  For a mission of at
    least two waypoints the trajectory starts with 22 points above the
    home position: the taxi point at time 0 on the ground, twenty takeoff
    points at the times [2 + 5 i / 19] whose altitude [i / 19] of the
    takeoff altitude grows linearly from 0 to the takeoff altitude (the
    first ten with waypoint index 0, the others with 1), and the hover
    point at the takeoff altitude at time [7 + hover_time]. *)
Theorem ground_phase_points (self : state) (takeoff_config : TakeoffConfig)
  (home_wp wp1 : Waypoint) (rest : list Waypoint) (drone_id : string) :
  coherent self ->
  let home := project self (wp_lat home_wp) (wp_lon home_wp) in
  let alt := takeoff_altitude takeoff_config in
  exists trajectory,
    value (_calculate_realistic_trajectory takeoff_config
             (home_wp :: wp1 :: rest) drone_id self) = Ok trajectory
    /\ (exists taxi,
          nth_error trajectory 0 = Some taxi
          /\ position taxi = (fst home, snd home, 0)
          /\ s_time taxi = 0
          /\ s_phase taxi = Some TAXI
          /\ s_waypoint_index taxi = Some 0%Z)
    /\ (forall i, (i < 20)%nat ->
          exists climb,
            nth_error trajectory (S i) = Some climb
            /\ position climb = (fst home, snd home, INR i / 19 * alt)
            /\ s_time climb = 2 + 5 * INR i / 19
            /\ s_phase climb = Some TAKEOFF
            /\ s_waypoint_index climb
               = Some (if (i <? 10)%nat then 0%Z else 1%Z))
    /\ (exists hover,
          nth_error trajectory 21 = Some hover
          /\ position hover = (fst home, snd home, alt)
          /\ s_time hover = 2 + 5 + hover_time takeoff_config
          /\ s_phase hover = Some HOVER
          /\ s_waypoint_index hover = Some 1%Z).
Proof.
  intros Hc home alt.
  destruct (calculate_realistic_trajectory_outcome self takeoff_config
              home_wp wp1 rest drone_id Hc) as [logs E].
  rewrite E; cbn [value]; fold home.
  eexists; split; [reflexivity |].
  split; [| split].
  - eexists; split; [reflexivity |]; repeat split.
  - intros i Hi.
    rewrite nth_error_app1 by (rewrite ground_samples_length; lia).
    rewrite (ground_samples_nth _ _ _ _ i Hi).
    eexists; split; [reflexivity |].
    assert (E19 : INR (20 - 1) = 19) by (cbn; lra).
    unfold takeoff_sample, position; cbn [s_x s_y s_z s_time s_phase
                                           s_waypoint_index].
    rewrite E19; fold alt.
    split; [f_equal; field |].
    split; [field |].
    split; [reflexivity |].
    f_equal.
    destruct (Nat.ltb_spec i 10) as [Hlt | Hge];
      [ replace (Z.of_nat i <? 10)%Z with true
          by (symmetry; apply Z.ltb_lt; lia)
      | replace (Z.of_nat i <? 10)%Z with false
          by (symmetry; apply Z.ltb_ge; lia) ];
      reflexivity.
  - eexists; split; [reflexivity |]; repeat split.
Qed.

Lemma ground_phase_points_witness :
  exists trajectory climb,
    value (_calculate_realistic_trajectory TakeoffConfig_default
             [mkWaypoint 0 0 0 179; mkWaypoint 0 0 15 16] "Drone_1"
             __init__) = Ok trajectory
    /\ nth_error trajectory 20 = Some climb
    /\ position climb = (0, 0, INR 19 / 19 * 10).
Proof.
  destruct (ground_phase_points __init__ TakeoffConfig_default
              (mkWaypoint 0 0 0 179) (mkWaypoint 0 0 15 16) [] "Drone_1"
              coherent_init)
    as [trajectory [E [_ [H _]]]].
  destruct (H 19%nat ltac:(lia)) as [climb [En [Hp _]]].
  exists trajectory, climb; repeat split; assumption.
Defined.

End GroundPhases.

Section WithoutOrigin.

Import EarthCoordinateSystem AdvancedDroneSimulator.

Lemma lat_lon_to_meters_unset (self : state) (lat lon : R) :
  is_origin_set self = false ->
  lat_lon_to_meters lat lon self
  = mkOutcome (Ok (0, 0)) self [mkLog WARNING OriginNotSet]
  /\ project self lat lon = (0, 0).
Proof.
  destruct self as [[olat |] [olon |] k]; cbn; intros H;
    try discriminate; split; reflexivity.
Qed.

Lemma auto_mission_unset (self : state) (speed : R)
  (wps : list (Z * Waypoint)) :
  is_origin_set self = false ->
  forall (prev : R * R * R) (total_time : R) (trajectory : list Sample),
    auto_mission speed wps prev total_time trajectory self
    = mkOutcome
        (Ok (trajectory
             ++ auto_samples (project self) speed wps prev total_time,
             auto_end_time (project self) speed wps prev total_time))
        self (repeat (mkLog WARNING OriginNotSet) (List.length wps)).
Proof.
  intros Hu; induction wps as [| [wp_idx wp] rest IH];
    intros [[prev_x prev_y] prev_z] total_time trajectory.
  - cbn [auto_mission auto_samples auto_end_time List.length repeat].
    rewrite app_nil_r; reflexivity.
  - destruct (lat_lon_to_meters_unset self (wp_lat wp) (wp_lon wp) Hu)
      as [E1 Ep].
    cbn [auto_mission auto_samples auto_end_time List.length repeat].
    unfold waypoint_position, leg_samples, waypoint_position.
    rewrite Ep; cbn [distance_3d].
    erewrite bind_run; [| exact E1 | cbv beta iota zeta; apply IH].
    cbn [app]; f_equal; f_equal; f_equal.
    destruct (Rltb 10 _); rewrite <- !app_assoc; reflexivity.
Qed.

Lemma auto_samples_at_zero (proj : R -> R -> R * R) (speed : R)
  (wps : list (Z * Waypoint)) :
  (forall lat lon, proj lat lon = (0, 0)) ->
  forall (prev_z total_time : R),
    Forall (fun s => s_x s = 0 /\ s_y s = 0)
           (auto_samples proj speed wps (0, 0, prev_z) total_time).
Proof.
  intros Hp; induction wps as [| [wp_idx wp] rest IH];
    intros prev_z total_time; cbn [auto_samples]; [constructor |].
  unfold waypoint_position, leg_samples, waypoint_position.
  rewrite Hp; apply Forall_app; split; [| apply IH].
  apply Forall_app; split.
  - destruct (Rltb 10 _); [| constructor].
    apply Forall_forall; intros s Hin.
    apply in_map_iff in Hin; destruct Hin as [seg [<- _]].
    unfold interpolated_sample; cbn [s_x s_y]; split; ring.
  - repeat constructor.
Qed.

(** Synthesis before the origin is set.  While [is_origin_set] is false
    a mission of at least two waypoints is still synthesized: every
    trajectory point lies at x = y = 0, the coordinate system stays as it
    is, and the log holds one "origin not set" warning for every waypoint
    followed by the debug line of the trajectory. *)
Theorem synthesizer_without_origin (self : state)
  (takeoff_config : TakeoffConfig) (home_wp wp1 : Waypoint)
  (rest : list Waypoint) (drone_id : string) :
  is_origin_set self = false ->
  let waypoints := home_wp :: wp1 :: rest in
  exists trajectory total_time,
    _calculate_realistic_trajectory takeoff_config waypoints drone_id self
    = mkOutcome (Ok trajectory) self
        (repeat (mkLog WARNING OriginNotSet) (List.length waypoints)
         ++ [mkLog DEBUG (TrajectoryCalculated drone_id
                            (List.length trajectory) total_time)])
    /\ Forall (fun s => s_x s = 0 /\ s_y s = 0) trajectory.
Proof.
  intros Hu waypoints; subst waypoints.
  destruct (lat_lon_to_meters_unset self (wp_lat home_wp) (wp_lon home_wp) Hu)
    as [E1 _].
  pose proof (auto_mission_unset self DEFAULT_CRUISE_SPEED
                (enumerate 2 (wp1 :: rest)) Hu
                (0, 0, takeoff_altitude takeoff_config)
                (2 + 5 + hover_time takeoff_config)
                (ground_samples takeoff_config home_wp 0 0)) as E2.
  unfold _calculate_realistic_trajectory; cbv zeta.
  do 2 eexists; split.
  - erewrite bind_run; [| exact E1 | cbv beta iota].
    2: { erewrite bind_run; [| exact E2 | cbv beta iota].
         2: { unfold bind, log, ret; cbn [value state_after emitted].
              reflexivity. }
         reflexivity. }
    f_equal.
    assert (El : forall (A : Type) (l : list (Z * A)) z (l' : list A),
               l = enumerate z l' -> List.length l = List.length l').
    { intros A l z l'; revert l z; induction l' as [| a l' IH];
        intros l z ->; cbn [enumerate List.length]; [reflexivity |].
      f_equal; eapply IH; reflexivity. }
    rewrite (El _ _ 2%Z (wp1 :: rest) eq_refl).
    cbn [List.length repeat app]; rewrite <- ?app_assoc; reflexivity.
  - apply Forall_app; split.
    + unfold ground_samples; apply Forall_app; split; [| apply Forall_app;
                                                         split].
      * repeat constructor.
      * apply Forall_forall; intros s Hin.
        apply in_map_iff in Hin; destruct Hin as [[i t] [<- _]].
        split; reflexivity.
      * repeat constructor.
    + apply auto_samples_at_zero.
      intros lat lon; apply (lat_lon_to_meters_unset self lat lon Hu).
Qed.

Lemma synthesizer_without_origin_witness :
  exists trajectory total_time,
    _calculate_realistic_trajectory TakeoffConfig_default
      [mkWaypoint 24 121 0 179; mkWaypoint 25 122 15 16] "Drone_1" __init__
    = mkOutcome (Ok trajectory) __init__
        [mkLog WARNING OriginNotSet; mkLog WARNING OriginNotSet;
         mkLog DEBUG (TrajectoryCalculated "Drone_1"
                        (List.length trajectory) total_time)]
    /\ Forall (fun s => s_x s = 0 /\ s_y s = 0) trajectory.
Proof.
  exact (synthesizer_without_origin __init__ TakeoffConfig_default
           (mkWaypoint 24 121 0 179) (mkWaypoint 25 122 15 16) []
           "Drone_1" eq_refl).
Defined.

End WithoutOrigin.

(* ================================================================== *)
(** * The flown part of a trajectory *)
(* ================================================================== *)

Section FlownPath.

Import CollisionAvoidanceSystem.

Lemma plot_interpolate_total (trajectory : list Sample) (t : R) :
  trajectory <> [] ->
  exists p, Plot3DManager._interpolate_position trajectory t = Some p.
Proof.
  destruct trajectory as [| first rest]; [congruence |]; intros _.
  unfold Plot3DManager._interpolate_position.
  destruct (Rleb (s_time (last (first :: rest) first)) t) eqn:El;
    [eexists; reflexivity |].
  destruct (Rleb t (s_time first)) eqn:Ef; [eexists; reflexivity |].
  apply Rleb_false in El, Ef.
  destruct (interpolate_scan_total first rest t) as [q Eq]; [lra | lra |].
  pose proof (interpolate_scan_agree (first :: rest) t) as Ha.
  rewrite Eq in Ha.
  destruct (Plot3DManager.interpolate_scan (first :: rest) t) as [q' |];
    [eexists; reflexivity | contradiction].
Qed.

Lemma get_flown_path_from_spec (trajectory : list Sample) (t : R)
  (points : list Sample) :
  forall flown_path,
  exists pre post,
    points = pre ++ post
    /\ Forall (fun p => s_time p <= t) pre
    /\ match post with
       | [] =>
           Plot3DManager._get_flown_path_from trajectory points t flown_path
           = flown_path ++ points
       | p :: _ =>
           t < s_time p
           /\ Plot3DManager._get_flown_path_from trajectory points t
                flown_path
              = flown_path ++ pre
                ++ match Plot3DManager._interpolate_position trajectory t with
                   | Some current_pos => [current_pos]
                   | None => []
                   end
       end.
Proof.
  induction points as [| point rest IH]; intros flown_path.
  - exists [], []; repeat split; [constructor |].
    cbn; rewrite app_nil_r; reflexivity.
  - cbn [Plot3DManager._get_flown_path_from].
    destruct (Rleb (s_time point) t) eqn:E.
    + apply Rleb_true in E.
      destruct (IH (flown_path ++ [point])) as [pre [post [-> [Hpre Hres]]]].
      exists (point :: pre), post; split; [reflexivity |].
      split; [constructor; assumption |].
      destruct post as [| p post'].
      * rewrite Hres, <- app_assoc; reflexivity.
      * destruct Hres as [Hlt ->]; split; [exact Hlt |].
        rewrite <- app_assoc; reflexivity.
    + apply Rleb_false in E.
      exists [], (point :: rest); split; [reflexivity |].
      split; [constructor |]; split; [lra |].
      destruct (Plot3DManager._interpolate_position trajectory t);
        cbn [app]; rewrite ?app_nil_r; reflexivity.
Qed.

(** The flown part of a trajectory.  [_get_flown_path] returns the
    longest prefix of the trajectory whose points have a time up to the
    current time; when the trajectory goes on, with a first later point,
    the interpolated current position, which always exists, is appended;
    when it does not, the result is the whole trajectory. *)
Theorem get_flown_path_spec (trajectory : list Sample) (current_time : R) :
  exists pre post,
    trajectory = pre ++ post
    /\ Forall (fun p => s_time p <= current_time) pre
    /\ match post with
       | [] => Plot3DManager._get_flown_path trajectory current_time
               = trajectory
       | p :: _ =>
           current_time < s_time p
           /\ exists current_pos,
               Plot3DManager._interpolate_position trajectory current_time
               = Some current_pos
               /\ Plot3DManager._get_flown_path trajectory current_time
                  = pre ++ [current_pos]
       end.
Proof.
  unfold Plot3DManager._get_flown_path.
  destruct (get_flown_path_from_spec trajectory current_time trajectory [])
    as [pre [post [E [Hpre Hres]]]].
  exists pre, post; split; [exact E |]; split; [exact Hpre |].
  destruct post as [| p post']; [exact Hres |].
  destruct Hres as [Hlt Hres]; split; [exact Hlt |].
  destruct (plot_interpolate_total trajectory current_time) as [pos Epos].
  { rewrite E; destruct pre; discriminate. }
  exists pos; split; [exact Epos |].
  rewrite Hres, Epos; reflexivity.
Qed.

End FlownPath.
